(** * ChatRenderer: a shallow embedding of [static/js/chat.js]

    The renderer owns an array of message records and mirrors it into the
    children of a DOM container.  The embedding follows the class method by
    method.  What is modelled:

    - JavaScript values as far as message records use them (primitives,
      [Date] objects, arrays of suggestions, plain objects), with
      truthiness, [||], [===] and string conversion, which throws for an
      object whose own [toString] is no function; objects carry an
      identity, which is what [===] compares;
    - message records and [updates] objects as finite maps from property
      names to values; object spread is map union;
    - arrays of records in a store indexed by locations, because
      [this.messages] is pushed to and assigned by index in place and
      [getMessages] hands out another array;
    - the DOM subtree under the container as a tree of elements, with the
      look-ups the class performs (by [data-message-id], by element id, by
      class names);
    - the pending [setTimeout] callbacks that change the list or the tree
      (those of [loadMessages] and the one of [hideSuggestions] that
      detaches a chip container), the texts given to [console.error], and
      the custom events dispatched on the document;
    - exceptions: a method either returns or throws, and keeps the part of
      its effect that happened before the throw.

    What is outside the embedding: inline styles, scroll position and the
    callbacks that only animate ([requestAnimationFrame], the staggered
    fade of suggestion chips); numbers other than integers; characters
    with codes above 255; functions and symbols as values; objects as
    properties of suggestions and of the objects that are not message
    records; arrays with holes; changes a caller makes to an object it
    has handed in (an identity comes with the same contents each time);
    the page outside the container.  A renderer is modelled after a
    construction that found its container. *)

From stdpp Require Import gmap strings list fin_maps pretty.

Open Scope string_scope.
Open Scope list_scope.
Open Scope nat_scope.

(** ** JavaScript values *)

Inductive prim :=
| PUndefined
| PNull
| PBool (b : bool)
| PNumber (n : Z)
| PString (s : string).

(** A suggestion, as an element of a [suggestions] array or as the argument
    of a click: a primitive, or an object read through [.id] and
    [.text]. *)
Inductive suggestion :=
| SuggPrim (p : prim)
| SuggObject (o : gmap string prim).

Abbreviation SuggString s := (SuggPrim (PString s)).

(** Two objects are the same object when they have the same identity.  An
    object handed in by a caller has an identity of the caller's; the
    objects the renderer creates are numbered as they are created. *)
Inductive identity :=
| Supplied (n : positive)
| Created (n : nat).

Inductive value :=
| VPrim (p : prim)
| VDate (ref : identity) (ms : Z)
| VArray (ref : identity) (items : list suggestion)
| VObject (ref : identity) (props : gmap string prim).

#[global] Instance prim_eq_dec : EqDecision prim.
Proof. solve_decision. Defined.
#[global] Instance suggestion_eq_dec : EqDecision suggestion.
Proof. solve_decision. Defined.
#[global] Instance identity_eq_dec : EqDecision identity.
Proof. solve_decision. Defined.
#[global] Instance value_eq_dec : EqDecision value.
Proof. solve_decision. Defined.

Abbreviation VUndefined := (VPrim PUndefined).
Abbreviation VNull := (VPrim PNull).
Abbreviation VBool b := (VPrim (PBool b)).
Abbreviation VNumber n := (VPrim (PNumber n)).
Abbreviation VString s := (VPrim (PString s)).

(** Objects with own enumerable properties only. *)
Abbreviation object := (gmap string value).

(** [o.k]: a missing property reads as [undefined]. *)
Definition get (k : string) (o : object) : value := default VUndefined (o !! k).

Definition prim_get (k : string) (o : gmap string prim) : prim :=
  default PUndefined (o !! k).

(** [{...a, ...b}]: the properties of [b] win. *)
Definition spread (a b : object) : object := b ∪ a.

Definition prim_truthy (p : prim) : bool :=
  match p with
  | PUndefined | PNull => false
  | PBool b => b
  | PNumber n => negb (n =? 0)%Z
  | PString s => negb (String.eqb s "")
  end.

(** Objects (dates, arrays, even empty ones) are truthy. *)
Definition truthy (v : value) : bool :=
  match v with
  | VPrim p => prim_truthy p
  | VDate _ _ | VArray _ _ | VObject _ _ => true
  end.

(** [a || b] *)
Definition or_else (a b : value) : value := if truthy a then a else b.

(** The identity of an object; a primitive has none. *)
Definition identity_of (v : value) : option identity :=
  match v with
  | VPrim _ => None
  | VDate ref _ | VArray ref _ | VObject ref _ => Some ref
  end.

(** [a === b]: primitives compare by value, objects by identity, and a
    primitive is never an object. *)
Definition strict_eq (a b : value) : bool :=
  match a, b with
  | VPrim p, VPrim q => bool_decide (p = q)
  | VPrim _, _ | _, VPrim _ => false
  | _, _ => bool_decide (identity_of a = identity_of b)
  end.

(** Reading a property of [null] or [undefined] throws. *)
Definition nullish (s : suggestion) : bool :=
  match s with
  | SuggPrim PUndefined | SuggPrim PNull => true
  | _ => false
  end.

(** ** DOM elements

    [serial] tells apart the nodes that a pending callback holds on to: a
    chip container carries the number it was created under, every other
    element carries none. *)

#[warnings="-register-all"]
Inductive element := Element {
  tagName : string;
  elementId : string;
  className : string;
  attributes : list (string * string);
  textContent : string;
  childNodes : list element;
  serial : option nat
}.

Definition createElement (tag : string) : element := Element tag "" "" [] "" [] None.

Definition set_className (c : string) (e : element) : element :=
  Element (tagName e) (elementId e) c (attributes e) (textContent e) (childNodes e) (serial e).

Definition set_id (i : string) (e : element) : element :=
  Element (tagName e) i (className e) (attributes e) (textContent e) (childNodes e) (serial e).

(** Every attribute name is set at most once on an element here. *)
Definition setAttribute (name v : string) (e : element) : element :=
  Element (tagName e) (elementId e) (className e)
          (attributes e ++ [(name, v)]) (textContent e) (childNodes e) (serial e).

Definition set_textContent (t : string) (e : element) : element :=
  Element (tagName e) (elementId e) (className e) (attributes e) t [] (serial e).

Definition set_childNodes (k : list element) (e : element) : element :=
  Element (tagName e) (elementId e) (className e) (attributes e) (textContent e) k (serial e).

Definition set_serial (n : nat) (e : element) : element :=
  Element (tagName e) (elementId e) (className e) (attributes e) (textContent e)
          (childNodes e) (Some n).

Definition appendChild (child : element) (parent : element) : element :=
  set_childNodes (childNodes parent ++ [child]) parent.

Fixpoint lookup_attribute (name : string) (attrs : list (string * string)) : option string :=
  match attrs with
  | [] => None
  | (n, v) :: rest => if String.eqb n name then Some v else lookup_attribute name rest
  end.

Definition getAttribute (name : string) (e : element) : option string :=
  lookup_attribute name (attributes e).

(** *** Searching the tree

    [querySelector] and [getElementById] return the first match among the
    descendants of the root, in document order (an element before its own
    descendants, then its later siblings). *)

Fixpoint find_among (search : element → option element) (p : element → bool)
    (kids : list element) : option element :=
  match kids with
  | [] => None
  | k :: rest =>
    if p k then Some k
    else match search k with
         | Some found => Some found
         | None => find_among search p rest
         end
  end.

Fixpoint querySelector (p : element → bool) (root : element) : option element :=
  match root with
  | Element _ _ _ _ _ kids _ => find_among (querySelector p) p kids
  end.

(** [found.remove()] for the element [querySelector p root] finds: the tree
    without that element, or [None] when nothing matches. *)
Fixpoint detach_among (detach : element → option element) (p : element → bool)
    (kids : list element) : option (list element) :=
  match kids with
  | [] => None
  | k :: rest =>
    if p k then Some rest
    else match detach k with
         | Some k' => Some (k' :: rest)
         | None => cons k <$> detach_among detach p rest
         end
  end.

Fixpoint detach_first (p : element → bool) (root : element) : option element :=
  match root with
  | Element t i c a x kids n =>
    (λ kids', Element t i c a x kids' n) <$> detach_among (detach_first p) p kids
  end.

(** Number of descendants of the root that satisfy [p]. *)
Fixpoint count_among (count : element → nat) (p : element → bool)
    (kids : list element) : nat :=
  match kids with
  | [] => 0
  | k :: rest => (if p k then 1 else 0) + count k + count_among count p rest
  end.

Fixpoint count_matches (p : element → bool) (root : element) : nat :=
  match root with
  | Element _ _ _ _ _ kids _ => count_among (count_matches p) p kids
  end.

(** A descendant by its path: the positions to take among the children,
    from the root down.  The root itself is no descendant. *)
Fixpoint node_at (path : list nat) (root : element) : option element :=
  match path with
  | [] => None
  | [i] => childNodes root !! i
  | i :: rest => childNodes root !! i ≫= node_at rest
  end.

(** The tree without the descendant at [path]. *)
Fixpoint remove_at (path : list nat) (root : element) : option element :=
  match path with
  | [] => None
  | [i] =>
    match childNodes root !! i with
    | Some _ => Some (set_childNodes (delete i (childNodes root)) root)
    | None => None
    end
  | i :: rest =>
    kid ← childNodes root !! i;
    kid' ← remove_at rest kid;
    Some (set_childNodes (<[i := kid']> (childNodes root)) root)
  end.

(** What a look-up hands to the method: the element found, and the tree as
    [found.remove()] would leave it. *)
Definition select_first (p : element → bool) (root : element) : option (element * element) :=
  match querySelector p root, detach_first p root with
  | Some found, Some without => Some (found, without)
  | _, _ => None
  end.

Definition select_at (path : list nat) (root : element) : option (element * element) :=
  match node_at path root, remove_at path root with
  | Some found, Some without => Some (found, without)
  | _, _ => None
  end.

(** The selector [[data-message-id="id"]]. *)
Definition has_message_id (id : string) (e : element) : bool :=
  bool_decide (getAttribute "data-message-id" e = Some id).

(** The id is pasted between double quotes without escaping.  The selector
    text is the intended one when the id has no character that ends or
    escapes a CSS string or that CSS replaces on input (NUL, line feed,
    form feed, carriage return, double quote, backslash). *)
Definition breaks_css_string (c : Ascii.ascii) : bool :=
  bool_decide (c ∈ [Ascii.ascii_of_nat 0; Ascii.ascii_of_nat 10; Ascii.ascii_of_nat 12;
                    Ascii.ascii_of_nat 13; Ascii.ascii_of_nat 34; Ascii.ascii_of_nat 92]).

Fixpoint selector_safe (id : string) : bool :=
  match id with
  | EmptyString => true
  | String c rest => negb (breaks_css_string c) && selector_safe rest
  end.

Definition is_typing_indicator (e : element) : bool :=
  String.eqb (elementId e) "typing-indicator".

(** The message elements are the children of the container that carry a
    [data-message-id] (the typing indicator does not). *)
Definition is_message_item (e : element) : bool :=
  bool_decide (is_Some (getAttribute "data-message-id" e)).

Definition is_button (e : element) : bool := String.eqb (tagName e) "button".

Definition has_serial (n : nat) (e : element) : bool := bool_decide (serial e = Some n).

(** The class names of an element: the words of [className]. *)
Definition is_space (c : Ascii.ascii) : bool :=
  bool_decide (c ∈ [Ascii.ascii_of_nat 9; Ascii.ascii_of_nat 10; Ascii.ascii_of_nat 12;
                    Ascii.ascii_of_nat 13; Ascii.ascii_of_nat 32]).

Fixpoint words (word s : string) : list string :=
  match s with
  | EmptyString => if String.eqb word "" then [] else [word]
  | String c rest =>
    if is_space c then
      if String.eqb word "" then words "" rest else word :: words "" rest
    else words (word +:+ String c EmptyString) rest
  end.

Definition classList (e : element) : list string := words "" (className e).

(** The selector [.mt-3.flex.flex-wrap.gap-2]. *)
Definition is_suggestions_container (e : element) : bool :=
  forallb (λ c, bool_decide (c ∈ classList e)) ["mt-3"; "flex"; "flex-wrap"; "gap-2"].

(** ** The engine and the browser

    What the embedding takes from the host the code runs on:
    - the text of [Date.prototype.toString], which depends on time zone and
      locale;
    - the digits of a number beyond the safe integers, where the rounding
      to a double decides them (and from [1e21] on the exponent form);
    - whether a string, converted to a number, is greater than [0];
    - what [querySelector] does with [[data-message-id="id"]] for an [id]
      that is not [selector_safe], where the text is another selector or
      none: [None] for a [SyntaxError], otherwise the path of the
      descendant it finds, if it finds one. *)
Class Host := {
  Date_toString : Z → string;
  Number_toString : Z → string;
  String_exceeds_zero : string → bool;
  querySelector_unescaped : string → element → option (option (list nat))
}.

(** [Number.MAX_SAFE_INTEGER] is [2^53 - 1]. *)
Definition safe_integer (n : Z) : bool :=
  bool_decide (- 9007199254740991 ≤ n ≤ 9007199254740991)%Z.

Definition prim_to_string `{Host} (p : prim) : string :=
  match p with
  | PUndefined => "undefined"
  | PNull => "null"
  | PBool true => "true"
  | PBool false => "false"
  | PNumber n => if safe_integer n then pretty n else Number_toString n
  | PString s => s
  end.

(** The string of a suggestion where one is wanted. *)
Definition suggestion_to_string `{Host} (s : suggestion) : string :=
  match s with
  | SuggPrim p => prim_to_string p
  | SuggObject _ => "[object Object]"
  end.

(** [Array.prototype.join] takes [null] and [undefined] for the empty
    string. *)
Definition joined_string `{Host} (s : suggestion) : string :=
  if nullish s then "" else suggestion_to_string s.

Fixpoint join (sep : string) (l : list string) : string :=
  match l with
  | [] => ""
  | [x] => x
  | x :: rest => x +:+ sep +:+ join sep rest
  end.

Definition ToString `{Host} (v : value) : string :=
  match v with
  | VPrim p => prim_to_string p
  | VDate _ ms => Date_toString ms
  | VArray _ items => join "," (joined_string <$> items)
  | VObject _ _ => "[object Object]"
  end.

(** An object takes [toString] from [Object.prototype] unless it has a
    property of that name of its own.  No property here is a function, so
    with one of its own the object has no string: converting it throws a
    [TypeError].  ([valueOf] cannot help: the one it inherits returns the
    object.) *)
Definition own_toString (o : gmap string prim) : bool :=
  bool_decide (is_Some (o !! "toString")).

Definition suggestion_converts (s : suggestion) : bool :=
  match s with
  | SuggPrim _ => true
  | SuggObject o => negb (own_toString o)
  end.

(** The value has a string; [ToString] is that string.  An array has one
    when its elements have. *)
Definition converts (v : value) : bool :=
  match v with
  | VPrim _ | VDate _ _ => true
  | VArray _ items => forallb suggestion_converts items
  | VObject _ props => negb (own_toString props)
  end.

Definition conversion_error : string :=
  "TypeError: Cannot convert object to primitive value".

(** [p > 0] *)
Definition exceeds_zero `{Host} (p : prim) : bool :=
  match p with
  | PUndefined | PNull => false
  | PBool b => b
  | PNumber n => bool_decide (0 < n)%Z
  | PString s => String_exceeds_zero s
  end.

(** [v.length > 0]: primitives other than strings, and dates, have no
    [length]. *)
Definition length_exceeds_zero `{Host} (v : value) : bool :=
  match v with
  | VString s => bool_decide (0 < String.length s)
  | VPrim _ | VDate _ _ => false
  | VArray _ items => bool_decide (0 < length items)
  | VObject _ props => exceeds_zero (prim_get "length" props)
  end.

(** ** Building the elements *)

(** A method returns or throws. *)
Inductive completion (A : Type) :=
| Normal (a : A)
| Throw (error : string).
Arguments Normal {A} a.
Arguments Throw {A} error.

(** Assigning [null] or [undefined] to [textContent] empties the element;
    any other value is converted to a string. *)
Definition text_of `{Host} (v : value) : string :=
  match v with
  | VUndefined | VNull => ""
  | _ => ToString v
  end.

(** [suggestion.text] and [suggestion.id], for a suggestion that is not
    [nullish]; both are [undefined] on a primitive. *)
Definition suggestion_text (s : suggestion) : value :=
  match s with
  | SuggPrim _ => VUndefined
  | SuggObject o => VPrim (prim_get "text" o)
  end.

Definition suggestion_id (s : suggestion) : value :=
  match s with
  | SuggPrim _ => VUndefined
  | SuggObject o => VPrim (prim_get "id" o)
  end.

(** [suggestion.text || suggestion], as the string the DOM stores. *)
Definition suggestion_label `{Host} (s : suggestion) : string :=
  if truthy (suggestion_text s) then ToString (suggestion_text s)
  else suggestion_to_string s.

(** [suggestion.text || suggestion] has a string: a truthy text is a
    primitive, otherwise the suggestion itself is converted. *)
Definition label_converts (s : suggestion) : bool :=
  truthy (suggestion_text s) || suggestion_converts s.

(** What the callback of [forEach] throws at a suggestion, if it throws:
    reading [.text] of [null] or [undefined], or storing for label an
    object that has no string. *)
Definition chip_error (s : suggestion) : option string :=
  if nullish s then
    Some "TypeError: Cannot read properties of null or undefined (reading 'text')"
  else if label_converts s then None
  else Some conversion_error.

(** [suggestion.id || index], as the string the DOM stores. *)
Definition suggestion_id_label `{Host} (s : suggestion) (index : nat) : string :=
  if truthy (suggestion_id s) then ToString (suggestion_id s)
  else pretty index.

Definition suggestionButton `{Host} (index : nat) (s : suggestion) : element :=
  setAttribute "data-suggestion-id" (suggestion_id_label s index)
    (setAttribute "data-suggestion" (suggestion_label s)
      (set_textContent (suggestion_label s)
        (set_className
           "suggestion-button px-3 py-2 bg-gray-100 hover:bg-gray-200 text-gray-700 text-sm rounded-full border border-gray-200 cursor-pointer"
           (createElement "button")))).

(** The chip container with one button per suggestion; [key] is the number
    the container is created under. *)
Definition suggestionsContainer `{Host} (key : nat) (items : list suggestion)
    (messageId : value) : element :=
  set_childNodes (imap suggestionButton items)
    (setAttribute "data-message-id" (ToString messageId)
      (set_className "mt-3 flex flex-wrap gap-2 max-w-[70%]"
        (set_serial key (createElement "div")))).

(** [renderSuggestions] stores [messageId] as an attribute, which converts
    it to a string, then calls [suggestions.forEach], which only an array
    has; the first suggestion the callback throws at ends the call. *)
Definition renderSuggestions `{Host} (key : nat) (suggestions : value) (messageId : value)
    : completion element :=
  if converts messageId then
    match suggestions with
    | VArray _ items =>
      match head (omap chip_error items) with
      | Some e => Throw e
      | None => Normal (suggestionsContainer key items messageId)
      end
    | _ => Throw "TypeError: suggestions.forEach is not a function"
    end
  else Throw conversion_error.

Definition is_user (message : object) : bool :=
  strict_eq (get "sender" message) (VString "user").

Definition is_ai (message : object) : bool :=
  strict_eq (get "sender" message) (VString "ai").

Definition avatar `{Host} (message : object) : element :=
  let base :=
    set_className
      "w-8 h-8 rounded-full flex items-center justify-center text-xs font-medium flex-shrink-0"
      (createElement "div") in
  if truthy (get "userAvatar" message) then
    appendChild
      (set_className "w-8 h-8 rounded-full object-cover"
        (setAttribute "alt" "User Avatar"
          (setAttribute "src" (ToString (get "userAvatar" message)) (createElement "img"))))
      base
  else
    set_textContent (ToString (or_else (get "userInitial" message) (VString "U")))
      (set_className (className base +:+ " bg-blue-500 text-white") base).

Definition bubble `{Host} (message : object) : element :=
  appendChild
    (set_textContent (text_of (get "text" message))
      (set_className "text-sm leading-relaxed whitespace-pre-wrap" (createElement "p")))
    (set_className
      ("px-4 py-3 rounded-2xl " +:+
       (if is_user message then "bg-blue-500 text-white"
        else "bg-white text-gray-800 border border-gray-200"))
      (createElement "div")).

Definition messageContent `{Host} (message : object) : element :=
  let content :=
    set_className
      ("flex items-end space-x-2 max-w-[70%] " +:+
       (if is_user message then "flex-row-reverse" else ""))
      (createElement "div") in
  if is_user message then appendChild (bubble message) (appendChild (avatar message) content)
  else appendChild (bubble message) content.

(** The message element before the chips are looked at. *)
Definition messageItem `{Host} (message : object) : element :=
  appendChild (messageContent message)
    (setAttribute "data-message-id" (ToString (get "id" message))
      (set_className
        ("flex flex-col " +:+ (if is_user message then "items-end" else "items-start")
           +:+ " message-item")
        (createElement "div"))).

(** The values [renderMessage] converts to strings on its way to the test
    for chips all have one: the id (an attribute), the avatar address or
    the initial of a user message, the text ([null] and [undefined] are
    not converted). *)
Definition item_converts (message : object) : bool :=
  converts (get "id" message) &&
  (if is_user message then
     if truthy (get "userAvatar" message) then converts (get "userAvatar" message)
     else converts (or_else (get "userInitial" message) (VString "U"))
   else true) &&
  converts (get "text" message).

(** [message.sender === 'ai' && message.suggestions &&
     message.suggestions.length > 0] *)
Definition wants_chips `{Host} (message : object) : bool :=
  is_ai message && truthy (get "suggestions" message) &&
  length_exceeds_zero (get "suggestions" message).

(** The element [renderMessage] builds before it touches the container. *)
Definition messageElement `{Host} (key : nat) (message : object) : completion element :=
  if item_converts message then
    if wants_chips message then
      match renderSuggestions key (get "suggestions" message) (get "id" message) with
      | Normal chips => Normal (appendChild chips (messageItem message))
      | Throw e => Throw e
      end
    else Normal (messageItem message)
  else Throw conversion_error.

(** The typing indicator: three dots in a bubble. *)
Definition typing_dot : element :=
  set_className "w-2 h-2 bg-gray-400 rounded-full typing-dot" (createElement "div").

Definition typingElement : element :=
  appendChild
    (appendChild
      (appendChild
        (appendChild typing_dot (appendChild typing_dot (appendChild typing_dot
           (set_className "flex space-x-1" (createElement "div")))))
        (set_className "bg-white text-gray-800 border border-gray-200 px-4 py-3 rounded-2xl"
           (createElement "div")))
      (set_className "flex items-end space-x-2 max-w-[70%]" (createElement "div")))
    (set_id "typing-indicator"
      (set_className "flex justify-start typing-indicator" (createElement "div"))).

(** ** The renderer and its surroundings *)

(** [new CustomEvent(type, {detail: {suggestion, messageId, text}})] *)
Record event := CustomEvent {
  event_type : string;
  detail_suggestion : suggestion;
  detail_messageId : value;
  detail_text : value
}.

(** A callback waiting in [setTimeout].
    - [() => this.addMessage(message)]: an argument of [addMessage] that
      is not an object ([undefined], [null], a primitive) is [None].
    - The callback of [hideSuggestions] that takes the chip container it
      holds out of its parent; [node] is the [serial] of that container. *)
Inductive task :=
| AddMessageLater (message : option object)
| DetachLater (node : option nat).

(** [messages], [container] and [isTyping] are the fields of the class:
    [messages] holds a reference into the store of arrays, [container] is
    the container element with the subtree below it.  [allocated] counts
    the numbers given out so far to the objects the renderer creates. *)
Record world := World {
  heap : gmap positive (list object);
  messages : positive;
  container : element;
  isTyping : bool;
  timers : list (nat * task);
  console : list string;
  dispatched : list event;
  allocated : nat
}.

Definition set_heap (h : gmap positive (list object)) (w : world) : world :=
  World h (messages w) (container w) (isTyping w) (timers w) (console w) (dispatched w)
        (allocated w).
Definition set_messages (l : positive) (w : world) : world :=
  World (heap w) l (container w) (isTyping w) (timers w) (console w) (dispatched w)
        (allocated w).
Definition set_container (c : element) (w : world) : world :=
  World (heap w) (messages w) c (isTyping w) (timers w) (console w) (dispatched w)
        (allocated w).
Definition set_isTyping (b : bool) (w : world) : world :=
  World (heap w) (messages w) (container w) b (timers w) (console w) (dispatched w)
        (allocated w).
Definition set_timers (t : list (nat * task)) (w : world) : world :=
  World (heap w) (messages w) (container w) (isTyping w) t (console w) (dispatched w)
        (allocated w).
Definition set_console (c : list string) (w : world) : world :=
  World (heap w) (messages w) (container w) (isTyping w) (timers w) c (dispatched w)
        (allocated w).
Definition set_dispatched (d : list event) (w : world) : world :=
  World (heap w) (messages w) (container w) (isTyping w) (timers w) (console w) d
        (allocated w).
Definition set_allocated (n : nat) (w : world) : world :=
  World (heap w) (messages w) (container w) (isTyping w) (timers w) (console w)
        (dispatched w) n.

(** The array at a location; a location outside the store reads as an
    empty array (no world the renderer reaches has one in [messages]). *)
Definition array_at (l : positive) (w : world) : list object :=
  default [] (heap w !! l).

(** The in-memory message list: the contents of [this.messages]. *)
Definition message_list (w : world) : list object := array_at (messages w) w.

(** The renderer's reference points into the store. *)
Definition well_formed (w : world) : Prop := messages w ∈ dom (heap w).

(** *** State and exceptions *)

Definition M (A : Type) : Type := world → completion A * world.

#[global] Instance M_ret : MRet M := λ A a w, (Normal a, w).

#[global] Instance M_bind : MBind M := λ A B f m w,
  match m w with
  | (Normal a, w') => f a w'
  | (Throw e, w') => (Throw e, w')
  end.

Definition throw {A} (e : string) : M A := λ w, (Throw e, w).
Definition read {A} (f : world → A) : M A := λ w, (Normal (f w), w).
Definition write (f : world → world) : M unit := λ w, (Normal tt, f w).

(** The world a call leaves behind, whether it returned or threw. *)
Definition after {A} (m : M A) (w : world) : world := (m w).2.

Definition returns {A} (m : M A) (w : world) : Prop := ∃ a, (m w).1 = Normal a.

Definition console_error (text : string) : M unit :=
  write (λ w, set_console (console w ++ [text]) w).

(** The next number for an object the renderer creates.  A number that is
    taken and then not used names nothing. *)
Definition allocate : M nat := λ w,
  (Normal (allocated w), set_allocated (S (allocated w)) w).

(** [setTimeout(callback, delay)] *)
Definition setTimeout (callback : task) (delay : nat) : M unit :=
  write (λ w, set_timers (timers w ++ [(delay, callback)]) w).

(** [new Array] holding [items], at a location not in use. *)
Definition new_array (items : list object) : M positive := λ w,
  let l := fresh (dom (heap w)) in
  (Normal l, set_heap (<[l := items]> (heap w)) w).

(** [array.push(x)] on the array object at [l]. *)
Definition array_push (l : positive) (x : object) : M unit :=
  write (λ w, set_heap (<[l := array_at l w ++ [x]]> (heap w)) w).

(** [array[i] = x] for [i] within the array. *)
Definition array_set (l : positive) (i : nat) (x : object) : M unit :=
  write (λ w, set_heap (<[l := <[i := x]> (array_at l w)]> (heap w)) w).

(** [array.pop()] *)
Definition array_pop (l : positive) : M unit :=
  write (λ w, set_heap (<[l := removelast (array_at l w)]> (heap w)) w).

Fixpoint findIndex {A} (p : A → bool) (l : list A) : option nat :=
  match l with
  | [] => None
  | x :: rest => if p x then Some 0 else S <$> findIndex p rest
  end.

(** ** The methods of [ChatRenderer] *)

(** The constructor on a page whose container is an empty [div], followed
    by [init]. *)
Definition new_ChatRenderer : world :=
  World {[ 1%positive := [] ]} 1%positive
        (set_className "flex-1 overflow-y-auto p-4 space-y-4" (createElement "div"))
        false [] [] [] 0.

(** [scrollToBottom] only schedules a write to [scrollTop]. *)
Definition scrollToBottom : M unit := mret tt.

(** [renderMessage] takes a number for the chip container it may create. *)
Definition renderMessage `{Host} (message : object) : M unit :=
  key ← allocate;
  match messageElement key message with
  | Throw e => throw e
  | Normal item => write (λ w, set_container (appendChild item (container w)) w)
  end.

(** The record [addMessage] stores for [message] when the clock reads
    [now]: the four defaults, overridden by every own property of
    [message].  [date] is the number for the [Date] that [new Date()]
    creates when the message has no truthy [timestamp]. *)
Definition new_record (now : Z) (date : nat) (message : object) : object :=
  spread
    {[ "id" := or_else (get "id" message) (VString (pretty now));
       "text" := get "text" message;
       "sender" := or_else (get "sender" message) (VString "user");
       "timestamp" := or_else (get "timestamp" message) (VDate (Created date) now) ]}
    message.

Definition valid_message (message : option object) : bool :=
  match message with
  | None => false
  | Some m => truthy (get "text" m)
  end.

(** [now] is what [Date.now()] and [new Date()] read during the call. *)
Definition addMessage `{Host} (now : Z) (message : option object) : M unit :=
  match message with
  | None => console_error "Invalid message object"
  | Some m =>
    if negb (truthy (get "text" m)) then console_error "Invalid message object"
    else
      date ← allocate;
      this_messages ← read messages;
      array_push this_messages (new_record now date m);;
      newest ← read (λ w, last (message_list w));
      match newest with
      | None => throw "TypeError: Cannot read properties of undefined (reading 'sender')"
      | Some record => renderMessage record;; scrollToBottom
      end
  end.

Definition showTyping : M unit :=
  typing ← read isTyping;
  if typing : bool then mret tt
  else
    write (set_isTyping true);;
    write (λ w, set_container (appendChild typingElement (container w)) w);;
    scrollToBottom.

(** [document.getElementById] searches the page; the embedding has the
    subtree under the container for page. *)
Definition hideTyping : M unit :=
  write (λ w, match detach_first is_typing_indicator (container w) with
              | Some c => set_container c w
              | None => w
              end);;
  write (set_isTyping false).

(** [this.container.innerHTML = ''; this.messages = []] *)
Definition clearMessages : M unit :=
  write (λ w, set_container (set_childNodes [] (container w)) w);;
  empty ← new_array [];
  write (set_messages empty).

(** An argument that is not an array is [None]. *)
Definition loadMessages (messages : option (list (option object))) : M unit :=
  match messages with
  | None => console_error "Messages must be an array"
  | Some items =>
    clearMessages;;
    write (λ w, set_timers
                  (timers w ++ imap (λ index message, (index * 100, AddMessageLater message)) items)
                  w)
  end.

(** [[...this.messages]] *)
Definition getMessages : M positive :=
  items ← read message_list;
  new_array items.

(** [root.querySelector(`[data-message-id="${messageId}"]`)]: the element
    found, with [root] as it is without that element.  The template
    converts the id to a string.  For an id that is [selector_safe] the
    text is the attribute selector it looks like; for any other id the
    host says what the text selects. *)
Definition select_message_element `{Host} (messageId : value) (root : element)
    : completion (option (element * element)) :=
  if converts messageId then
    if selector_safe (ToString messageId) then
      Normal (select_first (has_message_id (ToString messageId)) root)
    else
      match querySelector_unescaped (ToString messageId) root with
      | None => Throw "SyntaxError: not a valid selector"
      | Some None => Normal None
      | Some (Some path) => Normal (select_at path root)
      end
  else Throw conversion_error.

Definition query_message_element `{Host} (messageId : value)
    : M (option (element * element)) := λ w,
  (select_message_element messageId (container w), w).

(** [msg => msg.id === messageId] *)
Definition has_id (messageId : value) (msg : object) : bool :=
  strict_eq (get "id" msg) messageId.

Definition updateMessage `{Host} (messageId : value) (updates : object) : M unit :=
  items ← read message_list;
  match findIndex (has_id messageId) items with
  | None =>
    if converts messageId then
      console_error ("Message with ID " +:+ ToString messageId +:+ " not found")
    else throw conversion_error
  | Some messageIndex =>
    this_messages ← read messages;
    match items !! messageIndex with
    | None => mret tt
    | Some old => array_set this_messages messageIndex (spread old updates)
    end;;
    found ← query_message_element messageId;
    match found with
    | Some (_, without) => write (set_container without)
    | None => mret tt
    end;;
    updated ← read (λ w, message_list w !! messageIndex);
    match updated with
    | None => throw "TypeError: Cannot read properties of undefined (reading 'sender')"
    | Some record => renderMessage record
    end
  end.

(** [hideSuggestions] looks the message element up, the chip container
    inside it, and leaves a callback that detaches that container after
    the buttons have faded. *)
Definition hideSuggestions `{Host} (messageId : value) : M unit :=
  found ← query_message_element messageId;
  match found with
  | Some (messageElement, _) =>
    match querySelector is_suggestions_container messageElement with
    | Some suggestionsContainer =>
      setTimeout (DetachLater (serial suggestionsContainer))
                 (count_matches is_button suggestionsContainer * 50 + 300)
    | None => mret tt
    end
  | None => mret tt
  end.

Definition getUserAvatar : value := VNull.
Definition getUserInitial : value := VString "U".

(** [typeof suggestion === 'string' ? suggestion : suggestion.text], for a
    suggestion that is not [nullish]. *)
Definition suggestionText (s : suggestion) : value :=
  match s with
  | SuggString text => VString text
  | _ => suggestion_text s
  end.

(** The object literal a click passes to [addMessage]; [date] is the
    number of its [new Date()]. *)
Definition clicked_message (now : Z) (date : nat) (s : suggestion) : object :=
  {[ "id" := VString (pretty now);
     "text" := suggestionText s;
     "sender" := VString "user";
     "timestamp" := VDate (Created date) now;
     "userAvatar" := getUserAvatar;
     "userInitial" := getUserInitial ]}.

Definition dispatchEvent (e : event) : M unit :=
  write (λ w, set_dispatched (dispatched w ++ [e]) w).

Definition handleSuggestionClick `{Host} (now : Z) (s : suggestion) (messageId : value)
    : M unit :=
  if nullish s then
    throw "TypeError: Cannot read properties of null or undefined (reading 'text')"
  else
    date ← allocate;
    addMessage now (Some (clicked_message now date s));;
    hideSuggestions messageId;;
    dispatchEvent (CustomEvent "suggestionClick" s messageId (suggestionText s)).

(** [suggestionsContainer.parentNode.removeChild(suggestionsContainer)]
    when the node has a parent: a chip container under the container of
    the renderer leaves the tree; one that left the page with its message
    element, or was taken out before, changes nothing on the page. *)
Definition detach_node (node : option nat) : M unit :=
  write (λ w, match node with
              | Some n =>
                match detach_first (has_serial n) (container w) with
                | Some c => set_container c w
                | None => w
                end
              | None => w
              end).

(** A pending timer fires: it leaves the queue and its callback runs.  The
    browser picks the timer; [k] is its position in the queue. *)
Definition runTimer `{Host} (now : Z) (k : nat) : M unit :=
  pending ← read timers;
  match pending !! k with
  | None => mret tt
  | Some (_, callback) =>
    write (λ w, set_timers (delete k (timers w)) w);;
    match callback with
    | AddMessageLater message => addMessage now message
    | DetachLater node => detach_node node
    end
  end.

(** ** Sequences of calls *)

Inductive operation :=
| AddMessage (message : option object)
| UpdateMessage (messageId : value) (updates : object)
| LoadMessages (messages : option (list (option object)))
| HandleSuggestionClick (s : suggestion) (messageId : value)
| ClearMessages
| ShowTyping
| HideTyping
| GetMessages
| RunTimer (k : nat).

(** One call, made when the clock reads [now]. *)
Definition call `{Host} (now : Z) (op : operation) : M unit :=
  match op with
  | AddMessage message => addMessage now message
  | UpdateMessage messageId updates => updateMessage messageId updates
  | LoadMessages messages => loadMessages messages
  | HandleSuggestionClick s messageId => handleSuggestionClick now s messageId
  | ClearMessages => clearMessages
  | ShowTyping => showTyping
  | HideTyping => hideTyping
  | GetMessages => getMessages;; mret tt
  | RunTimer k => runTimer now k
  end.

(** The calls of a script run one after another; an exception ends the call
    that threw it and the next call finds the world as it was left. *)
Definition exec `{Host} (script : list (Z * operation)) (w : world) : world :=
  foldl (λ w step, after (call step.1 step.2) w) w script.

(** ** Vocabulary of the statements *)

(** A test that looks at the element itself, not at what is below it. *)
Definition shallow (q : element → bool) : Prop :=
  ∀ e kids, q (set_childNodes kids e) = q e.

(** [e'] is [e] with descendants taken out: the element itself is as it
    was, and no test that looks at single elements finds more below it. *)
Definition pruned (e' e : element) : Prop :=
  (∃ kids, e' = set_childNodes kids e) ∧
  ∀ q, shallow q → count_matches q e' ≤ count_matches q e.

(** A test that fails on an element and finds nothing below it. *)
Definition misses (p : element → bool) (e : element) : Prop :=
  p e = false ∧ count_matches p e = 0.

(** The tests that no part of a message element passes, the chip
    container aside: for the typing indicator, and for a serial. *)
Definition plain_test (p : element → bool) : Prop :=
  p = is_typing_indicator ∨ ∃ n, p = has_serial n.

(** The tests that nothing inside a message element passes. *)
Definition inner_test (p : element → bool) : Prop :=
  plain_test p ∨ (∃ id, p = has_message_id id) ∨ p = is_message_item.

(** [this.messages] after [push(x)]. *)
Definition pushed (x : object) (w : world) : world :=
  set_heap (<[messages w := message_list w ++ [x]]> (heap w)) w.

(** [this.messages] after [this.messages[i] = x]. *)
Definition assigned (i : nat) (x : object) (w : world) : world :=
  set_heap (<[messages w := <[i := x]> (message_list w)]> (heap w)) w.

(** The world after [addMessage] has stored the record of [m], before the
    element is appended: the record is pushed, and two numbers are taken. *)
Definition stored (now : Z) (m : object) (w : world) : world :=
  set_allocated (S (S (allocated w))) (pushed (new_record now (allocated w) m) w).

(** The world a click leaves when its [addMessage] is over: a number is
    taken for the date of the message, and the message is added. *)
Definition clicked `{Host} (now : Z) (s : suggestion) (w : world) : world :=
  after (addMessage now (Some (clicked_message now (allocated w) s)))
        (set_allocated (S (allocated w)) w).

(** The records a call of [addMessage] appends when the clock reads [now]
    and the next number to give out is [next]. *)
Definition appended (now : Z) (next : nat) (message : option object) : list object :=
  match message with
  | Some m => if truthy (get "text" m) then [new_record now next m] else []
  | None => []
  end.

(** The numbers a call of [addMessage] takes: one for the date and one in
    [renderMessage], when it accepts the message. *)
Definition taken (message : option object) : nat :=
  if valid_message message then 2 else 0.

(** The typing indicators under the container. *)
Definition indicators (w : world) : nat :=
  count_matches is_typing_indicator (container w).

(** The ids of the stored records, in order. *)
Definition ids (w : world) : list value := get "id" <$> message_list w.

(** The [data-message-id] of the message elements, in document order. *)
Definition rendered_ids (w : world) : list (option string) :=
  getAttribute "data-message-id" <$> filter (λ e, is_message_item e) (childNodes (container w)).

(** An element shows a record when it is what [renderMessage] builds for
    the record, or that element after its chip container has been
    detached. *)
Definition shows `{Host} (e : element) (record : object) : Prop :=
  e = messageItem record ∨ ∃ key, messageElement key record = Normal e.

(** The DOM mirrors the list: the message elements under the container
    show, one for one and in order, the stored records. *)
Definition mirrors `{Host} (w : world) : Prop :=
  Forall2 shows
          (filter (λ e, is_message_item e) (childNodes (container w)))
          (message_list w).

(** The message list a call leaves behind, read off the methods. *)
Definition next_list (now : Z) (op : operation) (w : world) : list object :=
  match op with
  | AddMessage message => message_list w ++ appended now (allocated w) message
  | UpdateMessage messageId updates =>
    match findIndex (has_id messageId) (message_list w) with
    | Some i =>
      match message_list w !! i with
      | Some old => <[i := spread old updates]> (message_list w)
      | None => message_list w
      end
    | None => message_list w
    end
  | LoadMessages (Some _) | ClearMessages => []
  | HandleSuggestionClick s _ =>
    if nullish s then message_list w
    else message_list w ++
         appended now (S (allocated w)) (Some (clicked_message now (allocated w) s))
  | RunTimer k =>
    match timers w !! k with
    | Some (_, AddMessageLater message) => message_list w ++ appended now (allocated w) message
    | _ => message_list w
    end
  | LoadMessages None | ShowTyping | HideTyping | GetMessages => message_list w
  end.

(** A callback of [hideSuggestions]. *)
Definition detaches (t : nat * task) : Prop := ∃ node, t.2 = DetachLater node.

(** The flag and the DOM agree on the typing indicator as far as the class
    keeps them in step: never two indicators, and none while the flag is
    down. *)
Definition typing_ok (w : world) : Prop :=
  indicators w ≤ 1 ∧ (isTyping w = false → indicators w = 0).

(** A host for the concrete runs below.  None of them prints a number
    beyond the safe integers, compares a string with [0] or builds a
    selector from an id that is not [selector_safe]; the answers of this
    host there stand for no browser in particular. *)
Definition sample_host : Host :=
  {| Date_toString := λ ms, "Date " +:+ pretty ms;
     Number_toString := λ n, pretty n;
     String_exceeds_zero := λ _, false;
     querySelector_unescaped := λ _ _, None |}.

(** The id of the record a call appends, if it appends one. *)
Definition appended_id (now : Z) (op : operation) (w : world) : option value :=
  match op with
  | AddMessage message => get "id" <$> head (appended now (allocated w) message)
  | HandleSuggestionClick s _ =>
    if nullish s then None
    else get "id" <$>
         head (appended now (S (allocated w)) (Some (clicked_message now (allocated w) s)))
  | RunTimer k =>
    match timers w !! k with
    | Some (_, AddMessageLater message) =>
      get "id" <$> head (appended now (allocated w) message)
    | _ => None
    end
  | _ => None
  end.

(** A call that keeps ids apart: the record it appends, if any, has an id
    that no stored record has, and an update passes no [id] property. *)
Definition keeps_ids_apart (now : Z) (op : operation) (w : world) : bool :=
  match op with
  | UpdateMessage _ updates => bool_decide (updates !! "id" = None)
  | _ =>
    match appended_id now op w with
    | Some id => bool_decide (id ∉ ids w)
    | None => true
    end
  end.

Fixpoint id_discipline `{Host} (script : list (Z * operation)) (w : world) : bool :=
  match script with
  | [] => true
  | (now, op) :: rest =>
    keeps_ids_apart now op w && id_discipline rest (after (call now op) w)
  end.

(** An object that names no sender, or names one of the two. *)
Definition sender_known (o : object) : bool :=
  match o !! "sender" with
  | None => true
  | Some v => bool_decide (v = VString "user" ∨ v = VString "ai")
  end.

Definition argument_sender_known (message : option object) : bool :=
  match message with
  | Some m => sender_known m
  | None => true
  end.

(** A call whose message objects and updates all pass [sender_known]. *)
Definition supplies_known_sender (op : operation) : bool :=
  match op with
  | AddMessage message => argument_sender_known message
  | UpdateMessage _ updates => sender_known updates
  | LoadMessages (Some items) => forallb argument_sender_known items
  | _ => true
  end.

Definition sender_is_user_or_ai (record : object) : Prop :=
  get "sender" record = VString "user" ∨ get "sender" record = VString "ai".

(** What the sender invariant needs of the world: the stored senders are
    known, and so are those of the messages waiting in timers. *)
Definition senders_ok (w : world) : Prop :=
  Forall sender_is_user_or_ai (message_list w) ∧
  Forall (λ t, match t.2 with
               | AddMessageLater message => argument_sender_known message = true
               | DetachLater _ => True
               end) (timers w) ∧
  well_formed w.

(** A suggestion as the data model has it: a plain string, or an object. *)
Definition string_or_object (s : suggestion) : bool :=
  match s with
  | SuggString _ | SuggObject _ => true
  | _ => false
  end.

(** ** Concrete inputs *)

Definition first_message : object :=
  {[ "id" := VString "1"; "text" := VString "first" ]}.

Definition second_message : object :=
  {[ "id" := VString "2"; "text" := VString "second" ]}.

(** Three calls: two messages, then an edit of the first. *)
Definition edit_first_script : list (Z * operation) :=
  [ (1000%Z, AddMessage (Some first_message));
    (2000%Z, AddMessage (Some second_message));
    (3000%Z, UpdateMessage (VString "1") {[ "text" := VString "edited" ]}) ].

(** The same id given to [addMessage] twice. *)
Definition same_id_script : list (Z * operation) :=
  [ (1000%Z, AddMessage (Some first_message));
    (2000%Z, AddMessage (Some (<["text" := VString "again"]> first_message))) ].

(** A message from a sender that is neither ["user"] nor ["ai"]. *)
Definition bot_message : object :=
  {[ "text" := VString "hi"; "sender" := VString "bot" ]}.

(** An update that passes an [id]. *)
Definition rename_update : operation :=
  UpdateMessage (VString "1") {[ "id" := VString "9" ]}.

(** A script that takes every method once. *)
Definition tour_script : list (Z * operation) :=
  [ (1000%Z, AddMessage (Some first_message));
    (1500%Z, ShowTyping);
    (2000%Z, AddMessage (Some {[ "text" := VString "reply"; "sender" := VString "ai";
                                 "suggestions" :=
                                   VArray (Supplied 1) [SuggString "yes"; SuggString "no"] ]}));
    (2500%Z, HideTyping);
    (3000%Z, HandleSuggestionClick (SuggString "yes") (VString "2000"));
    (3500%Z, UpdateMessage (VString "1") {[ "text" := VString "edited" ]});
    (4000%Z, GetMessages);
    (4500%Z, LoadMessages (Some [Some second_message; None]));
    (5000%Z, RunTimer 0);
    (5500%Z, RunTimer 0) ].

(** A message whose text is the empty string. *)
Definition empty_text_message : object :=
  {[ "id" := VString "3"; "text" := VString "" ]}.

(** The renderer after the first two calls of [edit_first_script]. *)
Definition two_messages : world :=
  exec (H:=sample_host) (take 2 edit_first_script) new_ChatRenderer.

(** The renderer after the first message alone. *)
Definition one_message : world :=
  exec (H:=sample_host) (take 1 edit_first_script) new_ChatRenderer.

(** [forEach] throws at the suggestion. *)
Definition unlabelled (s : suggestion) : bool := nullish s || negb (label_converts s).

(** [renderMessage] throws for the record: one of the values it converts
    has no string, or the test for chips passes and the suggestions are
    not an array (a non-empty string, an object with a [length] above
    [0]) or are an array with an element [forEach] throws at. *)
Definition rendering_throws `{Host} (record : object) : bool :=
  negb (item_converts record) ||
  wants_chips record &&
  match get "suggestions" record with
  | VArray _ items => existsb unlabelled items
  | _ => true
  end.

(** A message for whose record [renderMessage] returns.  The clock reading
    and the number of the date make no difference to that. *)
Definition renders `{Host} (message : option object) : bool :=
  match message with
  | Some m => negb (rendering_throws (new_record 0 0 m))
  | None => true
  end.

(** A call other than [updateMessage], with messages that render. *)
Definition renders_in_order `{Host} (op : operation) : bool :=
  match op with
  | UpdateMessage _ _ => false
  | AddMessage message => renders message
  | LoadMessages (Some items) => forallb renders items
  | _ => true
  end.

(** The message elements under the container, in document order. *)
Definition message_elements (w : world) : list element :=
  filter (λ e, is_message_item e) (childNodes (container w)).

(** The children of the container are typing indicators as [showTyping]
    builds them and elements that show some record. *)
Definition rendered_children `{Host} (kids : list element) : Prop :=
  Forall (λ e, e = typingElement ∨ ∃ record, shows e record) kids.

(** What holds of a child of the container whatever has been taken out
    below it: it has no typing indicator below it, and it either is one,
    without any [data-message-id] on it or below it, or carries a
    [data-message-id] that is the only one found below it. *)
Definition tidy (e : element) : Prop :=
  count_matches is_typing_indicator e = 0 ∧
  ((is_typing_indicator e = true ∧ is_message_item e = false ∧
    count_matches is_message_item e = 0) ∨
   (is_typing_indicator e = false ∧
    ∃ id, getAttribute "data-message-id" e = Some id ∧
          ∀ s, s ≠ id → count_matches (has_message_id s) e = 0)).

(** [e'] is [e], or [e] after its chip container has been detached. *)
Definition stripped `{Host} (e' e : element) : Prop :=
  e' = e ∨ ((∃ record, shows e record) ∧ ∀ record, shows e record → e' = messageItem record).

(** An element with the classes of a chip container and no serial.  The
    renderer builds none. *)
Definition unnamed_chips (e : element) : bool :=
  is_suggestions_container e && bool_decide (serial e = None).

(** A callback that detaches a node names it. *)
Definition names_its_node (t : nat * task) : Prop :=
  ∀ node, t.2 = DetachLater node → is_Some node.

(** The numbers on the chip containers under the container have all been
    given out. *)
Definition serials_given_out (w : world) : Prop :=
  ∀ n, allocated w ≤ n → count_matches (has_serial n) (container w) = 0.

(** What the mirror invariant needs of the world. *)
Definition in_step `{Host} (w : world) : Prop :=
  mirrors w ∧ rendered_children (childNodes (container w)) ∧
  Forall (λ t, match t.2 with
               | AddMessageLater message => renders message = true
               | DetachLater _ => True
               end) (timers w) ∧
  well_formed w.

(** A call whose [updateMessage], if it is one, builds no selector (the
    id has no string) or builds it from an id that needs no escaping. *)
Definition selects_by_id `{Host} (op : operation) : bool :=
  match op with
  | UpdateMessage messageId _ => negb (converts messageId) || selector_safe (ToString messageId)
  | _ => true
  end.

(** ** More vocabulary *)

(** The timers at the head of the queue fire one after another, at the
    clock readings [nows]. *)
Definition fire_in_order (nows : list Z) : list (Z * operation) :=
  (λ now, (now, RunTimer 0)) <$> nows.

(** The records the callbacks of [loadMessages] store for [items] when
    they run at the clock readings [nows], the first of them with [next]
    for the next number to give out. *)
Fixpoint loaded (next : nat) (nows : list Z) (items : list (option object)) : list object :=
  match nows, items with
  | now :: nows, item :: items =>
    appended now next item ++ loaded (next + taken item) nows items
  | _, _ => []
  end.

(** The records the pending callbacks store when they run in order. *)
Fixpoint fired (next : nat) (nows : list Z) (pending : list (nat * task)) : list object :=
  match nows, pending with
  | now :: nows, (_, AddMessageLater item) :: pending =>
    appended now next item ++ fired (next + taken item) nows pending
  | _ :: nows, (_, DetachLater _) :: pending => fired next nows pending
  | _, _ => []
  end.

(** A snapshot: the array at [copy] holds [items] and is not the
    renderer's array. *)
Definition snapshot (copy : positive) (items : list object) (w : world) : Prop :=
  heap w !! copy = Some items ∧ copy ≠ messages w.

(** A message from the data model, used in the concrete runs: an answer
    with two suggestions. *)
Definition ai_message : object :=
  {[ "id" := VString "7"; "text" := VString "reply"; "sender" := VString "ai";
     "suggestions" :=
       VArray (Supplied 2) [SuggString "yes"; SuggObject {[ "id" := PString "n";
                                                           "text" := PString "no" ]}] ]}.

(** The renderer after two messages, with the typing indicator shown. *)
Definition two_messages_typing : world := after showTyping two_messages.

(** An answer whose suggestions are a string, not an array. *)
Definition string_suggestions_message : object :=
  {[ "id" := VString "8"; "text" := VString "reply"; "sender" := VString "ai";
     "suggestions" := VString "yes" ]}.

(** An answer whose array of suggestions holds a [null]. *)
Definition null_suggestion_message : object :=
  {[ "id" := VString "9"; "text" := VString "reply"; "sender" := VString "ai";
     "suggestions" := VArray (Supplied 3) [SuggString "yes"; SuggPrim PNull] ]}.

(** A message that leaves the id to [addMessage] and passes an empty
    string for sender. *)
Definition no_id_message : object :=
  {[ "text" := VString "hello"; "sender" := VString "" ]}.

(** A message whose id is a [Date] object. *)
Definition dated_message : object :=
  {[ "id" := VDate (Supplied 4) 86400000; "text" := VString "dated" ]}.

(** An array for [loadMessages], with an element [addMessage] turns
    down. *)
Definition three_items : list (option object) :=
  [Some first_message; None; Some ai_message].

(** A script that takes every method but [updateMessage]: the click
    leaves a callback that detaches the chips of the answer, and the
    callback runs. *)
Definition script_without_update : list (Z * operation) :=
  [ (1000%Z, AddMessage (Some first_message));
    (1500%Z, ShowTyping);
    (2000%Z, AddMessage (Some ai_message));
    (2500%Z, HideTyping);
    (3000%Z, HandleSuggestionClick (SuggString "yes") (VString "7"));
    (3400%Z, RunTimer 0);
    (4000%Z, GetMessages);
    (4500%Z, LoadMessages (Some three_items));
    (5000%Z, RunTimer 0);
    (5500%Z, RunTimer 1) ].

(** The suggestion chips below an element. *)
Definition chips (e : element) : nat := count_matches is_button e.

(** The suggestions [renderMessage] turns into chips: those of a record
    with sender ["ai"] whose [suggestions] is an array. *)
Definition shown_suggestions (record : object) : list suggestion :=
  if is_ai record then
    match get "suggestions" record with
    | VArray _ suggestions => suggestions
    | _ => []
    end
  else [].

(** The element [renderMessage] builds for [ai_message]. *)
Definition ai_item : element :=
  match messageElement (H:=sample_host) 1 (new_record 2000 0 ai_message) with
  | Normal item => item
  | Throw _ => createElement "div"
  end.
(** * Properties *)

(** ** The element tree *)

Lemma element_tree_ind (P : element → Prop) :
  (∀ t i c a x kids n, Forall P kids → P (Element t i c a x kids n)) →
  ∀ e, P e.
Proof.
  intros step. fix IH 1. intros [t i c a x kids n]. apply step.
  induction kids as [|k kids IHkids]; constructor; [apply IH | exact IHkids].
Qed.

Lemma is_typing_indicator_shallow : shallow is_typing_indicator.
Proof. by intros [] ?. Qed.

Lemma has_message_id_shallow id : shallow (has_message_id id).
Proof. by intros [] ?. Qed.

Lemma is_message_item_shallow : shallow is_message_item.
Proof. by intros [] ?. Qed.

Lemma count_matches_unfold p root :
  count_matches p root = count_among (count_matches p) p (childNodes root).
Proof. by destruct root. Qed.

Lemma detach_first_unfold p root :
  detach_first p root =
  (λ kids, set_childNodes kids root) <$> detach_among (detach_first p) p (childNodes root).
Proof. by destruct root. Qed.

Lemma count_among_app count p l1 l2 :
  count_among count p (l1 ++ l2) = count_among count p l1 + count_among count p l2.
Proof. induction l1 as [|k l1 IH]; simpl; [done | rewrite IH; lia]. Qed.

Lemma count_appendChild p child parent :
  count_matches p (appendChild child parent) =
  count_matches p parent + ((if p child then 1 else 0) + count_matches p child).
Proof.
  destruct parent as [t i c a x kids n]. simpl.
  rewrite count_among_app. simpl. destruct (p child); lia.
Qed.

Lemma count_set_childNodes p kids e :
  count_matches p (set_childNodes kids e) = count_among (count_matches p) p kids.
Proof. by rewrite count_matches_unfold. Qed.

Lemma count_set_childNodes_nil p e : count_matches p (set_childNodes [] e) = 0.
Proof. by rewrite count_matches_unfold. Qed.

Lemma count_among_delete_le count p i kids :
  count_among count p (delete i kids) ≤ count_among count p kids.
Proof.
  revert i. induction kids as [|k kids IH]; intros [|i]; simpl; try lia.
  specialize (IH i). lia.
Qed.

Lemma count_among_insert_le count p i k k' kids :
  kids !! i = Some k → p k' = p k → count k' ≤ count k →
  count_among count p (<[i := k']> kids) ≤ count_among count p kids.
Proof.
  revert i. induction kids as [|a kids IH]; intros [|i]; simpl; try done.
  - intros [= ->] -> Hle. lia.
  - intros Hi Hp Hle. specialize (IH i Hi Hp Hle). lia.
Qed.

(** Detaching the first match of [p] never adds a match of [q]. *)
Lemma detach_first_count_le p q root root' :
  shallow q →
  detach_first p root = Some root' → count_matches q root' ≤ count_matches q root.
Proof.
  intros Hq. revert root'.
  induction root as [t i c a x kids n IH] using element_tree_ind.
  intros root'. simpl. destruct (detach_among _ p kids) as [kids'|] eqn:E; [|done].
  intros [= <-]. simpl. revert kids' E.
  induction IH as [|k kids Hk _ IHkids]; intros kids' E; simpl in *; [done|].
  destruct (p k).
  - injection E as <-. lia.
  - destruct (detach_first p k) as [k'|] eqn:Ek.
    + injection E as <-. simpl. specialize (Hk _ eq_refl).
      rewrite detach_first_unfold in Ek.
      destruct (detach_among _ p (childNodes k)) as [below|]; [|done].
      injection Ek as <-. rewrite Hq in *. lia.
    + destruct (detach_among _ p kids) as [rest'|]; [|done].
      injection E as <-. simpl. specialize (IHkids _ eq_refl). lia.
Qed.

(** Detaching the first match of [p] removes at least that match. *)
Lemma detach_first_count_lt p root root' :
  shallow p →
  detach_first p root = Some root' → count_matches p root' < count_matches p root.
Proof.
  intros Hp. revert root'.
  induction root as [t i c a x kids n IH] using element_tree_ind.
  intros root'. simpl. destruct (detach_among _ p kids) as [kids'|] eqn:E; [|done].
  intros [= <-]. simpl. revert kids' E.
  induction IH as [|k kids Hk _ IHkids]; intros kids' E; simpl in *; [done|].
  destruct (p k) eqn:Pk.
  - injection E as <-. lia.
  - destruct (detach_first p k) as [k'|] eqn:Ek.
    + injection E as <-. simpl. specialize (Hk _ eq_refl).
      rewrite detach_first_unfold in Ek.
      destruct (detach_among _ p (childNodes k)) as [below|]; [|done].
      injection Ek as <-. rewrite Hp in *. rewrite Pk. lia.
    + destruct (detach_among _ p kids) as [rest'|]; [|done].
      injection E as <-. simpl. specialize (IHkids _ eq_refl). rewrite Pk. lia.
Qed.

(** Nothing is detached exactly when nothing matches. *)
Lemma detach_first_None p root :
  detach_first p root = None ↔ count_matches p root = 0.
Proof.
  induction root as [t i c a x kids n IH] using element_tree_ind. simpl.
  rewrite fmap_None.
  induction IH as [|k kids Hk _ IHkids]; simpl; [done|].
  destruct (p k); [split; [done | lia]|].
  destruct (detach_first p k) as [k'|] eqn:Ek.
  - split; [done|]. intros Hz. assert (count_matches p k = 0) as Hk0 by lia.
    apply Hk in Hk0. done.
  - rewrite fmap_None, IHkids. assert (count_matches p k = 0) as -> by by apply Hk.
    lia.
Qed.

Lemma querySelector_None p root :
  querySelector p root = None ↔ count_matches p root = 0.
Proof.
  induction root as [t i c a x kids n IH] using element_tree_ind. simpl.
  induction IH as [|k kids Hk _ IHkids]; simpl; [done|].
  destruct (p k); [split; [done | lia]|].
  destruct (querySelector p k) as [k'|] eqn:Ek.
  - split; [done|]. intros Hz. assert (count_matches p k = 0) as Hk0 by lia.
    apply Hk in Hk0. done.
  - rewrite IHkids. assert (count_matches p k = 0) as -> by by apply Hk.
    lia.
Qed.

(** [found.remove()] has something to remove exactly when [querySelector]
    finds something. *)
Lemma detach_first_querySelector p root :
  detach_first p root = None ↔ querySelector p root = None.
Proof. by rewrite detach_first_None, querySelector_None. Qed.

(** What a look-up selects is what [querySelector] finds, and the tree it
    leaves is what detaching the first match leaves. *)
Lemma select_first_Some p root found without :
  select_first p root = Some (found, without) ↔
  querySelector p root = Some found ∧ detach_first p root = Some without.
Proof.
  unfold select_first.
  destruct (querySelector p root), (detach_first p root);
    (split; [intros [= <- <-] | intros [[= <-] [= <-]]]; done).
Qed.

Lemma select_first_None p root :
  select_first p root = None ↔ detach_first p root = None.
Proof.
  unfold select_first. destruct (querySelector p root) eqn:Hq.
  - destruct (detach_first p root) eqn:Hd; [done|].
    apply detach_first_querySelector in Hd. congruence.
  - apply detach_first_querySelector in Hq. by rewrite Hq.
Qed.

(** The tree a look-up leaves, whether it found something or not. *)
Lemma select_first_without p root :
  default root (snd <$> select_first p root) = default root (detach_first p root).
Proof.
  destruct (select_first p root) as [[found without]|] eqn:Hs; simpl.
  - apply select_first_Some in Hs as [_ ->]. done.
  - apply select_first_None in Hs. by rewrite Hs.
Qed.

(** ** Elements with something taken out below them *)

Lemma pruned_refl e : pruned e e.
Proof. split; [exists (childNodes e); by destruct e | done]. Qed.

Lemma detach_first_pruned p root root' :
  detach_first p root = Some root' → pruned root' root.
Proof.
  intros Hd. split.
  - rewrite detach_first_unfold in Hd.
    destruct (detach_among _ _ _) as [kids'|]; [|done]. injection Hd as <-. by eexists.
  - intros q Hq. by eapply detach_first_count_le.
Qed.

Lemma remove_at_cons i j rest root :
  remove_at (i :: j :: rest) root =
  kid ← childNodes root !! i; kid' ← remove_at (j :: rest) kid;
  Some (set_childNodes (<[i := kid']> (childNodes root)) root).
Proof. done. Qed.

Lemma remove_at_pruned path root root' :
  remove_at path root = Some root' → pruned root' root.
Proof.
  revert root root'. induction path as [|i rest IH]; intros root root'; [done|].
  destruct rest as [|j rest].
  - simpl. destruct (childNodes root !! i) as [kid|] eqn:Hi; [|done]. intros [= <-].
    split; [by eexists|]. intros q Hq.
    rewrite count_set_childNodes, (count_matches_unfold q root).
    apply count_among_delete_le.
  - rewrite remove_at_cons. intros (kid & Hi & Hrest)%bind_Some.
    apply bind_Some in Hrest as (kid' & Hkid & [= <-]).
    destruct (IH _ _ Hkid) as [[kids' ->] Hcount].
    split; [by eexists|]. intros q Hq.
    rewrite count_set_childNodes, (count_matches_unfold q root).
    eapply count_among_insert_le; [done | apply Hq | by apply Hcount].
Qed.

(** What holds of every child, and of a child with something taken out
    below it, holds of the children after the first match of [p] has
    been detached. *)
Lemma detach_first_children (P : element → Prop) p root root' :
  (∀ k k', pruned k' k → P k → P k') →
  detach_first p root = Some root' →
  Forall P (childNodes root) → Forall P (childNodes root').
Proof.
  intros HP. rewrite detach_first_unfold.
  destruct (detach_among _ _ _) as [kids'|] eqn:Hd; [|done].
  intros [= <-] Hkids. replace (childNodes (set_childNodes kids' root)) with kids'
    by by destruct root.
  revert kids' Hd. induction Hkids as [|k kids Hk Hkids IH]; intros kids'; simpl; [done|].
  destruct (p k); [by intros [= <-]|].
  destruct (detach_first p k) as [k'|] eqn:Hk'.
  - intros [= <-]. constructor; [|done]. eapply HP; [|done]. by eapply detach_first_pruned.
  - destruct (detach_among _ _ kids) as [rest|]; [|done]. intros [= <-].
    constructor; [done|]. by apply IH.
Qed.

Lemma remove_at_children (P : element → Prop) path root root' :
  (∀ k k', pruned k' k → P k → P k') →
  remove_at path root = Some root' →
  Forall P (childNodes root) → Forall P (childNodes root').
Proof.
  intros HP. destruct path as [|i [|j rest]]; [done| |].
  - simpl. destruct (childNodes root !! i); [|done]. intros [= <-] Hkids.
    replace (childNodes (set_childNodes _ root)) with (delete i (childNodes root))
      by by destruct root.
    by apply Forall_delete.
  - rewrite remove_at_cons. intros (kid & Hi & Hrest)%bind_Some Hkids.
    apply bind_Some in Hrest as (kid' & Hkid & [= <-]).
    replace (childNodes (set_childNodes _ root)) with (<[i := kid']> (childNodes root))
      by by destruct root.
    apply Forall_insert; [done|]. eapply HP; [by eapply remove_at_pruned|].
    by eapply Forall_lookup_1.
Qed.

Lemma select_at_Some path root found without :
  select_at path root = Some (found, without) → remove_at path root = Some without.
Proof.
  unfold select_at. destruct (node_at path root), (remove_at path root); congruence.
Qed.

(** ** What the rendered elements hold *)

Lemma Forall_imap {A B} (P : B → Prop) (f : nat → A → B) (l : list A) :
  (∀ i x, P (f i x)) → Forall P (imap f l).
Proof.
  revert f. induction l as [|a l IH]; intros f Hf; simpl; constructor; [apply Hf|].
  apply IH. intros; apply Hf.
Qed.

Lemma count_among_none count p kids :
  Forall (λ k, p k = false ∧ count k = 0) kids → count_among count p kids = 0.
Proof. induction 1 as [|k kids [Hp Hc] _ IH]; simpl; [done | by rewrite Hp, Hc, IH]. Qed.

Lemma misses_appendChild p child parent :
  shallow p → misses p parent → misses p child → misses p (appendChild child parent).
Proof.
  intros Hs [Hp Hc] [Hp' Hc']. split; [unfold appendChild; by rewrite Hs|].
  by rewrite count_appendChild, Hc, Hp', Hc'.
Qed.

Lemma has_serial_shallow n : shallow (has_serial n).
Proof. by intros [] ?. Qed.

Lemma inner_test_shallow p : inner_test p → shallow p.
Proof.
  intros [[->|[n ->]]|[[id ->]| ->]];
    [apply is_typing_indicator_shallow | apply has_serial_shallow |
     apply has_message_id_shallow | apply is_message_item_shallow].
Qed.

Section rendering.
Context `{Host}.

Lemma suggestionButton_misses p index s :
  inner_test p →
  misses p (suggestionButton index s).
Proof. intros [[->|[n ->]]|[[id ->]| ->]]; done. Qed.

Lemma suggestion_buttons_miss p items :
  inner_test p →
  count_among (count_matches p) p (imap suggestionButton items) = 0.
Proof.
  intros Hp. apply count_among_none, Forall_imap. intros i s.
  by apply suggestionButton_misses.
Qed.

Lemma avatar_misses p message :
  inner_test p →
  misses p (avatar message).
Proof.
  unfold avatar. intros [[->|[n ->]]|[[id ->]| ->]]; by destruct (truthy _).
Qed.

Lemma bubble_misses p message :
  inner_test p →
  misses p (bubble message).
Proof. intros [[->|[n ->]]|[[id ->]| ->]]; done. Qed.

Lemma messageContent_misses p message :
  inner_test p →
  misses p (messageContent message).
Proof.
  intros Hp. unfold messageContent.
  pose proof (avatar_misses p message Hp) as Ha.
  pose proof (bubble_misses p message Hp) as Hb.
  pose proof (inner_test_shallow p Hp) as Hs.
  destruct (is_user message).
  - apply misses_appendChild; [done| |done]. apply misses_appendChild; [done| |done].
    destruct Hp as [[->|[n ->]]|[[id ->]| ->]]; done.
  - apply misses_appendChild; [done| |done].
    destruct Hp as [[->|[n ->]]|[[id ->]| ->]]; done.
Qed.

Lemma messageItem_plain p message : plain_test p → misses p (messageItem message).
Proof.
  intros Hp. unfold messageItem. apply misses_appendChild.
  - apply inner_test_shallow. by left.
  - destruct Hp as [->|[n ->]]; done.
  - apply messageContent_misses. by left.
Qed.

Lemma suggestionsContainer_no_indicator key items messageId :
  misses is_typing_indicator (suggestionsContainer key items messageId).
Proof.
  split; [done|]. unfold suggestionsContainer. rewrite count_set_childNodes.
  apply suggestion_buttons_miss. left. by left.
Qed.

Lemma chip_error_None s : chip_error s = None ↔ unlabelled s = false.
Proof.
  unfold chip_error, unlabelled. destruct (nullish s); [done|].
  by destruct (label_converts s).
Qed.

(** [forEach] gets through the array when it throws at no element. *)
Lemma forEach_returns items :
  head (omap chip_error items) = None ↔ existsb unlabelled items = false.
Proof.
  induction items as [|s items IH]; [done|]. simpl.
  destruct (chip_error s) as [e|] eqn:Hs.
  - destruct (unlabelled s) eqn:Hu; [done|]. apply chip_error_None in Hu. congruence.
  - apply chip_error_None in Hs. by rewrite Hs.
Qed.

Lemma messageElement_cases key record item :
  messageElement key record = Normal item →
  item = messageItem record ∨
  ∃ ref items,
    get "suggestions" record = VArray ref items ∧
    item = appendChild (suggestionsContainer key items (get "id" record))
                       (messageItem record).
Proof.
  unfold messageElement, renderSuggestions.
  destruct (item_converts record); [|done].
  destruct (wants_chips record); [|intros [= <-]; by left].
  destruct (converts (get "id" record)); [|done].
  destruct (get "suggestions" record) as [p|?|ref items|?]; try done.
  destruct (head (omap chip_error items)); [done|]. intros [= <-]. right. by exists ref, items.
Qed.

Lemma messageElement_plain key message item :
  messageElement key message = Normal item → misses is_typing_indicator item.
Proof.
  intros [->|(ref & items & _ & ->)]%messageElement_cases.
  - apply messageItem_plain. by left.
  - apply misses_appendChild;
      [apply is_typing_indicator_shallow | apply messageItem_plain; by left |].
    apply suggestionsContainer_no_indicator.
Qed.

Lemma shows_plain e record : shows e record → misses is_typing_indicator e.
Proof.
  intros [->|[key Hitem]]; [apply messageItem_plain; by left|].
  by eapply messageElement_plain.
Qed.

Lemma typingElement_count :
  is_typing_indicator typingElement = true ∧
  count_matches is_typing_indicator typingElement = 0.
Proof. done. Qed.

(** *** The [data-message-id] *)

Lemma messageItem_data_message_id record :
  getAttribute "data-message-id" (messageItem record) = Some (ToString (get "id" record)).
Proof. done. Qed.

Lemma messageElement_data_message_id key record item :
  messageElement key record = Normal item →
  getAttribute "data-message-id" item = Some (ToString (get "id" record)).
Proof. by intros [->|(ref & items & _ & ->)]%messageElement_cases. Qed.

Lemma shows_data_message_id e record :
  shows e record → getAttribute "data-message-id" e = Some (ToString (get "id" record)).
Proof.
  intros [->|[key Hitem]]; [done|]. by eapply messageElement_data_message_id.
Qed.

Lemma shows_is_message_item e record : shows e record → is_message_item e = true.
Proof.
  intros He%shows_data_message_id. unfold is_message_item. by rewrite He.
Qed.

Lemma messageElement_is_message_item key record item :
  messageElement key record = Normal item → is_message_item item = true.
Proof. intros Hitem. apply (shows_is_message_item _ record). right. by exists key. Qed.

(** Below a message element only its chip container carries a
    [data-message-id], and it carries the same one: a selector that does
    not match the element matches nothing inside it. *)
Lemma messageItem_no_message_id s record :
  count_matches (has_message_id s) (messageItem record) = 0.
Proof.
  unfold messageItem. rewrite count_appendChild.
  destruct (messageContent_misses (has_message_id s) record) as [-> ->]; [|done].
  right. left. by exists s.
Qed.

Lemma shows_no_other_id s e record :
  shows e record → has_message_id s e = false → count_matches (has_message_id s) e = 0.
Proof.
  intros [->|[key [->|(ref & items & _ & ->)]%messageElement_cases]] Hs;
    try apply messageItem_no_message_id.
  rewrite count_appendChild, messageItem_no_message_id.
  assert (has_message_id s (suggestionsContainer key items (get "id" record)) = false)
    as -> by done.
  unfold suggestionsContainer. rewrite count_set_childNodes, suggestion_buttons_miss; [done|].
  right. left. by exists s.
Qed.

Lemma typingElement_no_message_id :
  is_message_item typingElement = false ∧
  count_matches is_message_item typingElement = 0.
Proof. done. Qed.

(** *** Every rendered child is tidy *)

Lemma has_message_id_is_message_item s e :
  has_message_id s e = true → is_message_item e = true.
Proof.
  unfold has_message_id, is_message_item. intros Hs%bool_decide_eq_true.
  apply bool_decide_eq_true. by rewrite Hs.
Qed.

Lemma tidy_typingElement : tidy typingElement.
Proof. split; [done|]. left. done. Qed.

Lemma tidy_shows e record : shows e record → tidy e.
Proof.
  intros He. destruct (shows_plain _ _ He) as [Hi Hc].
  split; [done|]. right. split; [done|].
  exists (ToString (get "id" record)). split; [by apply shows_data_message_id|].
  intros s Hs. apply (shows_no_other_id s _ _ He).
  unfold has_message_id. rewrite (shows_data_message_id _ _ He).
  apply bool_decide_eq_false. congruence.
Qed.

Lemma tidy_rendered_children kids : rendered_children kids → Forall tidy kids.
Proof.
  intros Hkids. eapply Forall_impl; [exact Hkids|].
  intros e [->|[record He]]; [apply tidy_typingElement | by eapply tidy_shows].
Qed.

(** Taking something out below a tidy element leaves it tidy. *)
Lemma tidy_pruned e e' : pruned e' e → tidy e → tidy e'.
Proof.
  intros [[kids ->] Hcount] [Hnone Hkind].
  assert (∀ q, shallow q → count_matches q e = 0 →
               count_matches q (set_childNodes kids e) = 0) as Hzero.
  { intros q Hq Hz. specialize (Hcount q Hq). lia. }
  split; [by apply Hzero; [apply is_typing_indicator_shallow|]|].
  destruct Hkind as [(Ht & Hm & Hz)|(Ht & id & Hid & Hother)]; [left | right].
  - rewrite is_typing_indicator_shallow, is_message_item_shallow.
    split_and!; [done | done |]. by apply Hzero; [apply is_message_item_shallow|].
  - rewrite is_typing_indicator_shallow. split; [done|].
    exists id. split; [by destruct e|].
    intros s Hs. apply Hzero; [apply has_message_id_shallow | by apply Hother].
Qed.
End rendering.

(** ** What each method does to the world *)

#[local] Arguments appendChild : simpl never.
#[local] Arguments count_matches : simpl never.
#[local] Arguments detach_first : simpl never.
#[local] Arguments querySelector : simpl never.
#[local] Arguments remove_at : simpl never.
#[local] Arguments node_at : simpl never.

Lemma message_list_pushed x w : message_list (pushed x w) = message_list w ++ [x].
Proof. unfold message_list, array_at, pushed. simpl. by rewrite lookup_insert_eq. Qed.

Lemma message_list_assigned i x w :
  message_list (assigned i x w) = <[i := x]> (message_list w).
Proof. unfold message_list, array_at, assigned. simpl. by rewrite lookup_insert_eq. Qed.

Lemma well_formed_pushed x w : well_formed (pushed x w).
Proof. unfold well_formed, pushed. simpl. set_solver. Qed.

Lemma well_formed_assigned i x w : well_formed (assigned i x w).
Proof. unfold well_formed, assigned. simpl. set_solver. Qed.

Lemma message_list_stored now m w :
  message_list (stored now m w) = message_list w ++ [new_record now (allocated w) m].
Proof. apply message_list_pushed. Qed.

Lemma well_formed_stored now m w : well_formed (stored now m w).
Proof. apply (well_formed_pushed _ w). Qed.

Ltac run :=
  unfold after, scrollToBottom, console_error, array_push, array_set, new_array, allocate,
    setTimeout, throw, read, write, mbind, M_bind, mret, M_ret; simpl.

Section methods.
Context `{Host}.

Lemma addMessage_invalid now message w :
  valid_message message = false →
  addMessage now message w =
  (Normal tt, set_console (console w ++ ["Invalid message object"]) w).
Proof.
  destruct message as [m|]; simpl; [|done].
  intros Hm. unfold addMessage. by rewrite Hm.
Qed.

Lemma addMessage_valid now m w :
  truthy (get "text" m) = true →
  addMessage now (Some m) w =
  match messageElement (S (allocated w)) (new_record now (allocated w) m) with
  | Normal item =>
    (Normal tt, set_container (appendChild item (container w)) (stored now m w))
  | Throw e => (Throw e, stored now m w)
  end.
Proof.
  intros Hm. unfold addMessage. rewrite Hm. run.
  change (set_heap _ (set_allocated (S (allocated w)) w)) with
    (pushed (new_record now (allocated w) m) (set_allocated (S (allocated w)) w)).
  rewrite message_list_pushed, last_snoc. unfold renderMessage. run.
  by destruct (messageElement _).
Qed.

Lemma message_list_addMessage now message w :
  message_list (after (addMessage now message) w) =
  message_list w ++ appended now (allocated w) message.
Proof.
  unfold after. destruct (valid_message message) eqn:Hv.
  - destruct message as [m|]; [|done]. simpl in Hv. rewrite addMessage_valid by done.
    simpl. rewrite Hv. destruct (messageElement _); simpl; apply message_list_pushed.
  - rewrite addMessage_invalid by done. simpl.
    destruct message as [m|]; simpl in *; [rewrite Hv|]; by rewrite app_nil_r.
Qed.

Lemma allocated_addMessage now message w :
  allocated (after (addMessage now message) w) = allocated w + taken message.
Proof.
  unfold after, taken. destruct (valid_message message) eqn:Hv.
  - destruct message as [m|]; [|done]. simpl in Hv. rewrite addMessage_valid by done.
    destruct (messageElement _); simpl; lia.
  - rewrite addMessage_invalid by done. simpl. lia.
Qed.

(** The fields of the class and the surroundings that [addMessage] leaves
    alone. *)
Lemma addMessage_frame now message w :
  let w' := after (addMessage now message) w in
  messages w' = messages w ∧ isTyping w' = isTyping w ∧ timers w' = timers w ∧
  dispatched w' = dispatched w ∧
  count_matches is_typing_indicator (container w') =
    count_matches is_typing_indicator (container w) ∧
  (well_formed w → well_formed w').
Proof.
  unfold after. destruct (valid_message message) eqn:Hv.
  - destruct message as [m|]; [|done]. simpl in Hv. rewrite addMessage_valid by done.
    destruct (messageElement _) as [item|e] eqn:Hitem; simpl.
    + apply messageElement_plain in Hitem as [Hi Hc].
      rewrite count_appendChild, Hi, Hc.
      repeat split; [lia | intros _; apply (well_formed_stored now m w)].
    + repeat split. intros _; apply (well_formed_stored now m w).
  - rewrite addMessage_invalid by done. done.
Qed.
End methods.

(** *** [findIndex] *)

Lemma findIndex_Some {A} (p : A → bool) l i :
  findIndex p l = Some i →
  ∃ x, l !! i = Some x ∧ p x = true ∧ ∀ j y, j < i → l !! j = Some y → p y = false.
Proof.
  revert i. induction l as [|a l IH]; intros i; simpl; [done|].
  destruct (p a) eqn:Pa.
  - intros [= <-]. exists a. repeat split; auto. lia.
  - destruct (findIndex p l) as [k|]; [|done]. intros [= <-].
    destruct (IH k eq_refl) as (x & Hx & Px & Hbefore).
    exists x. repeat split; auto.
    intros [|j] y Hj; simpl; [by intros [= <-]|]. apply Hbefore. lia.
Qed.

Lemma findIndex_None {A} (p : A → bool) l :
  findIndex p l = None ↔ ∀ x, x ∈ l → p x = false.
Proof.
  induction l as [|a l IH]; simpl.
  - split; [|done]. intros _ x Hx. by apply elem_of_nil in Hx.
  - destruct (p a) eqn:Pa.
    + split; [done|]. intros Hall. rewrite Hall in Pa; [done | left].
    + rewrite fmap_None, IH. split.
      * intros Hall x [->|Hx]%elem_of_cons; auto.
      * intros Hall x Hx. apply Hall. by right.
Qed.

Section methods_update.
Context `{Host}.

(** What the look-up of [updateMessage] and [hideSuggestions] leaves of the
    tree when its element is removed: the tree with something taken
    out, or the tree. *)
Lemma select_message_element_pruned messageId root found :
  select_message_element messageId root = Normal found →
  pruned (default root (snd <$> found)) root.
Proof.
  unfold select_message_element. destruct (converts _); [|done].
  destruct (selector_safe _).
  - intros [= <-]. rewrite select_first_without.
    destruct (detach_first _ root) as [c|] eqn:Hd; simpl;
      [by eapply detach_first_pruned | apply pruned_refl].
  - destruct (querySelector_unescaped _ root) as [[path|]|]; [| |done].
    + intros [= <-]. destruct (select_at path root) as [[e c]|] eqn:Hs; simpl;
        [|apply pruned_refl].
      apply select_at_Some in Hs. by eapply remove_at_pruned.
    + intros [= <-]. apply pruned_refl.
Qed.

Lemma select_message_element_children (P : element → Prop) messageId root found :
  (∀ k k', pruned k' k → P k → P k') →
  select_message_element messageId root = Normal found →
  Forall P (childNodes root) → Forall P (childNodes (default root (snd <$> found))).
Proof.
  intros HP. unfold select_message_element. destruct (converts _); [|done].
  destruct (selector_safe _).
  - intros [= <-]. rewrite select_first_without.
    destruct (detach_first _ root) as [c|] eqn:Hd; simpl; [|done].
    by eapply detach_first_children.
  - destruct (querySelector_unescaped _ root) as [[path|]|]; [| |done].
    + intros [= <-]. destruct (select_at path root) as [[e c]|] eqn:Hs; simpl; [|done].
      apply select_at_Some in Hs. by eapply remove_at_children.
    + by intros [= <-].
Qed.

Lemma select_message_element_safe messageId root :
  converts messageId = true → selector_safe (ToString messageId) = true →
  select_message_element messageId root =
  Normal (select_first (has_message_id (ToString messageId)) root).
Proof. intros Hc Hsafe. unfold select_message_element. by rewrite Hc, Hsafe. Qed.

(** [updateMessage] for an id that is not found: the text for the console
    needs the string of the id. *)
Lemma updateMessage_missing messageId updates w :
  findIndex (has_id messageId) (message_list w) = None →
  updateMessage messageId updates w =
  if converts messageId then
    (Normal tt,
     set_console (console w ++ ["Message with ID " +:+ ToString messageId +:+ " not found"])
       w)
  else (Throw conversion_error, w).
Proof.
  intros Hnone. unfold updateMessage. run. rewrite Hnone. by destruct (converts messageId).
Qed.

(** [updateMessage] for an id that is found, in full. *)
Lemma updateMessage_found_exact messageId updates w i old :
  findIndex (has_id messageId) (message_list w) = Some i →
  message_list w !! i = Some old →
  updateMessage messageId updates w =
  match select_message_element messageId (container w) with
  | Throw e => (Throw e, assigned i (spread old updates) w)
  | Normal found =>
    let c := default (container w) (snd <$> found) in
    let w1 := set_allocated (S (allocated w)) (assigned i (spread old updates) w) in
    match messageElement (allocated w) (spread old updates) with
    | Normal item => (Normal tt, set_container (appendChild item c) w1)
    | Throw e => (Throw e, set_container c w1)
    end
  end.
Proof.
  intros Hi Hold. unfold updateMessage. run. rewrite Hi, Hold. simpl.
  fold (message_list w). fold (assigned i (spread old updates) w).
  set (w1 := assigned i (spread old updates) w).
  assert (message_list w1 !! i = Some (spread old updates)) as Hnew.
  { unfold w1. rewrite message_list_assigned. apply list_lookup_insert_eq.
    by eapply lookup_lt_Some. }
  unfold query_message_element. simpl.
  destruct (select_message_element messageId (container w)) as [found|e]; [|done].
  assert (∀ c, (match message_list (set_container c w1) !! i with
                | Some record => renderMessage record
                | None => throw "TypeError: Cannot read properties of undefined (reading 'sender')"
                end (set_container c w1)) =
               match messageElement (allocated w) (spread old updates) with
               | Normal item =>
                 (Normal tt, set_container (appendChild item c) (set_allocated (S (allocated w)) w1))
               | Throw e => (Throw e, set_container c (set_allocated (S (allocated w)) w1))
               end) as Hrender.
  { intros c. change (message_list (set_container c w1)) with (message_list w1).
    rewrite Hnew. unfold renderMessage. run. by destruct (messageElement _). }
  destruct found as [[e c]|]; simpl.
  - apply (Hrender c).
  - rewrite <- (Hrender (container w)). by destruct w.
Qed.

Lemma updateMessage_found messageId updates w i old :
  findIndex (has_id messageId) (message_list w) = Some i →
  message_list w !! i = Some old →
  let w' := after (updateMessage messageId updates) w in
  message_list w' = <[i := spread old updates]> (message_list w) ∧
  messages w' = messages w ∧ isTyping w' = isTyping w ∧ timers w' = timers w ∧
  dispatched w' = dispatched w ∧ console w' = console w ∧
  count_matches is_typing_indicator (container w') ≤
    count_matches is_typing_indicator (container w) ∧
  well_formed w'.
Proof.
  intros Hi Hold w'. unfold w', after. rewrite (updateMessage_found_exact _ _ _ _ _ Hi Hold).
  pose proof (message_list_assigned i (spread old updates) w) as Hlist.
  pose proof (well_formed_assigned i (spread old updates) w) as Hwf.
  destruct (select_message_element messageId (container w)) as [found|e] eqn:Hfound;
    [|by split_and!].
  apply select_message_element_pruned in Hfound as [_ Hcount].
  specialize (Hcount _ is_typing_indicator_shallow).
  destruct (messageElement (allocated w) (spread old updates)) as [item|e] eqn:Hitem;
    cbn [snd]; (split_and!; try done).
  cbn [container set_container]. apply messageElement_plain in Hitem as [Hi' Hc'].
  rewrite count_appendChild, Hi', Hc'. lia.
Qed.
End methods_update.

#[local] Arguments addMessage : simpl never.
#[local] Arguments hideSuggestions : simpl never.
#[local] Arguments clearMessages : simpl never.
#[local] Arguments select_message_element : simpl never.

Section methods_rest.
Context `{Host}.

Lemma clearMessages_after w :
  clearMessages w =
  (Normal tt,
   set_messages (fresh (dom (heap w)))
     (set_heap (<[fresh (dom (heap w)) := []]> (heap w))
        (set_container (set_childNodes [] (container w)) w))).
Proof. done. Qed.

Lemma message_list_clearMessages w : message_list (after clearMessages w) = [].
Proof.
  unfold after. rewrite clearMessages_after. unfold message_list, array_at. simpl.
  by rewrite lookup_insert_eq.
Qed.

Lemma well_formed_clearMessages w : well_formed (after clearMessages w).
Proof. unfold after. rewrite clearMessages_after. unfold well_formed. simpl. set_solver. Qed.

Lemma childNodes_clearMessages w : childNodes (container (after clearMessages w)) = [].
Proof. unfold after. rewrite clearMessages_after. simpl. by destruct (container w). Qed.

Lemma getMessages_after w :
  getMessages w =
  (Normal (fresh (dom (heap w))),
   set_heap (<[fresh (dom (heap w)) := message_list w]> (heap w)) w).
Proof. done. Qed.

(** A new array is not the array [this.messages] refers to. *)
Lemma fresh_not_messages w : well_formed w → fresh (dom (heap w)) ≠ messages w.
Proof. intros Hwf Heq. apply (is_fresh (dom (heap w))). by rewrite Heq. Qed.

Lemma message_list_other_array l items w :
  l ≠ messages w →
  message_list (set_heap (<[l := items]> (heap w)) w) = message_list w.
Proof. intros Hl. unfold message_list, array_at. simpl. by rewrite lookup_insert_ne. Qed.

Lemma message_list_getMessages w :
  well_formed w → message_list (after getMessages w) = message_list w.
Proof.
  intros Hwf. unfold after. rewrite getMessages_after. simpl.
  by apply message_list_other_array, fresh_not_messages.
Qed.

Lemma well_formed_getMessages w : well_formed w → well_formed (after getMessages w).
Proof. unfold after. rewrite getMessages_after. unfold well_formed. simpl. set_solver. Qed.

Lemma showTyping_after w :
  showTyping w =
  (Normal tt,
   if isTyping w then w
   else set_container (appendChild typingElement (container w)) (set_isTyping true w)).
Proof. unfold showTyping. run. by destruct (isTyping w). Qed.

Lemma hideTyping_after w :
  hideTyping w =
  (Normal tt,
   set_isTyping false
     match detach_first is_typing_indicator (container w) with
     | Some c => set_container c w
     | None => w
     end).
Proof. done. Qed.

(** [hideSuggestions] changes nothing at once: it leaves at most one
    callback, which detaches a chip container. *)
Lemma hideSuggestions_after messageId w :
  ∃ extra,
    after (hideSuggestions messageId) w = set_timers (timers w ++ extra) w ∧
    Forall detaches extra ∧ length extra ≤ 1.
Proof.
  assert (∃ extra, w = set_timers (timers w ++ extra) w ∧
                   Forall detaches extra ∧ length extra ≤ 1) as Hsame.
  { exists []. rewrite app_nil_r. split; [by destruct w|]. split; [constructor | simpl; lia]. }
  unfold hideSuggestions, query_message_element. run.
  destruct (select_message_element messageId (container w)) as [[[found c]|]|e]; simpl;
    [|by apply Hsame..].
  destruct (querySelector is_suggestions_container found) as [box|]; simpl;
    [|by apply Hsame].
  eexists [_]. split; [done|]. split; [|done]. apply Forall_singleton. by eexists.
Qed.

Lemma hideSuggestions_returns messageId w :
  converts messageId = true → selector_safe (ToString messageId) = true →
  (hideSuggestions messageId w).1 = Normal tt.
Proof.
  intros Hc Hsafe. unfold hideSuggestions, query_message_element. run.
  rewrite select_message_element_safe by done.
  destruct (select_first _ _) as [[found c]|]; simpl; [|done].
  by destruct (querySelector is_suggestions_container found).
Qed.

Lemma handleSuggestionClick_nullish now s messageId w :
  nullish s = true →
  ∃ e, handleSuggestionClick now s messageId w = (Throw e, w).
Proof. intros Hs. unfold handleSuggestionClick. rewrite Hs. by eexists. Qed.

(** A click does what its [addMessage] does, and then only adds to the
    timers and to the dispatched events. *)
Lemma handleSuggestionClick_after now s messageId w :
  nullish s = false →
  ∃ extra events,
    after (handleSuggestionClick now s messageId) w =
    set_dispatched events (set_timers (timers w ++ extra) (clicked now s w)) ∧
    Forall detaches extra ∧ length extra ≤ 1.
Proof.
  intros Hs. unfold handleSuggestionClick, dispatchEvent, clicked. rewrite Hs. run.
  set (w0 := set_allocated (S (allocated w)) w).
  pose proof (addMessage_frame now (Some (clicked_message now (allocated w) s)) w0)
    as (_ & _ & Htimers & _).
  unfold after in Htimers.
  destruct (addMessage now (Some (clicked_message now (allocated w) s)) w0)
    as [[[]|e] w1]; simpl in *.
  - destruct (hideSuggestions_after messageId w1) as (extra & Hh & Hextra & Hlen).
    unfold after in Hh. rewrite Htimers in Hh.
    destruct (hideSuggestions messageId w1) as [[[]|e] w2]; simpl in *; subst w2.
    + by exists extra, (dispatched w1 ++
                        [CustomEvent "suggestionClick" s messageId (suggestionText s)]).
    + exists extra, (dispatched w1). split; [|done]. by destruct w1.
  - exists [], (dispatched w1). rewrite app_nil_r, <- Htimers.
    split; [by destruct w1|]. split; [constructor | simpl; lia].
Qed.

Lemma detach_node_after node w :
  after (detach_node node) w =
  match node with
  | Some n => set_container (default (container w) (detach_first (has_serial n) (container w))) w
  | None => w
  end.
Proof.
  unfold detach_node. run. destruct node as [n|]; [|done].
  destruct (detach_first _ _); [done | by destruct w].
Qed.

Lemma runTimer_after now k w :
  after (runTimer now k) w =
  match timers w !! k with
  | Some (_, AddMessageLater message) =>
    after (addMessage now message) (set_timers (delete k (timers w)) w)
  | Some (_, DetachLater node) =>
    after (detach_node node) (set_timers (delete k (timers w)) w)
  | None => w
  end.
Proof.
  unfold runTimer. run. destruct (timers w !! k) as [[delay [message|node]]|]; done.
Qed.

Lemma loadMessages_after messages w :
  after (loadMessages messages) w =
  match messages with
  | None => set_console (console w ++ ["Messages must be an array"]) w
  | Some items =>
    set_timers (timers w ++ imap (λ index message, (index * 100, AddMessageLater message)) items)
      (after clearMessages w)
  end.
Proof. by destruct messages. Qed.
End methods_rest.

(** ** One call *)

#[local] Arguments after : simpl never.
#[local] Arguments updateMessage : simpl never.
#[local] Arguments loadMessages : simpl never.
#[local] Arguments handleSuggestionClick : simpl never.
#[local] Arguments runTimer : simpl never.
#[local] Arguments getMessages : simpl never.
#[local] Arguments showTyping : simpl never.
#[local] Arguments hideTyping : simpl never.
#[local] Arguments detach_node : simpl never.

Lemma delete_beyond {A} (l : list A) k : l !! k = None → delete k l = l.
Proof.
  revert k. induction l as [|a l IH]; intros [|k]; simpl; try done.
  intros Hk. f_equal. by apply IH.
Qed.

Section one_call.
Context `{Host}.

Lemma clicked_frame now s w :
  messages (clicked now s w) = messages w ∧ isTyping (clicked now s w) = isTyping w ∧
  timers (clicked now s w) = timers w ∧ dispatched (clicked now s w) = dispatched w ∧
  count_matches is_typing_indicator (container (clicked now s w)) =
    count_matches is_typing_indicator (container w) ∧
  (well_formed w → well_formed (clicked now s w)).
Proof.
  apply (addMessage_frame now (Some (clicked_message now (allocated w) s))
           (set_allocated (S (allocated w)) w)).
Qed.

Lemma message_list_clicked now s w :
  message_list (clicked now s w) =
  message_list w ++ appended now (S (allocated w)) (Some (clicked_message now (allocated w) s)).
Proof.
  apply (message_list_addMessage now (Some (clicked_message now (allocated w) s))
           (set_allocated (S (allocated w)) w)).
Qed.

Lemma call_well_formed now op w :
  well_formed w → well_formed (after (call now op) w).
Proof.
  intros Hwf. destruct op as [message|messageId updates|[items|]|s messageId| | | | |k]; simpl.
  - by apply addMessage_frame.
  - destruct (findIndex (has_id messageId) (message_list w)) as [i|] eqn:Hi.
    + destruct (findIndex_Some _ _ _ Hi) as (old & Hold & _).
      by apply (updateMessage_found messageId updates w i old).
    + unfold after. rewrite updateMessage_missing by done. by destruct (converts messageId).
  - rewrite (loadMessages_after (Some items) w). apply (well_formed_clearMessages w).
  - by rewrite (loadMessages_after None w).
  - destruct (nullish s) eqn:Hs.
    + destruct (handleSuggestionClick_nullish now s messageId w Hs) as [e He].
      unfold after. by rewrite He.
    + destruct (handleSuggestionClick_after now s messageId w Hs)
        as (extra & events & -> & _).
      by apply clicked_frame.
  - apply well_formed_clearMessages.
  - unfold after. rewrite ?showTyping_after. simpl. by destruct (isTyping w).
  - unfold after. rewrite ?hideTyping_after. simpl. by destruct (detach_first _ _).
  - apply (well_formed_getMessages w Hwf).
  - rewrite runTimer_after. destruct (timers w !! k) as [[delay [message|node]]|]; [| |done].
    + by apply addMessage_frame.
    + rewrite detach_node_after. by destruct node.
Qed.

Lemma call_message_list now op w :
  well_formed w → message_list (after (call now op) w) = next_list now op w.
Proof.
  intros Hwf. destruct op as [message|messageId updates|[items|]|s messageId| | | | |k]; simpl.
  - apply message_list_addMessage.
  - destruct (findIndex (has_id messageId) (message_list w)) as [i|] eqn:Hi.
    + destruct (findIndex_Some _ _ _ Hi) as (old & Hold & _). rewrite Hold.
      by apply (updateMessage_found messageId updates w i old).
    + unfold after. rewrite updateMessage_missing by done. by destruct (converts messageId).
  - rewrite (loadMessages_after (Some items) w). apply (message_list_clearMessages w).
  - by rewrite (loadMessages_after None w).
  - destruct (nullish s) eqn:Hs.
    + destruct (handleSuggestionClick_nullish now s messageId w Hs) as [e He].
      unfold after. by rewrite He.
    + destruct (handleSuggestionClick_after now s messageId w Hs)
        as (extra & events & -> & _).
      apply message_list_clicked.
  - apply message_list_clearMessages.
  - unfold after. rewrite ?showTyping_after. simpl. by destruct (isTyping w).
  - unfold after. rewrite ?hideTyping_after. simpl. by destruct (detach_first _ _).
  - apply (message_list_getMessages w Hwf).
  - rewrite runTimer_after. destruct (timers w !! k) as [[delay [message|node]]|]; [| |done].
    + apply (message_list_addMessage now message (set_timers (delete k (timers w)) w)).
    + rewrite detach_node_after. by destruct node.
Qed.

(** The timer queue a call leaves behind: [loadMessages] adds its
    callbacks, a click adds at most the one that detaches chips, a timer
    that fires leaves the queue. *)
Lemma call_timers now op w :
  let w' := after (call now op) w in
  match op with
  | LoadMessages (Some items) =>
    timers w' = timers w ++ imap (λ index message, (index * 100, AddMessageLater message)) items
  | HandleSuggestionClick _ _ =>
    ∃ extra, timers w' = timers w ++ extra ∧ Forall detaches extra ∧ length extra ≤ 1
  | RunTimer k => timers w' = delete k (timers w)
  | _ => timers w' = timers w
  end.
Proof.
  destruct op as [message|messageId updates|[items|]|s messageId| | | | |k]; simpl.
  - by apply addMessage_frame.
  - destruct (findIndex (has_id messageId) (message_list w)) as [i|] eqn:Hi.
    + destruct (findIndex_Some _ _ _ Hi) as (old & Hold & _).
      by apply (updateMessage_found messageId updates w i old).
    + unfold after. rewrite updateMessage_missing by done. by destruct (converts messageId).
  - done.
  - done.
  - destruct (nullish s) eqn:Hs.
    + destruct (handleSuggestionClick_nullish now s messageId w Hs) as [e He].
      unfold after. rewrite He. exists []. rewrite app_nil_r.
      split; [done|]. split; [constructor | simpl; lia].
    + destruct (handleSuggestionClick_after now s messageId w Hs)
        as (extra & events & -> & Hextra & Hlen).
      by exists extra.
  - done.
  - unfold after. rewrite ?showTyping_after. simpl. by destruct (isTyping w).
  - unfold after. rewrite ?hideTyping_after. simpl. by destruct (detach_first _ _).
  - done.
  - rewrite runTimer_after.
    destruct (timers w !! k) as [[delay [message|node]]|] eqn:Hk.
    + by apply (addMessage_frame now message (set_timers (delete k (timers w)) w)).
    + rewrite detach_node_after. by destruct node.
    + symmetry. by apply delete_beyond.
Qed.

(** What holds of every pending callback holds after a call, if it holds
    of the callbacks that detach chips and of those the call adds for
    [loadMessages]. *)
Lemma call_timers_Forall (P : nat * task → Prop) now op w :
  (∀ t, detaches t → P t) →
  (∀ items, op = LoadMessages (Some items) →
            Forall (λ message, ∀ delay, P (delay, AddMessageLater message)) items) →
  Forall P (timers w) → Forall P (timers (after (call now op) w)).
Proof.
  intros Hdetach Hload Hw. pose proof (call_timers now op w) as Ht.
  destruct op as [message|messageId updates|[items|]|s messageId| | | | |k];
    simpl in Ht |- *; try done; try (by rewrite Ht).
  - clear Ht. apply Forall_app. split; [done|].
    specialize (Hload items eq_refl). apply Forall_forall. intros [delay callback] Hin.
    apply elem_of_lookup_imap in Hin as (index & message & Heq & Hm).
    injection Heq as -> ->. eapply Forall_lookup_1 in Hload; eauto.
  - destruct Ht as (extra & -> & Hextra & _). apply Forall_app. split; [done|].
    eapply Forall_impl; [exact Hextra | exact Hdetach].
  - rewrite Ht. by apply Forall_delete.
Qed.

Lemma call_allocated now op w : allocated w ≤ allocated (after (call now op) w).
Proof.
  destruct op as [message|messageId updates|[items|]|s messageId| | | | |k]; simpl.
  - rewrite allocated_addMessage. lia.
  - destruct (findIndex (has_id messageId) (message_list w)) as [i|] eqn:Hi.
    + destruct (findIndex_Some _ _ _ Hi) as (old & Hold & _).
      unfold after. rewrite (updateMessage_found_exact _ _ _ _ _ Hi Hold).
      destruct (select_message_element _ _); [|done].
      destruct (messageElement _ _); simpl; lia.
    + unfold after. rewrite updateMessage_missing by done. by destruct (converts messageId).
  - done.
  - done.
  - destruct (nullish s) eqn:Hs.
    + destruct (handleSuggestionClick_nullish now s messageId w Hs) as [e He].
      unfold after. by rewrite He.
    + destruct (handleSuggestionClick_after now s messageId w Hs)
        as (extra & events & -> & _).
      simpl. unfold clicked. rewrite allocated_addMessage. simpl. lia.
  - done.
  - unfold after. rewrite ?showTyping_after. simpl. by destruct (isTyping w).
  - unfold after. rewrite ?hideTyping_after. simpl. by destruct (detach_first _ _).
  - done.
  - rewrite runTimer_after. destruct (timers w !! k) as [[delay [message|node]]|]; [| |done].
    + rewrite allocated_addMessage. simpl. lia.
    + rewrite detach_node_after. by destruct node.
Qed.
End one_call.

Section typing_indicator.
Context `{Host}.

Lemma call_typing_ok now op w : typing_ok w → typing_ok (after (call now op) w).
Proof.
  unfold typing_ok, indicators. intros [Hle Hoff].
  destruct op as [message|messageId updates|[items|]|s messageId| | | | |k]; unfold call.
  - destruct (addMessage_frame now message w) as (_ & -> & _ & _ & -> & _). done.
  - destruct (findIndex (has_id messageId) (message_list w)) as [i|] eqn:Hi.
    + destruct (findIndex_Some _ _ _ Hi) as (old & Hold & _).
      destruct (updateMessage_found messageId updates w i old Hi Hold)
        as (_ & _ & -> & _ & _ & _ & Hc & _).
      split; [lia|]. intros Hf. specialize (Hoff Hf). lia.
    + unfold after. rewrite updateMessage_missing by done. by destruct (converts messageId).
  - rewrite (loadMessages_after (Some items) w). unfold after.
    rewrite clearMessages_after. simpl. rewrite count_set_childNodes_nil. lia.
  - by rewrite (loadMessages_after None w).
  - destruct (nullish s) eqn:Hs.
    + destruct (handleSuggestionClick_nullish now s messageId w Hs) as [e He].
      unfold after. by rewrite He.
    + destruct (handleSuggestionClick_after now s messageId w Hs)
        as (extra & events & -> & _). simpl.
      destruct (clicked_frame now s w) as (_ & -> & _ & _ & -> & _). done.
  - unfold after. rewrite clearMessages_after. simpl.
    rewrite count_set_childNodes_nil. lia.
  - unfold after. rewrite ?showTyping_after. simpl.
    destruct (isTyping w) eqn:Ht; simpl; [split; [done | congruence]|].
    rewrite count_appendChild.
    destruct typingElement_count as [-> ->]. rewrite Hoff by done. split; [lia|done].
  - unfold after. rewrite ?hideTyping_after. simpl.
    destruct (detach_first is_typing_indicator (container w)) as [c|] eqn:Hd; simpl.
    + apply detach_first_count_lt in Hd; [|apply is_typing_indicator_shallow]. lia.
    + apply detach_first_None in Hd. lia.
  - unfold after, mbind, M_bind. rewrite getMessages_after. done.
  - rewrite runTimer_after. destruct (timers w !! k) as [[delay [message|node]]|]; [| |done].
    + destruct (addMessage_frame now message (set_timers (delete k (timers w)) w))
        as (_ & -> & _ & _ & -> & _). done.
    + rewrite detach_node_after. destruct node as [n|]; [|done]. simpl.
      destruct (detach_first (has_serial n) (container w)) as [c|] eqn:Hd; [|done]. simpl.
      apply (detach_first_count_le _ is_typing_indicator) in Hd;
        [|apply is_typing_indicator_shallow].
      split; [lia|]. intros Hf. specialize (Hoff Hf). lia.
Qed.
End typing_indicator.

(** ** Scripts *)

Section scripts.
Context `{Host}.

Lemma exec_cons step script w :
  exec (step :: script) w = exec script (after (call step.1 step.2) w).
Proof. done. Qed.

Lemma exec_app script script' w : exec (script ++ script') w = exec script' (exec script w).
Proof. apply foldl_app. Qed.

Lemma exec_invariant (P : world → Prop) :
  (∀ now op w, P w → P (after (call now op) w)) →
  ∀ script w, P w → P (exec script w).
Proof.
  intros Hstep script. induction script as [|[now op] script IH]; intros w Hw; [done|].
  rewrite exec_cons. apply IH, Hstep, Hw.
Qed.

(** An invariant of the calls that pass a test, along a script whose calls
    all pass it. *)
Lemma exec_invariant_when (P : world → Prop) (allowed : operation → bool) :
  (∀ now op w, allowed op = true → P w → P (after (call now op) w)) →
  ∀ script w, forallb (λ step, allowed step.2) script = true → P w → P (exec script w).
Proof.
  intros Hstep script. induction script as [|[now op] script IH]; intros w Hs Hw; [done|].
  simpl in Hs. apply andb_true_iff in Hs as [Hop Hrest].
  rewrite exec_cons. apply IH; [done|]. by apply Hstep.
Qed.

Lemma exec_well_formed script : well_formed (exec script new_ChatRenderer).
Proof.
  apply exec_invariant; [apply call_well_formed|].
  unfold well_formed, new_ChatRenderer. simpl. set_solver.
Qed.

Lemma exec_typing_ok script : typing_ok (exec script new_ChatRenderer).
Proof.
  apply exec_invariant; [apply call_typing_ok|].
  unfold typing_ok, indicators. simpl. split; [|done].
  unfold count_matches. simpl. lia.
Qed.
End scripts.

(** * The claims *)

Section claims.
Context `{Host}.

(** C1.  For every renderer state and every message with a truthy [text],
    [addMessage] appends exactly one record, at the end of the in-memory
    list: the list grows by one, the new last record is the one built
    from the message, and every record stored before is still at its
    index, unchanged.  Whatever the argument, a call of [addMessage]
    leaves the old list as a prefix and adds at most one record after
    it.  ([allocated w] is the number of the [Date] that the record gets
    for timestamp when the message has none.) *)
Theorem addMessage_appends_at_end (now : Z) (message : object) (w : world) :
  truthy (get "text" message) = true →
  let w' := after (addMessage now (Some message)) w in
  message_list w' = message_list w ++ [new_record now (allocated w) message] ∧
  length (message_list w') = S (length (message_list w)) ∧
  (∀ i record, message_list w !! i = Some record → message_list w' !! i = Some record) ∧
  (∀ now' argument, ∃ tail,
     message_list (after (addMessage now' argument) w) = message_list w ++ tail ∧
     length tail ≤ 1).
Proof.
  intros Htext w'. unfold w'. rewrite message_list_addMessage. simpl. rewrite Htext.
  repeat split.
  - rewrite length_app. simpl. lia.
  - intros i record Hi. by apply lookup_app_l_Some.
  - intros now' argument. exists (appended now' (allocated w) argument).
    split; [apply message_list_addMessage|].
    unfold appended.
    destruct argument as [m|]; [destruct (truthy (get "text" m))|]; simpl; lia.
Qed.

(** C9.  [addMessage] without a message object, or with one whose [text]
    is falsy (the empty string included), reports an error on the console
    and returns; the in-memory list, the [isTyping] flag, the DOM under
    the container and everything else in the world are as before the
    call. *)
Theorem addMessage_invalid_leaves_state (now : Z) (message : option object) (w : world) :
  message = None ∨ (∃ m, message = Some m ∧ truthy (get "text" m) = false) →
  let w' := after (addMessage now message) w in
  (addMessage now message w).1 = Normal tt ∧
  console w' = console w ++ ["Invalid message object"] ∧
  message_list w' = message_list w ∧
  isTyping w' = isTyping w ∧
  container w' = container w ∧
  heap w' = heap w ∧ messages w' = messages w ∧
  timers w' = timers w ∧ dispatched w' = dispatched w ∧ allocated w' = allocated w.
Proof.
  intros Hbad. assert (valid_message message = false) as Hv.
  { destruct Hbad as [->|(m & -> & Hm)]; [done | exact Hm]. }
  unfold after. by rewrite addMessage_invalid.
Qed.

(** C5.  [updateMessage messageId updates] changes the list in place, by
    id.  If some stored record has an id equal ([===]) to [messageId],
    then at the first such index the record is replaced by the old record
    merged with [updates] (the fields of [updates] win), the list keeps
    its length, and every other index holds what it held.  If no stored
    record has that id, the list is unchanged. *)
Theorem updateMessage_in_place (messageId : value) (updates : object) (w : world) :
  let w' := after (updateMessage messageId updates) w in
  ((∃ record, record ∈ message_list w ∧ has_id messageId record = true) →
   ∃ i old,
     message_list w !! i = Some old ∧ has_id messageId old = true ∧
     (∀ j earlier, j < i → message_list w !! j = Some earlier →
                   has_id messageId earlier = false) ∧
     message_list w' = <[i := spread old updates]> (message_list w) ∧
     message_list w' !! i = Some (spread old updates) ∧
     (∀ k v, updates !! k = Some v → spread old updates !! k = Some v) ∧
     (∀ k, updates !! k = None → spread old updates !! k = old !! k) ∧
     length (message_list w') = length (message_list w) ∧
     (∀ j, j ≠ i → message_list w' !! j = message_list w !! j)) ∧
  ((∀ record, record ∈ message_list w → has_id messageId record = false) →
   message_list w' = message_list w).
Proof.
  intros w'. split.
  - intros (record & Hin & Hid).
    destruct (findIndex (has_id messageId) (message_list w)) as [i|] eqn:Hi.
    2:{ rewrite findIndex_None in Hi. rewrite (Hi _ Hin) in Hid. done. }
    destruct (findIndex_Some _ _ _ Hi) as (old & Hold & Hp & Hfirst).
    destruct (updateMessage_found messageId updates w i old Hi Hold) as (Hlist & _).
    exists i, old. unfold w'. rewrite Hlist.
    split_and!; try done.
    + apply list_lookup_insert_eq. by eapply lookup_lt_Some.
    + intros k v Hk. unfold spread. by apply lookup_union_Some_l.
    + intros k Hk. unfold spread. by apply lookup_union_r.
    + apply length_insert.
    + intros j Hj. by apply list_lookup_insert_ne.
  - intros Hnone. apply findIndex_None in Hnone.
    unfold w', after. rewrite updateMessage_missing by done. by destruct (converts messageId).
Qed.

(** C10.  [getMessages] only reads the renderer: it returns a new array
    that holds the stored records in order, at a location that was not in
    use and is not the renderer's own array, and leaves every field of
    the renderer and every other array as they were.  Pushing to the
    returned array, popping from it, or replacing its contents in any
    other way leaves the renderer's list unchanged. *)
Theorem getMessages_fresh_copy (w : world) :
  well_formed w →
  ∃ copy w',
    getMessages w = (Normal copy, w') ∧
    (copy ∉ dom (heap w)) ∧ copy ≠ messages w ∧
    array_at copy w' = message_list w ∧
    messages w' = messages w ∧ message_list w' = message_list w ∧
    container w' = container w ∧ isTyping w' = isTyping w ∧
    timers w' = timers w ∧ console w' = console w ∧ dispatched w' = dispatched w ∧
    allocated w' = allocated w ∧
    (∀ l, l ∈ dom (heap w) → array_at l w' = array_at l w) ∧
    (∀ x, message_list (after (array_push copy x) w') = message_list w) ∧
    message_list (after (array_pop copy) w') = message_list w ∧
    (∀ items, message_list (set_heap (<[copy := items]> (heap w')) w') = message_list w).
Proof.
  intros Hwf. eexists _, _. split; [apply getMessages_after|].
  pose proof (fresh_not_messages w Hwf) as Hne.
  pose proof (is_fresh (dom (heap w))) as Hfresh.
  assert (∀ items items',
            message_list
              (set_heap (<[fresh (dom (heap w)) := items]>
                           (<[fresh (dom (heap w)) := items']> (heap w))) w)
            = message_list w) as Hother.
  { intros items items'. rewrite insert_insert_eq. by apply message_list_other_array. }
  split_and!; try done.
  - unfold array_at. simpl. by rewrite lookup_insert_eq.
  - by apply message_list_other_array.
  - intros l Hl. unfold array_at. simpl. rewrite lookup_insert_ne; [done|].
    intros <-. done.
  - intros x. apply Hother.
  - apply Hother.
  - intros items. apply Hother.
Qed.
End claims.

(** ** Ids and senders along a script *)

Lemma get_new_record_id now date m :
  get "id" (new_record now date m) =
  match m !! "id" with Some v => v | None => VString (pretty now) end.
Proof.
  unfold new_record, spread, get.
  destruct (m !! "id") as [v|] eqn:Hid.
  - by erewrite lookup_union_Some_l.
  - rewrite lookup_union_r by done. simplify_map_eq. by rewrite ?Hid.
Qed.

Lemma get_new_record_sender now date m :
  get "sender" (new_record now date m) =
  match m !! "sender" with Some v => v | None => VString "user" end.
Proof.
  unfold new_record, spread, get.
  destruct (m !! "sender") as [v|] eqn:Hs.
  - by erewrite lookup_union_Some_l.
  - rewrite lookup_union_r by done. simplify_map_eq. by rewrite ?Hs.
Qed.

Lemma get_new_record_text now date m :
  get "text" (new_record now date m) = get "text" m.
Proof.
  unfold new_record, spread, get.
  destruct (m !! "text") as [v|] eqn:Ht.
  - by erewrite lookup_union_Some_l.
  - rewrite lookup_union_r by done. simplify_map_eq. by rewrite ?Ht.
Qed.

Lemma get_spread k old updates :
  get k (spread old updates) =
  match updates !! k with Some v => v | None => get k old end.
Proof.
  unfold spread, get.
  destruct (updates !! k) as [v|] eqn:Hk.
  - by erewrite lookup_union_Some_l.
  - by rewrite lookup_union_r.
Qed.

Lemma get_new_record_other k now date m :
  k ≠ "id" → k ≠ "text" → k ≠ "sender" → k ≠ "timestamp" →
  get k (new_record now date m) = get k m.
Proof.
  intros H1 H2 H3 H4. unfold new_record, spread, get.
  destruct (m !! k) as [v|] eqn:Hk.
  - by erewrite lookup_union_Some_l.
  - rewrite lookup_union_r by done. by simplify_map_eq.
Qed.

Lemma ids_app_appended now next message (l : list object) :
  get "id" <$> (l ++ appended now next message) =
  (get "id" <$> l) ++ option_list (get "id" <$> head (appended now next message)).
Proof.
  rewrite fmap_app. f_equal. unfold appended.
  destruct message as [m|]; [destruct (truthy _)|]; done.
Qed.

Lemma NoDup_snoc_option (l : list value) (o : option value) :
  NoDup l → (∀ x, o = Some x → x ∉ l) → NoDup (l ++ option_list o).
Proof.
  intros Hl Ho. destruct o as [x|]; simpl; [|by rewrite app_nil_r].
  apply NoDup_app. split_and!; [done | | apply NoDup_singleton].
  intros y Hy Hyx%list_elem_of_singleton. subst y. by apply (Ho x).
Qed.

Section disciplined_scripts.
Context `{Host}.

(** A call that keeps ids apart keeps them pairwise distinct. *)
Lemma call_NoDup_ids now op w :
  well_formed w → NoDup (ids w) → keeps_ids_apart now op w = true →
  NoDup (ids (after (call now op) w)).
Proof.
  intros Hwf Hnd Hop. unfold ids in *. rewrite call_message_list by done.
  assert (∀ next message,
            match get "id" <$> head (appended now next message) with
            | Some id => bool_decide (id ∉ get "id" <$> message_list w)
            | None => true
            end = true →
            NoDup (get "id" <$> message_list w ++ appended now next message)) as Happ.
  { intros next message Hnew. rewrite ids_app_appended. apply NoDup_snoc_option; [done|].
    intros x Hx. rewrite Hx in Hnew. by apply bool_decide_eq_true in Hnew. }
  destruct op as [message|messageId updates|[items|]|s messageId| | | | |k];
    unfold next_list, keeps_ids_apart, appended_id in *;
    try done; try apply NoDup_nil_2.
  - by apply Happ.
  - apply bool_decide_eq_true in Hop.
    destruct (findIndex _ _) as [i|]; [|done].
    destruct (message_list w !! i) as [old|] eqn:Hold; [|done].
    rewrite list_fmap_insert, get_spread, Hop.
    rewrite list_insert_id; [done|]. by rewrite list_lookup_fmap, Hold.
  - destruct (nullish s); [done|]. by apply Happ.
  - destruct (timers w !! k) as [[delay [message|node]]|]; [|done..]. by apply Happ.
Qed.

Lemma exec_NoDup_ids script w :
  well_formed w → NoDup (ids w) → id_discipline script w = true →
  NoDup (ids (exec script w)).
Proof.
  revert w. induction script as [|[now op] script IH]; intros w Hwf Hnd Hd; [done|].
  simpl in Hd. apply andb_true_iff in Hd as [Hop Hrest].
  rewrite exec_cons. apply IH; [by apply call_well_formed | | done].
  by apply call_NoDup_ids.
Qed.

Lemma appended_sender now next message :
  argument_sender_known message = true →
  Forall sender_is_user_or_ai (appended now next message).
Proof.
  unfold appended. destruct message as [m|]; [|done]. simpl.
  destruct (truthy _); [|done]. intros Hm. apply Forall_singleton.
  unfold sender_is_user_or_ai. rewrite get_new_record_sender.
  unfold sender_known in Hm. destruct (m !! "sender") as [v|]; [|by left].
  by apply bool_decide_eq_true in Hm.
Qed.

Lemma clicked_message_sender_known now date s :
  argument_sender_known (Some (clicked_message now date s)) = true.
Proof. done. Qed.

Lemma call_senders_ok now op w :
  supplies_known_sender op = true → senders_ok w → senders_ok (after (call now op) w).
Proof.
  intros Hop (Hlist & Htimers & Hwf). unfold senders_ok.
  rewrite call_message_list by done.
  split_and!; [| |by apply call_well_formed].
  - destruct op as [message|messageId updates|[items|]|s messageId| | | | |k];
      unfold next_list, supplies_known_sender in *; try done.
    + apply Forall_app. split; [done|]. by apply appended_sender.
    + destruct (findIndex _ _) as [i|]; [|done].
      destruct (message_list w !! i) as [old|] eqn:Hold; [|done].
      apply Forall_insert; [done|].
      unfold sender_is_user_or_ai. rewrite get_spread.
      unfold sender_known in Hop. destruct (updates !! "sender") as [v|].
      * by apply bool_decide_eq_true in Hop.
      * eapply Forall_lookup_1 in Hlist; eauto.
    + destruct (nullish s); [done|]. apply Forall_app. split; [done|].
      apply appended_sender, clicked_message_sender_known.
    + destruct (timers w !! k) as [[delay [message|node]]|] eqn:Hk; [|done..].
      apply Forall_app. split; [done|]. apply appended_sender.
      eapply Forall_lookup_1 in Htimers; eauto. done.
  - apply call_timers_Forall; [by intros [delay callback] [node ->] | | done].
    intros items ->. simpl in Hop. apply Forall_forall. intros message Hin delay. simpl.
    rewrite forallb_forall in Hop. apply Hop. by apply list_elem_of_In.
Qed.

Lemma exec_senders_ok script w :
  forallb (λ step, supplies_known_sender step.2) script = true →
  senders_ok w → senders_ok (exec script w).
Proof.
  revert w. induction script as [|[now op] script IH]; intros w Hs Hw; [done|].
  simpl in Hs. apply andb_true_iff in Hs as [Hop Hrest].
  rewrite exec_cons. apply IH; [done|]. by apply call_senders_ok.
Qed.
End disciplined_scripts.

Section claims_on_scripts.
Context `{Host}.

(** C2, as amended.  Starting from the empty renderer, the ids in the
    in-memory list are pairwise distinct after every sequence of calls
    that keeps ids apart: each record that gets appended (by [addMessage],
    by a timer of [loadMessages], by a suggestion click) has an id that
    no stored record has, and no [updateMessage] passes an [id] property
    in its updates. *)
Theorem ids_distinct_when_kept_apart (script : list (Z * operation)) :
  id_discipline script new_ChatRenderer = true →
  NoDup (ids (exec script new_ChatRenderer)).
Proof.
  apply exec_NoDup_ids.
  - apply (exec_well_formed []).
  - apply NoDup_nil_2.
Qed.

(** C3, as amended.  Starting from the empty renderer, every stored
    record has sender ["user"] or ["ai"] after every sequence of calls in
    which each message object given to [addMessage] or [loadMessages] and
    each updates object given to [updateMessage] either has no [sender]
    property or has one of these two. *)
Theorem senders_user_or_ai_when_supplied_so (script : list (Z * operation)) :
  forallb (λ step, supplies_known_sender step.2) script = true →
  Forall sender_is_user_or_ai (message_list (exec script new_ChatRenderer)).
Proof.
  intros Hs. apply (exec_senders_ok script new_ChatRenderer Hs).
  split_and!; [done | done | apply (exec_well_formed [])].
Qed.

(** C4, as amended.  No single call removes an individual message.  For
    every call other than [clearMessages] and [loadMessages] the list
    after the call is at least as long as before, and every index that
    held a record holds it still, unchanged or, under [updateMessage],
    merged with the updates; every id present before is present after
    whenever the updates of [updateMessage] carry no [id] property.  The
    list gets shorter only by becoming empty, in [clearMessages] or in
    [loadMessages] on an array. *)
Theorem no_single_removal (now : Z) (op : operation) (w : world) :
  well_formed w →
  let w' := after (call now op) w in
  (op ≠ ClearMessages → (∀ items, op ≠ LoadMessages items) →
   length (message_list w) ≤ length (message_list w') ∧
   (∀ i record, message_list w !! i = Some record →
      message_list w' !! i = Some record ∨
      ∃ messageId updates,
        op = UpdateMessage messageId updates ∧
        message_list w' !! i = Some (spread record updates)) ∧
   ((∀ messageId updates, op = UpdateMessage messageId updates → updates !! "id" = None) →
    ∀ id, id ∈ ids w → id ∈ ids w')) ∧
  (length (message_list w') < length (message_list w) →
   message_list w' = [] ∧
   (op = ClearMessages ∨ ∃ items, op = LoadMessages (Some items))).
Proof.
  intros Hwf w'. unfold w', ids. rewrite call_message_list by done.
  assert (∀ tail : list object,
            length (message_list w) ≤ length (message_list w ++ tail) ∧
            (∀ i record, message_list w !! i = Some record →
               (message_list w ++ tail) !! i = Some record ∨
               ∃ messageId updates,
                 op = UpdateMessage messageId updates ∧
                 (message_list w ++ tail) !! i = Some (spread record updates)) ∧
            ((∀ messageId updates,
                op = UpdateMessage messageId updates → updates !! "id" = None) →
             ∀ id, id ∈ get "id" <$> message_list w →
                   id ∈ get "id" <$> (message_list w ++ tail))) as Happ.
  { intros tail. split_and!.
    - rewrite length_app. lia.
    - intros i record Hi. left. by apply lookup_app_l_Some.
    - intros _ id Hid. rewrite fmap_app. apply elem_of_app. by left. }
  assert (∀ tail : list object,
            length (message_list w ++ tail) < length (message_list w) →
            message_list w ++ tail = [] ∧
            (op = ClearMessages ∨ ∃ items, op = LoadMessages (Some items))) as Hgrow.
  { intros tail. rewrite length_app. lia. }
  pose proof (Happ []) as Hsame. pose proof (Hgrow []) as Hsame'.
  rewrite app_nil_r in Hsame, Hsame'.
  destruct op as [message|messageId updates|[items|]|s messageId| | | | |k];
    unfold next_list; (split; [intros Hnc Hnl|]).
  - apply Happ.
  - apply Hgrow.
  - destruct (findIndex _ _) as [i|]; [|done].
    destruct (message_list w !! i) as [old|] eqn:Hold; [|done].
    split_and!.
    + by rewrite length_insert.
    + intros j record Hj. destruct (decide (j = i)) as [->|Hne].
      * right. exists messageId, updates. split; [done|].
        rewrite Hold in Hj. injection Hj as <-.
        apply list_lookup_insert_eq. by eapply lookup_lt_Some.
      * left. by rewrite list_lookup_insert_ne.
    + intros Hno id Hid. rewrite list_fmap_insert, get_spread.
      rewrite (Hno messageId updates eq_refl).
      rewrite list_insert_id; [done|]. by rewrite list_lookup_fmap, Hold.
  - destruct (findIndex _ _) as [i|]; [|done].
    destruct (message_list w !! i) as [old|] eqn:Hold; [|done].
    rewrite length_insert. lia.
  - by destruct (Hnl (Some items)).
  - intros _. split; [done|]. right. by exists items.
  - by destruct (Hnl None).
  - done.
  - destruct (nullish s); [done | apply Happ].
  - destruct (nullish s); [done | apply Hgrow].
  - done.
  - intros _. split; [done|]. by left.
  - done.
  - done.
  - done.
  - done.
  - done.
  - done.
  - destruct (timers w !! k) as [[delay [message|node]]|]; [apply Happ | done..].
  - destruct (timers w !! k) as [[delay [message|node]]|]; [apply Hgrow | done..].
Qed.

(** C6, as amended.  A click on a suggestion whose text is truthy creates
    a message.  For every suggestion, a plain string or an object, and
    every parent message id whose string can stand between the quotes of
    the selector [hideSuggestions] builds, [handleSuggestionClick] returns and
    dispatches one [suggestionClick] event whose detail carries the
    suggestion, the parent message id and the text of the suggestion.
    When that text is truthy it appends exactly one record to the
    in-memory list, with sender ["user"] and that text; when it is falsy
    [addMessage] turns the message down and the list stays as it was. *)
Theorem suggestion_click_creates_message
    (now : Z) (s : suggestion) (messageId : value) (w : world) :
  string_or_object s = true →
  converts messageId = true → selector_safe (ToString messageId) = true →
  let w' := after (handleSuggestionClick now s messageId) w in
  let record := new_record now (S (allocated w)) (clicked_message now (allocated w) s) in
  fst (handleSuggestionClick now s messageId w) = Normal tt ∧
  dispatched w' =
    dispatched w ++ [CustomEvent "suggestionClick" s messageId (suggestionText s)] ∧
  (truthy (suggestionText s) = true →
   message_list w' = message_list w ++ [record] ∧
   get "sender" record = VString "user" ∧
   get "text" record = suggestionText s) ∧
  (truthy (suggestionText s) = false → message_list w' = message_list w).
Proof.
  intros Hs Hconverts Hsafe w' record.
  assert (nullish s = false) as Hnot by by destruct s as [[]|].
  assert (get "text" (clicked_message now (allocated w) s) = suggestionText s) as Hget by done.
  assert (get "sender" record = VString "user") as Hsender.
  { unfold record. by rewrite get_new_record_sender. }
  assert (∀ key, messageElement key record = Normal (messageItem record)) as Hitem.
  { intros key. unfold messageElement, wants_chips, is_ai. rewrite Hsender.
    assert (item_converts record = true) as ->; [|done].
    unfold item_converts, is_user, record.
    rewrite get_new_record_id, get_new_record_sender, get_new_record_text.
    rewrite !get_new_record_other by done. by destruct s as [[]|]. }
  set (w0 := set_allocated (S (allocated w)) w).
  assert (∀ w1, ∃ w2, hideSuggestions messageId w1 = (Normal tt, w2) ∧
                      message_list w2 = message_list w1 ∧ dispatched w2 = dispatched w1)
    as Hhide.
  { intros w1. pose proof (hideSuggestions_returns messageId w1 Hconverts Hsafe) as Hret.
    destruct (hideSuggestions_after messageId w1) as (extra & Hafter & _).
    unfold after in Hafter. destruct (hideSuggestions messageId w1) as [c w2].
    simpl in *. subst c w2. by eexists. }
  unfold w', after, handleSuggestionClick, dispatchEvent. rewrite Hnot.
  unfold mbind, M_bind, allocate, write. fold w0.
  destruct (truthy (suggestionText s)) eqn:Htext.
  - rewrite addMessage_valid by by rewrite Hget.
    change (allocated w0) with (S (allocated w)). fold record. rewrite Hitem.
    destruct (Hhide (set_container (appendChild (messageItem record) (container w0))
                       (stored now (clicked_message now (allocated w) s) w0)))
      as (w2 & -> & Hlist & Hevents).
    cbn [fst snd dispatched set_dispatched]. rewrite Hevents.
    split_and!; try done. intros _. split_and!; try done.
    unfold message_list, array_at in *. cbn [heap messages set_dispatched] in *.
    rewrite Hlist. apply (message_list_stored now _ w0).
  - rewrite addMessage_invalid by (simpl; by rewrite Hget).
    destruct (Hhide (set_console (console w0 ++ ["Invalid message object"]) w0))
      as (w2 & -> & Hlist & Hevents).
    cbn [fst snd dispatched set_dispatched]. rewrite Hevents.
    by split_and!.
Qed.

(** C8.  The typing indicator is a toggle.  [showTyping] with the flag
    set does nothing, so two calls in a row leave what one call leaves;
    [hideTyping] always resets the flag.  In every state the renderer
    reaches from its construction there is at most one typing indicator
    under the container, before and after [showTyping]; [hideTyping]
    leaves none, and a second [hideTyping] changes nothing. *)
Theorem typing_indicator_toggle :
  (∀ w, isTyping w = true → showTyping w = (Normal tt, w)) ∧
  (∀ w, after showTyping (after showTyping w) = after showTyping w) ∧
  (∀ w, isTyping (after hideTyping w) = false) ∧
  (∀ script,
     let w := exec script new_ChatRenderer in
     indicators w ≤ 1 ∧
     indicators (after showTyping w) ≤ 1 ∧
     indicators (after hideTyping w) = 0 ∧
     after hideTyping (after hideTyping w) = after hideTyping w).
Proof.
  split_and!.
  - intros w Ht. by rewrite showTyping_after, Ht.
  - intros w. unfold after. rewrite !showTyping_after. simpl.
    destruct (isTyping w) eqn:Ht; simpl; [by rewrite Ht | done].
  - intros w. unfold after. by rewrite hideTyping_after.
  - intros script w.
    pose proof (exec_typing_ok script) as Hok. fold w in Hok.
    pose proof (call_typing_ok 0%Z ShowTyping w Hok) as [Hshow _].
    pose proof (call_typing_ok 0%Z HideTyping w Hok) as [_ Hhide].
    unfold call in Hshow, Hhide.
    assert (indicators (after hideTyping w) = 0) as Hnone.
    { apply Hhide. unfold after. by rewrite hideTyping_after. }
    split_and!; [apply Hok | done | done |].
    unfold after in *. rewrite (hideTyping_after (hideTyping w).2).
    apply detach_first_None in Hnone. unfold indicators in Hnone.
    rewrite Hnone. rewrite hideTyping_after. simpl. by destruct (detach_first _ _).
Qed.
End claims_on_scripts.

(** ** What the container holds *)

Lemma filter_cons_true {A} (q : A → bool) a l :
  q a = true → filter (λ x, q x) (a :: l) = a :: filter (λ x, q x) l.
Proof. intros Hq. apply filter_cons_True. by rewrite Hq. Qed.

Lemma filter_cons_false {A} (q : A → bool) a l :
  q a = false → filter (λ x, q x) (a :: l) = filter (λ x, q x) l.
Proof. intros Hq. apply filter_cons_False. rewrite Hq. simpl. tauto. Qed.

Lemma filter_delete_found {A} (p q : A → bool) (l : list A) k :
  findIndex p l = Some k → (∀ x, p x = true → q x = true) →
  filter (λ x, q x) (delete k l) =
  delete (length (filter (λ x, q x) (take k l))) (filter (λ x, q x) l).
Proof.
  intros Hk Hpq. revert k Hk. induction l as [|a l IH]; intros k; simpl; [done|].
  destruct (p a) eqn:Pa.
  - intros [= <-]. simpl. by rewrite filter_cons_true by auto.
  - destruct (findIndex p l) as [k'|]; [|done]. intros [= <-]. simpl.
    destruct (q a) eqn:Qa.
    + rewrite !filter_cons_true by done. simpl. f_equal. by apply IH.
    + rewrite !filter_cons_false by done. by apply IH.
Qed.

Lemma filter_delete_other {A} (p q : A → bool) (l : list A) k :
  findIndex p l = Some k → (∀ x, x ∈ l → p x = true → q x = false) →
  filter (λ x, q x) (delete k l) = filter (λ x, q x) l.
Proof.
  intros Hk Hpq. revert k Hk. induction l as [|a l IH]; intros k; simpl; [done|].
  destruct (p a) eqn:Pa.
  - intros [= <-]. simpl. rewrite filter_cons_false; [done|]. apply Hpq; [left|done].
  - destruct (findIndex p l) as [k'|]; [|done]. intros [= <-]. simpl.
    assert (filter (λ x, q x) (delete k' l) = filter (λ x, q x) l) as Hrest.
    { apply IH; [|done]. intros x Hx. apply Hpq. by right. }
    destruct (q a) eqn:Qa.
    + rewrite !filter_cons_true by done. by f_equal.
    + by rewrite !filter_cons_false by done.
Qed.

(** Among the message elements the first that carries the id is the first
    child of the container that carries it. *)
Lemma findIndex_message_elements {A} (p q : A → bool) (l : list A) :
  (∀ x, p x = true → q x = true) →
  findIndex p (filter (λ x, q x) l) =
  (λ k, length (filter (λ x, q x) (take k l))) <$> findIndex p l.
Proof.
  intros Hpq. induction l as [|a l IH]; simpl; [done|].
  destruct (p a) eqn:Pa.
  - rewrite filter_cons_true by auto. simpl. by rewrite Pa.
  - destruct (q a) eqn:Qa.
    + rewrite filter_cons_true by done. simpl. rewrite Pa, IH.
      destruct (findIndex p l) as [k|]; simpl; [|done].
      by rewrite filter_cons_true by done.
    + rewrite filter_cons_false by done. rewrite IH.
      destruct (findIndex p l) as [k|]; simpl; [|done].
      by rewrite filter_cons_false by done.
Qed.

Lemma childNodes_appendChild child parent :
  childNodes (appendChild child parent) = childNodes parent ++ [child].
Proof. by destruct parent. Qed.

Lemma childNodes_set_childNodes kids e : childNodes (set_childNodes kids e) = kids.
Proof. by destruct e. Qed.

(** A test that implies another finds no more than the other. *)
Lemma count_matches_implied p q root :
  (∀ e, p e = true → q e = true) → count_matches q root = 0 → count_matches p root = 0.
Proof.
  intros Hpq. induction root as [t i c a x kids n IH] using element_tree_ind.
  rewrite !count_matches_unfold. simpl.
  induction IH as [|k kids Hk _ IHkids]; simpl; [done|].
  intros Hz. destruct (q k) eqn:Qk; [lia|].
  destruct (p k) eqn:Pk; [apply Hpq in Pk; congruence|].
  rewrite Hk, IHkids by lia. done.
Qed.

(** Among tidy children, [querySelector] by id followed by [remove] takes
    out the first child that carries the id, whole, and nothing else. *)
Lemma detach_message_element s kids :
  Forall tidy kids →
  detach_among (detach_first (has_message_id s)) (has_message_id s) kids =
  match findIndex (has_message_id s) kids with
  | Some k => Some (delete k kids)
  | None => None
  end.
Proof.
  induction 1 as [|e kids He _ IH]; simpl; [done|].
  destruct (has_message_id s e) eqn:Hs; [done|].
  assert (detach_first (has_message_id s) e = None) as ->.
  { apply detach_first_None.
    destruct He as [_ [(_ & _ & Hnone)|(_ & id & Hid & Hother)]].
    - eapply count_matches_implied; [|exact Hnone]. apply has_message_id_is_message_item.
    - apply Hother. intros ->. unfold has_message_id in Hs. rewrite Hid in Hs.
      by rewrite bool_decide_eq_false in Hs. }
  rewrite IH. by destruct (findIndex _ kids).
Qed.

(** Among tidy children, [hideTyping] takes out the first child that is a
    typing indicator, and that child is no message element. *)
Lemma detach_typing_element kids :
  Forall tidy kids →
  detach_among (detach_first is_typing_indicator) is_typing_indicator kids =
  match findIndex is_typing_indicator kids with
  | Some k => Some (delete k kids)
  | None => None
  end.
Proof.
  induction 1 as [|e kids [Hnone _] _ IH]; simpl; [done|].
  destruct (is_typing_indicator e); [done|].
  apply detach_first_None in Hnone. rewrite Hnone, IH. by destruct (findIndex _ kids).
Qed.

Lemma is_typing_indicator_not_message_item kids e :
  Forall tidy kids → e ∈ kids → is_typing_indicator e = true → is_message_item e = false.
Proof.
  intros Hkids He Ht. rewrite Forall_forall in Hkids.
  destruct (Hkids e He) as [_ [(_ & Hm & _)|(Hf & _)]]; [done | congruence].
Qed.

Lemma childNodes_detached_by_id s root :
  Forall tidy (childNodes root) →
  childNodes (default root (detach_first (has_message_id s) root)) =
  match findIndex (has_message_id s) (childNodes root) with
  | Some k => delete k (childNodes root)
  | None => childNodes root
  end.
Proof.
  intros Hkids. rewrite detach_first_unfold, detach_message_element by done.
  destruct (findIndex _ _); [|done]. by destruct root.
Qed.

Lemma childNodes_detached_indicator root :
  Forall tidy (childNodes root) →
  childNodes (default root (detach_first is_typing_indicator root)) =
  match findIndex is_typing_indicator (childNodes root) with
  | Some k => delete k (childNodes root)
  | None => childNodes root
  end.
Proof.
  intros Hkids. rewrite detach_first_unfold, detach_typing_element by done.
  destruct (findIndex _ _); [|done]. by destruct root.
Qed.

Lemma message_elements_detached_by_id s kids :
  filter (λ e, is_message_item e)
    match findIndex (has_message_id s) kids with
    | Some k => delete k kids
    | None => kids
    end =
  match findIndex (has_message_id s) (filter (λ e, is_message_item e) kids) with
  | Some j => delete j (filter (λ e, is_message_item e) kids)
  | None => filter (λ e, is_message_item e) kids
  end.
Proof.
  rewrite (findIndex_message_elements (has_message_id s) is_message_item)
    by apply has_message_id_is_message_item.
  destruct (findIndex (has_message_id s) kids) as [k|] eqn:Hk; simpl; [|done].
  apply (filter_delete_found _ _ _ _ Hk), has_message_id_is_message_item.
Qed.

Section container_contents.
Context `{Host}.

Lemma addMessage_children now message w :
  childNodes (container (after (addMessage now message) w)) = childNodes (container w) ∨
  ∃ key record item,
    messageElement key record = Normal item ∧
    childNodes (container (after (addMessage now message) w)) =
    childNodes (container w) ++ [item].
Proof.
  unfold after. destruct (valid_message message) eqn:Hv.
  - destruct message as [m|]; [|done]. simpl in Hv. rewrite addMessage_valid by done.
    destruct (messageElement _ _) as [item|e] eqn:Hitem; [|by left].
    right. eexists _, _, item. split; [done|]. simpl.
    apply childNodes_appendChild.
  - left. by rewrite addMessage_invalid.
Qed.

Lemma addMessage_rendered_children now message w :
  rendered_children (childNodes (container w)) →
  rendered_children (childNodes (container (after (addMessage now message) w))).
Proof.
  intros Hkids.
  destruct (addMessage_children now message w) as [->|(key & record & item & Hitem & ->)];
    [done|].
  apply Forall_app. split; [done|]. apply Forall_singleton.
  right. exists record. right. by exists key.
Qed.

Lemma addMessage_tidy now message w :
  Forall tidy (childNodes (container w)) →
  Forall tidy (childNodes (container (after (addMessage now message) w))).
Proof.
  intros Hkids.
  destruct (addMessage_children now message w) as [->|(key & record & item & Hitem & ->)];
    [done|].
  apply Forall_app. split; [done|]. apply Forall_singleton.
  apply (tidy_shows _ record). right. by exists key.
Qed.

(** Whatever is called, with whatever ids, the children of the container
    stay tidy. *)
Lemma call_tidy now op w :
  Forall tidy (childNodes (container w)) →
  Forall tidy (childNodes (container (after (call now op) w))).
Proof.
  intros Hkids.
  destruct op as [message|messageId updates|[items|]|s messageId| | | | |k]; unfold call.
  - by apply addMessage_tidy.
  - destruct (findIndex (has_id messageId) (message_list w)) as [i|] eqn:Hi.
    + destruct (findIndex_Some _ _ _ Hi) as (old & Hold & _).
      unfold after. rewrite (updateMessage_found_exact _ _ _ _ _ Hi Hold).
      destruct (select_message_element messageId (container w)) as [found|e] eqn:Hfound;
        [|done].
      eapply (select_message_element_children tidy) in Hfound;
        [|intros k k'; apply tidy_pruned | done].
      destruct (messageElement _ _) as [item|e] eqn:Hitem;
        cbn [snd set_container container]; [|done].
      rewrite childNodes_appendChild. apply Forall_app. split; [done|].
      apply Forall_singleton, (tidy_shows _ (spread old updates)). right. by eexists.
    + unfold after. rewrite updateMessage_missing by done. by destruct (converts messageId).
  - rewrite (loadMessages_after (Some items) w). cbn [container set_timers].
    rewrite childNodes_clearMessages. constructor.
  - by rewrite (loadMessages_after None w).
  - destruct (nullish s) eqn:Hs.
    + destruct (handleSuggestionClick_nullish now s messageId w Hs) as [e He].
      unfold after. by rewrite He.
    + destruct (handleSuggestionClick_after now s messageId w Hs)
        as (extra & events & -> & _).
      by apply (addMessage_tidy now _ (set_allocated (S (allocated w)) w)).
  - rewrite childNodes_clearMessages. constructor.
  - unfold after. rewrite showTyping_after. cbn [snd].
    destruct (isTyping w); [done|]. cbn [set_container container].
    rewrite childNodes_appendChild. apply Forall_app. split; [done|].
    apply Forall_singleton, tidy_typingElement.
  - unfold after. rewrite hideTyping_after. simpl.
    destruct (detach_first is_typing_indicator (container w)) as [c|] eqn:Hd; simpl; [|done].
    eapply (detach_first_children tidy); [intros e e'; apply tidy_pruned | done..].
  - unfold after, mbind, M_bind. by rewrite getMessages_after.
  - rewrite runTimer_after. destruct (timers w !! k) as [[delay [message|node]]|]; [| |done].
    + by apply (addMessage_tidy now message (set_timers (delete k (timers w)) w)).
    + rewrite detach_node_after. destruct node as [n|]; [|done]. simpl.
      destruct (detach_first (has_serial n) (container w)) as [c|] eqn:Hd; simpl; [|done].
      eapply (detach_first_children tidy); [intros e e'; apply tidy_pruned | done..].
Qed.

Lemma exec_tidy script :
  Forall tidy (childNodes (container (exec script new_ChatRenderer))).
Proof.
  apply (exec_invariant (λ w, Forall tidy (childNodes (container w)))).
  - apply call_tidy.
  - constructor.
Qed.
End container_contents.

(** ** Detaching a chip container *)

Lemma detach_among_app_miss p l1 l2 :
  Forall (misses p) l1 →
  detach_among (detach_first p) p (l1 ++ l2) =
  (λ rest, l1 ++ rest) <$> detach_among (detach_first p) p l2.
Proof.
  induction 1 as [|e l1 [Hp Hc] _ IH]; simpl.
  - by destruct (detach_among _ _ l2).
  - rewrite Hp. apply detach_first_None in Hc. rewrite Hc, IH.
    by destruct (detach_among _ _ l2).
Qed.

Section chip_container.
Context `{Host}.

Lemma detach_serial_messageItem n record :
  detach_first (has_serial n) (messageItem record) = None.
Proof. apply detach_first_None, messageItem_plain. right. by exists n. Qed.

Lemma detach_serial_chips n key items record :
  detach_first (has_serial n)
    (appendChild (suggestionsContainer key items (get "id" record)) (messageItem record)) =
  if bool_decide (n = key) then Some (messageItem record) else None.
Proof.
  rewrite detach_first_unfold, childNodes_appendChild.
  rewrite detach_among_app_miss.
  2:{ unfold messageItem. rewrite childNodes_appendChild. simpl.
      apply Forall_singleton, messageContent_misses. left. right. by exists n. }
  simpl. unfold has_serial at 1. simpl. case_bool_decide as Hkey.
  - injection Hkey as ->. rewrite bool_decide_eq_true_2 by done. simpl.
    done.
  - rewrite bool_decide_eq_false_2 by congruence.
    assert (detach_first (has_serial n) (suggestionsContainer key items (get "id" record))
            = None) as ->; [|done].
    apply detach_first_None. unfold suggestionsContainer. rewrite count_set_childNodes.
    apply suggestion_buttons_miss. left. right. by exists n.
Qed.

(** The callback of [hideSuggestions] leaves an element that shows a record
    showing it still, without its chips. *)
Lemma shows_detach_serial n e e' record :
  shows e record → detach_first (has_serial n) e = Some e' → e' = messageItem record.
Proof.
  intros [->|[key [->|(ref & items & _ & ->)]%messageElement_cases]];
    rewrite ?detach_serial_messageItem, ?detach_serial_chips; try done.
  case_bool_decide; [by intros [= <-] | done].
Qed.

Lemma shows_messageItem record : shows (messageItem record) record.
Proof. by left. Qed.

Lemma stripped_is_message_item e' e : stripped e' e → is_message_item e' = is_message_item e.
Proof.
  intros [->|[[record He] Hall]]; [done|]. rewrite (Hall _ He).
  by rewrite (shows_is_message_item _ _ He), (shows_is_message_item _ _ (shows_messageItem _)).
Qed.

Lemma stripped_shows e' e record : stripped e' e → shows e record → shows e' record.
Proof. intros [->|[_ Hall]] He; [done|]. rewrite (Hall _ He). by left. Qed.

Lemma stripped_rendered e' e :
  stripped e' e → (e = typingElement ∨ ∃ record, shows e record) →
  e' = typingElement ∨ ∃ record, shows e' record.
Proof.
  intros [->|[[record He] Hall]] Hkind; [done|]. right. exists record.
  rewrite (Hall _ He). by left.
Qed.

Lemma detach_serial_children n kids kids' :
  rendered_children kids →
  detach_among (detach_first (has_serial n)) (has_serial n) kids = Some kids' →
  Forall2 stripped kids' kids.
Proof.
  intros Hkids. revert kids'.
  induction Hkids as [|e kids He Hkids IH]; intros kids'; simpl; [done|].
  assert (has_serial n e = false) as ->.
  { destruct He as [->|[record [->|[key [->|(ref & items & _ & ->)]%messageElement_cases]]]];
      done. }
  destruct (detach_first (has_serial n) e) as [e'|] eqn:Hd.
  - intros [= <-]. constructor; [|by apply Forall2_same_length_lookup_2; [|intros; left; congruence]].
    destruct He as [->|[record He]]; [done|]. right. split; [by exists record|].
    intros record' He'. by eapply shows_detach_serial.
  - destruct (detach_among _ _ kids) as [rest|]; [|done]. intros [= <-].
    constructor; [by left | by apply IH].
Qed.

Lemma Forall2_stripped_filter kids' kids :
  Forall2 stripped kids' kids →
  Forall2 stripped (filter (λ e, is_message_item e) kids')
                   (filter (λ e, is_message_item e) kids).
Proof.
  induction 1 as [|e' e kids' kids He _ IH]; [constructor|].
  pose proof (stripped_is_message_item _ _ He) as Hsame.
  destruct (is_message_item e) eqn:Hm.
  - rewrite !filter_cons_true by congruence. by constructor.
  - by rewrite !filter_cons_false by congruence.
Qed.

Lemma Forall2_stripped_shows es' es records :
  Forall2 stripped es' es → Forall2 shows es records → Forall2 shows es' records.
Proof.
  intros Hs. revert records. induction Hs as [|e' e es' es He _ IH]; intros records Hm.
  - by inversion Hm.
  - inversion Hm as [|? record ? rest Hshow Hrest]; subst. constructor; [|by apply IH].
    by eapply stripped_shows.
Qed.

Lemma Forall2_stripped_rendered kids' kids :
  Forall2 stripped kids' kids → rendered_children kids → rendered_children kids'.
Proof.
  induction 1 as [|e' e kids' kids He _ IH]; [done|].
  intros [Hkind Hrest]%Forall_cons. constructor; [by eapply stripped_rendered | by apply IH].
Qed.

(** What the callback of [hideSuggestions] does to the children of the
    container. *)
Lemma detach_node_children node w :
  rendered_children (childNodes (container w)) →
  Forall2 stripped (childNodes (container (after (detach_node node) w)))
                   (childNodes (container w)).
Proof.
  intros Hkids. rewrite detach_node_after.
  assert (Forall2 stripped (childNodes (container w)) (childNodes (container w))) as Hsame.
  { apply Forall2_same_length_lookup_2; [done|]. intros i e e' He He'. left. congruence. }
  destruct node as [n|]; [|done]. cbn [container set_container].
  rewrite detach_first_unfold.
  destruct (detach_among _ _ _) as [kids'|] eqn:Hd; simpl; [|done].
  rewrite ?childNodes_set_childNodes. by eapply detach_serial_children.
Qed.
End chip_container.

(** ** Rendered children *)

Section rendered.
Context `{Host}.

(** As long as [updateMessage] builds its selector from ids that need no
    escaping, every child of the container is a typing indicator or shows
    a record. *)
Lemma call_rendered_children now op w :
  selects_by_id op = true →
  rendered_children (childNodes (container w)) →
  rendered_children (childNodes (container (after (call now op) w))).
Proof.
  intros Hop Hkids. pose proof (tidy_rendered_children _ Hkids) as Htidy.
  destruct op as [message|messageId updates|[items|]|s messageId| | | | |k]; unfold call.
  - by apply addMessage_rendered_children.
  - destruct (findIndex (has_id messageId) (message_list w)) as [i|] eqn:Hi.
    + destruct (findIndex_Some _ _ _ Hi) as (old & Hold & _).
      unfold after. rewrite (updateMessage_found_exact _ _ _ _ _ Hi Hold).
      destruct (converts messageId) eqn:Hconverts;
        [|unfold select_message_element; by rewrite Hconverts].
      simpl in Hop. rewrite Hconverts in Hop.
      rewrite select_message_element_safe by done. cbn zeta.
      rewrite select_first_without.
      assert (rendered_children
                (childNodes (default (container w)
                   (detach_first (has_message_id (ToString messageId)) (container w)))))
        as Hdetached.
      { rewrite childNodes_detached_by_id by done.
        destruct (findIndex (has_message_id _) _); [by apply Forall_delete | done]. }
      destruct (messageElement _ _) as [item|e] eqn:Hitem;
        cbn [snd set_container container]; [|done].
      rewrite childNodes_appendChild. apply Forall_app. split; [done|].
      apply Forall_singleton. right. exists (spread old updates). right. by eexists.
    + unfold after. rewrite updateMessage_missing by done. by destruct (converts messageId).
  - rewrite (loadMessages_after (Some items) w). cbn [container set_timers].
    rewrite childNodes_clearMessages. constructor.
  - by rewrite (loadMessages_after None w).
  - destruct (nullish s) eqn:Hs.
    + destruct (handleSuggestionClick_nullish now s messageId w Hs) as [e He].
      unfold after. by rewrite He.
    + destruct (handleSuggestionClick_after now s messageId w Hs)
        as (extra & events & -> & _).
      by apply (addMessage_rendered_children now _ (set_allocated (S (allocated w)) w)).
  - rewrite childNodes_clearMessages. constructor.
  - unfold after. rewrite showTyping_after. cbn [snd].
    destruct (isTyping w); [done|]. cbn [set_container container].
    rewrite childNodes_appendChild. apply Forall_app. split; [done|].
    apply Forall_singleton. by left.
  - unfold after. rewrite hideTyping_after. simpl.
    pose proof (childNodes_detached_indicator (container w) Htidy) as Hd.
    destruct (detach_first is_typing_indicator (container w)) as [c|]; simpl in *; [|done].
    rewrite Hd. destruct (findIndex _ _); [by apply Forall_delete | done].
  - unfold after, mbind, M_bind. by rewrite getMessages_after.
  - rewrite runTimer_after. destruct (timers w !! k) as [[delay [message|node]]|]; [| |done].
    + by apply (addMessage_rendered_children now message (set_timers (delete k (timers w)) w)).
    + eapply Forall2_stripped_rendered;
        [apply (detach_node_children node (set_timers (delete k (timers w)) w))|]; done.
Qed.

Lemma exec_rendered_children script :
  forallb (λ step, selects_by_id step.2) script = true →
  rendered_children (childNodes (container (exec script new_ChatRenderer))).
Proof.
  intros Hs.
  apply (exec_invariant_when (λ w, rendered_children (childNodes (container w)))
           selects_by_id); [apply call_rendered_children | done | constructor].
Qed.

Lemma message_elements_snoc_item kids e record :
  shows e record →
  filter (λ e, is_message_item e) (kids ++ [e]) =
  filter (λ e, is_message_item e) kids ++ [e].
Proof.
  intros He. rewrite filter_app. f_equal.
  by rewrite filter_cons_true by by eapply shows_is_message_item.
Qed.

(** *** Messages that render *)

Lemma get_new_record_suggestions now date m :
  get "suggestions" (new_record now date m) = get "suggestions" m.
Proof. by apply get_new_record_other. Qed.

Lemma is_ai_new_record now date m : is_ai (new_record now date m) = is_ai m.
Proof.
  unfold is_ai. rewrite get_new_record_sender. unfold get.
  by destruct (m !! "sender").
Qed.

Lemma rendering_throws_new_record now date m :
  rendering_throws (new_record now date m) = rendering_throws (new_record 0 0 m).
Proof.
  unfold rendering_throws, wants_chips, item_converts, is_user.
  rewrite !is_ai_new_record, !get_new_record_suggestions, !get_new_record_id.
  rewrite !get_new_record_sender, !get_new_record_text.
  rewrite !(get_new_record_other "userAvatar"), !(get_new_record_other "userInitial") by done.
  by destruct (m !! "id").
Qed.

Lemma item_converts_id record :
  item_converts record = true → converts (get "id" record) = true.
Proof. unfold item_converts. by intros [[? _]%andb_prop _]%andb_prop. Qed.

Lemma messageElement_returns key record :
  rendering_throws record = false → ∃ item, messageElement key record = Normal item.
Proof.
  unfold rendering_throws, messageElement, renderSuggestions.
  destruct (item_converts record) eqn:Hc; simpl; [|done].
  rewrite (item_converts_id _ Hc).
  destruct (wants_chips record); simpl; [|by eexists].
  destruct (get "suggestions" record) as [p|?|ref items|?]; try done.
  intros ->%forEach_returns. by eexists.
Qed.

Lemma messageElement_throws key record :
  rendering_throws record = true → ∃ e, messageElement key record = Throw e.
Proof.
  unfold rendering_throws, messageElement, renderSuggestions.
  destruct (item_converts record) eqn:Hc; simpl; [|by eexists].
  rewrite (item_converts_id _ Hc).
  destruct (wants_chips record); simpl; [|done].
  destruct (get "suggestions" record) as [p|?|ref items|?]; try by eexists.
  intros Hu. destruct (head (omap chip_error items)) as [e|] eqn:Hh; [by eexists|].
  apply forEach_returns in Hh. congruence.
Qed.

Lemma item_converts_clicked now now' date date' s :
  item_converts (new_record now date (clicked_message now' date' s)) = true.
Proof.
  unfold item_converts, is_user.
  rewrite get_new_record_id, get_new_record_sender, get_new_record_text.
  rewrite !get_new_record_other by done. by destruct s as [[]|].
Qed.

(** The message of a click renders. *)
Lemma renders_clicked now date s : renders (Some (clicked_message now date s)) = true.
Proof.
  unfold renders, rendering_throws, wants_chips.
  by rewrite item_converts_clicked, is_ai_new_record.
Qed.

Lemma addMessage_returns now message w :
  renders message = true → returns (addMessage now message) w.
Proof.
  intros Hm. unfold returns. destruct (valid_message message) eqn:Hv.
  - destruct message as [m|]; [|done]. simpl in Hv, Hm. rewrite addMessage_valid by done.
    destruct (messageElement_returns (S (allocated w)) (new_record now (allocated w) m))
      as [item ->]; [|by eexists].
    rewrite rendering_throws_new_record. by destruct (rendering_throws _).
  - rewrite addMessage_invalid by done. by eexists.
Qed.

(** *** The DOM next to the list *)

(** Under a mirroring DOM the elements carry the ids of the records, in
    the order of the list. *)
Lemma mirrors_rendered_ids w :
  mirrors w →
  rendered_ids w = (λ record, Some (ToString (get "id" record))) <$> message_list w.
Proof.
  unfold mirrors, rendered_ids.
  generalize (filter (λ e, is_message_item e) (childNodes (container w))).
  generalize (message_list w). intros records es.
  induction 1 as [|e record es records He _ IH]; csimpl; [done|].
  by rewrite (shows_data_message_id _ _ He), IH.
Qed.

Lemma mirrors_new : mirrors new_ChatRenderer.
Proof. constructor. Qed.

Lemma mirrors_clearMessages w : mirrors (after clearMessages w).
Proof.
  unfold mirrors. rewrite message_list_clearMessages, childNodes_clearMessages. constructor.
Qed.

(** [addMessage] keeps the DOM in step with the list: the element it
    renders goes to the end of the container as the record goes to the
    end of the list. *)
Lemma mirrors_addMessage now message w :
  returns (addMessage now message) w →
  mirrors w → mirrors (after (addMessage now message) w).
Proof.
  intros [[] Hret] Hm. unfold mirrors, after in *.
  destruct (valid_message message) eqn:Hv.
  - destruct message as [m|]; [|done]. simpl in Hv.
    rewrite addMessage_valid in Hret |- * by done.
    destruct (messageElement _ _) as [item|e] eqn:Hitem; [|done].
    cbn [snd]. change (message_list (set_container _ ?w)) with (message_list w).
    rewrite message_list_stored. cbn [container set_container].
    assert (shows item (new_record now (allocated w) m)) as Hshows by (right; by eexists).
    rewrite childNodes_appendChild, (message_elements_snoc_item _ _ _ Hshows).
    apply Forall2_app; [done|]. by constructor.
  - by rewrite addMessage_invalid.
Qed.

Lemma mirrors_same_dom_and_list w w' :
  container w' = container w → message_list w' = message_list w →
  mirrors w → mirrors w'.
Proof. unfold mirrors. by intros -> ->. Qed.

Lemma call_in_step now op w :
  renders_in_order op = true → in_step w → in_step (after (call now op) w).
Proof.
  intros Hop (Hm & Hw & Ht & Hwf). unfold in_step.
  pose proof (tidy_rendered_children _ Hw) as Htidy.
  split_and!; [| | |by apply call_well_formed].
  - destruct op as [message|messageId updates|[items|]|s messageId| | | | |k];
      unfold call; simpl in Hop; try done.
    + by apply mirrors_addMessage; [apply addMessage_returns|].
    + rewrite (loadMessages_after (Some items) w). apply (mirrors_clearMessages w).
    + destruct (nullish s) eqn:Hs.
      * destruct (handleSuggestionClick_nullish now s messageId w Hs) as [e He].
        unfold after. by rewrite He.
      * destruct (handleSuggestionClick_after now s messageId w Hs)
          as (extra & events & -> & _).
        by apply (mirrors_addMessage now _ (set_allocated (S (allocated w)) w));
          [apply addMessage_returns, renders_clicked|].
    + apply mirrors_clearMessages.
    + unfold after. rewrite showTyping_after. simpl.
      destruct (isTyping w); [done|]. unfold mirrors in *. cbn [container set_container].
      rewrite childNodes_appendChild, filter_app, filter_cons_false by done.
      rewrite filter_nil, app_nil_r. exact Hm.
    + unfold after. rewrite hideTyping_after. simpl.
      pose proof (childNodes_detached_indicator (container w) Htidy) as Hd.
      destruct (detach_first is_typing_indicator (container w)) as [c|]; simpl in *; [|done].
      unfold mirrors in *.
      change (message_list (set_isTyping false (set_container c w))) with (message_list w).
      change (container (set_isTyping false (set_container c w))) with c. rewrite Hd.
      destruct (findIndex is_typing_indicator (childNodes (container w))) as [j|] eqn:Hj;
        [|done].
      rewrite (filter_delete_other _ _ _ _ Hj); [done|].
      intros e. by apply is_typing_indicator_not_message_item.
    + apply (mirrors_same_dom_and_list w); [done | | done].
      apply (message_list_getMessages w Hwf).
    + rewrite runTimer_after.
      destruct (timers w !! k) as [[delay [message|node]]|] eqn:Hk; [| |done].
      * apply mirrors_addMessage; [|done]. apply addMessage_returns.
        eapply Forall_lookup_1 in Ht; eauto. done.
      * pose proof (detach_node_children node (set_timers (delete k (timers w)) w) Hw)
          as Hstripped.
        unfold mirrors in *.
        replace (message_list (after (detach_node node) (set_timers (delete k (timers w)) w)))
          with (message_list w) by (rewrite detach_node_after; by destruct node).
        eapply Forall2_stripped_shows; [by apply Forall2_stripped_filter | done].
  - apply call_rendered_children; [by destruct op | done].
  - apply call_timers_Forall; [by intros [delay callback] [node ->] | | done].
    intros items ->. simpl in Hop. apply Forall_forall. intros message Hin delay. simpl.
    rewrite forallb_forall in Hop. apply Hop. by apply list_elem_of_In.
Qed.

Lemma exec_in_step script w :
  forallb (λ step, renders_in_order step.2) script = true →
  in_step w → in_step (exec script w).
Proof. apply (exec_invariant_when in_step renders_in_order), call_in_step. Qed.

Lemma in_step_new : in_step new_ChatRenderer.
Proof.
  split_and!; [apply mirrors_new | constructor | constructor | apply (exec_well_formed [])].
Qed.

(** Along every script without [updateMessage] the DOM stays in step with
    the list. *)
Lemma mirrors_without_updateMessage script :
  forallb (λ step, renders_in_order step.2) script = true →
  mirrors (exec script new_ChatRenderer).
Proof. intros Hs. by apply exec_in_step; [|apply in_step_new]. Qed.

End rendered.

(** C7.  The claim is that the message elements under the container stay in
    step with the list, one for one and in order.  After two messages and
    an edit of the first, the list holds the edited record at index 0 and
    the second record at index 1, while the container holds the element of
    the second message first and the re-rendered element of the first
    message last.  The DOM mirrored the list before the edit and does not
    after it. *)
Theorem updateMessage_moves_element_to_end :
  mirrors (H:=sample_host) (exec (H:=sample_host) (take 2 edit_first_script) new_ChatRenderer) ∧
  ids (exec (H:=sample_host) edit_first_script new_ChatRenderer)
    = [VString "1"; VString "2"] ∧
  get "text" <$> message_list (exec (H:=sample_host) edit_first_script new_ChatRenderer)
    = [VString "edited"; VString "second"] ∧
  rendered_ids (exec (H:=sample_host) edit_first_script new_ChatRenderer)
    = [Some "2"; Some "1"] ∧
  ¬ mirrors (H:=sample_host) (exec (H:=sample_host) edit_first_script new_ChatRenderer).
Proof.
  split_and!.
  - apply (mirrors_addMessage (H:=sample_host)); [by eexists|].
    apply (mirrors_addMessage (H:=sample_host)); [by eexists|].
    apply mirrors_new.
  - by vm_compute.
  - by vm_compute.
  - by vm_compute.
  - intros Hm. apply (mirrors_rendered_ids (H:=sample_host)) in Hm. by vm_compute in Hm.
Qed.

(** * Further properties of the methods *)

(** ** Arrays handed out, timers set *)

Section store_and_timers.
Context `{Host}.

Lemma addMessage_heap now message w :
  heap (after (addMessage now message) w) = heap w ∨
  ∃ items, heap (after (addMessage now message) w) = <[messages w := items]> (heap w).
Proof.
  unfold after. destruct (valid_message message) eqn:Hv.
  - destruct message as [m|]; [|done]. simpl in Hv. rewrite addMessage_valid by done.
    right. eexists. by destruct (messageElement _ _).
  - left. by rewrite addMessage_invalid.
Qed.

Lemma addMessage_snapshot now message copy items w :
  snapshot copy items w → snapshot copy items (after (addMessage now message) w).
Proof.
  intros [Hcopy Hne]. unfold snapshot.
  destruct (addMessage_frame now message w) as (-> & _).
  split; [|done].
  destruct (addMessage_heap now message w) as [->|[items' ->]]; [done|].
  by rewrite lookup_insert_ne.
Qed.

Lemma new_array_snapshot copy items items' w :
  heap w !! copy = Some items →
  (<[fresh (dom (heap w)) := items']> (heap w)) !! copy = Some items ∧
  copy ≠ fresh (dom (heap w)).
Proof.
  intros Hcopy.
  assert (copy ≠ fresh (dom (heap w))) as Hne.
  { intros ->. apply (is_fresh (dom (heap w))). apply elem_of_dom. by eexists. }
  split; [|done]. by rewrite lookup_insert_ne.
Qed.

(** No call writes to an array other than the renderer's own, and the
    renderer only ever moves on to a new array. *)
Lemma call_snapshot now op copy items w :
  snapshot copy items w → snapshot copy items (after (call now op) w).
Proof.
  intros Hsnap. pose proof Hsnap as [Hcopy Hne].
  destruct op as [message|messageId updates|[items'|]|s messageId| | | | |k]; unfold call.
  - by apply addMessage_snapshot.
  - destruct (findIndex (has_id messageId) (message_list w)) as [i|] eqn:Hi.
    + destruct (findIndex_Some _ _ _ Hi) as (old & Hold & _).
      unfold after. rewrite (updateMessage_found_exact _ _ _ _ _ Hi Hold).
      assert (snapshot copy items (assigned i (spread old updates) w)) as Hassigned.
      { split; [|done]. unfold assigned. simpl. by rewrite lookup_insert_ne. }
      destruct (select_message_element _ _); [|done].
      by destruct (messageElement _ (spread old updates)).
    + unfold after. rewrite updateMessage_missing by done. by destruct (converts messageId).
  - rewrite (loadMessages_after (Some items') w). unfold after.
    rewrite clearMessages_after. unfold snapshot. simpl.
    by apply new_array_snapshot.
  - by rewrite (loadMessages_after None w).
  - destruct (nullish s) eqn:Hs.
    + destruct (handleSuggestionClick_nullish now s messageId w Hs) as [e He].
      unfold after. by rewrite He.
    + destruct (handleSuggestionClick_after now s messageId w Hs)
        as (extra & events & -> & _).
      by apply (addMessage_snapshot now _ copy items (set_allocated (S (allocated w)) w)).
  - unfold after. rewrite clearMessages_after. unfold snapshot. simpl.
    by apply new_array_snapshot.
  - unfold after. rewrite showTyping_after. simpl. by destruct (isTyping w).
  - unfold after. rewrite hideTyping_after. simpl. by destruct (detach_first _ _).
  - unfold after, mbind, M_bind. rewrite getMessages_after. unfold snapshot. simpl.
    split; [|done]. by apply new_array_snapshot.
  - rewrite runTimer_after. destruct (timers w !! k) as [[delay [message|node]]|]; [| |done].
    + by apply (addMessage_snapshot now message copy items
                  (set_timers (delete k (timers w)) w)).
    + rewrite detach_node_after. by destruct node.
Qed.

Lemma allocated_runTimer now k w :
  allocated (after (runTimer now k) w) =
  match timers w !! k with
  | Some (_, AddMessageLater message) => allocated w + taken message
  | _ => allocated w
  end.
Proof.
  rewrite runTimer_after. destruct (timers w !! k) as [[delay [message|node]]|]; [| |done].
  - by rewrite allocated_addMessage.
  - rewrite detach_node_after. by destruct node.
Qed.

Lemma fire_in_order_effect nows w :
  well_formed w →
  message_list (exec (fire_in_order nows) w) =
    message_list w ++ fired (allocated w) nows (timers w) ∧
  timers (exec (fire_in_order nows) w) = drop (length nows) (timers w).
Proof.
  revert w. induction nows as [|now nows IH]; intros w Hwf.
  - simpl. by rewrite app_nil_r, drop_0.
  - unfold fire_in_order. rewrite fmap_cons. fold (fire_in_order nows).
    rewrite exec_cons. simpl fst. simpl snd.
    destruct (IH (after (call now (RunTimer 0)) w)) as [Hlist Htimers];
      [by apply call_well_formed|].
    rewrite Hlist, Htimers, call_message_list by done.
    pose proof (call_timers now (RunTimer 0) w) as Hqueue. simpl in Hqueue.
    unfold call. rewrite Hqueue, allocated_runTimer. unfold next_list.
    destruct (timers w) as [|[delay [message|node]] pending]; simpl.
    + by destruct nows.
    + by rewrite <- app_assoc.
    + done.
Qed.

Lemma fired_imap (delay : nat → nat) next nows items :
  fired next nows (imap (λ index message, (delay index, AddMessageLater message)) items)
  = loaded next nows items.
Proof.
  revert delay next nows. induction items as [|item items IH]; intros delay next [|now nows];
    simpl; try done.
  f_equal. apply (IH (delay ∘ S)).
Qed.

Lemma in_step_after_loadMessages items w :
  timers w = [] → forallb renders items = true →
  in_step (after (loadMessages (Some items)) w).
Proof.
  intros Hnone Hitems. rewrite (loadMessages_after (Some items) w).
  unfold in_step. split_and!.
  - apply (mirrors_clearMessages w).
  - cbn [container set_timers]. rewrite childNodes_clearMessages. constructor.
  - simpl. rewrite Hnone. simpl. apply Forall_forall. intros [delay callback] Hin.
    apply elem_of_lookup_imap in Hin as (index & a & Heq & Ha). injection Heq as -> ->.
    simpl. rewrite forallb_forall in Hitems. apply Hitems.
    apply list_elem_of_In. by eapply list_elem_of_lookup_2.
  - apply (well_formed_clearMessages w).
Qed.

Lemma fire_in_order_renders nows :
  forallb (λ step, renders_in_order step.2) (fire_in_order nows) = true.
Proof. by induction nows. Qed.
End store_and_timers.

(** * Further theorems *)

Section further.
Context `{Host}.

(** X1.  [loadMessages] on something that is not an array reports an error
    and clears nothing.  On an array it empties the list and the container
    at once and sets one timer per element; when the renderer had no
    timer pending and these timers have fired, in order, the list holds
    exactly the records of the elements that [addMessage] accepts, in the
    order of the array, none of these timers is left, and the DOM mirrors
    the list when [renderMessage] returns for the record of every message
    of the array. *)
Theorem loadMessages_then_timers
    (now : Z) (items : list (option object)) (nows : list Z) (w : world) :
  timers w = [] → length nows = length items →
  let loading := after (loadMessages (Some items)) w in
  let w' := exec ((now, LoadMessages (Some items)) :: fire_in_order nows) w in
  after (loadMessages None) w = set_console (console w ++ ["Messages must be an array"]) w ∧
  message_list loading = [] ∧ childNodes (container loading) = [] ∧
  length (timers loading) = length items ∧
  message_list w' = loaded (allocated w) nows items ∧ timers w' = [] ∧
  (forallb renders items = true → mirrors w').
Proof.
  intros Hnone Hlen loading w'.
  assert (well_formed loading) as Hwf.
  { unfold loading. rewrite (loadMessages_after (Some items) w).
    apply (well_formed_clearMessages w). }
  assert (message_list loading = []) as Hempty.
  { unfold loading. rewrite (loadMessages_after (Some items) w).
    apply (message_list_clearMessages w). }
  assert (timers loading =
          imap (λ index message, (index * 100, AddMessageLater message)) items) as Htimers.
  { unfold loading. rewrite (loadMessages_after (Some items) w). simpl. by rewrite Hnone. }
  assert (allocated loading = allocated w) as Hnext.
  { unfold loading. by rewrite (loadMessages_after (Some items) w). }
  destruct (fire_in_order_effect nows loading Hwf) as [Hlist Hleft].
  split_and!.
  - by rewrite (loadMessages_after None w).
  - done.
  - unfold loading. rewrite (loadMessages_after (Some items) w).
    cbn [container set_timers]. apply childNodes_clearMessages.
  - by rewrite Htimers, length_imap.
  - unfold w'. rewrite exec_cons. simpl fst. simpl snd. unfold call. fold loading.
    by rewrite Hlist, Hempty, Htimers, Hnext, fired_imap.
  - unfold w'. rewrite exec_cons. simpl fst. simpl snd. unfold call. fold loading.
    rewrite Hleft, Htimers. apply drop_ge. rewrite length_imap. lia.
  - intros Hrenders. unfold w'. rewrite exec_cons. simpl fst. simpl snd. unfold call.
    apply exec_in_step; [apply fire_in_order_renders|].
    by apply in_step_after_loadMessages.
Qed.

(** X2.  [clearMessages] cancels no timer: a load that is under way
    goes on.  After [loadMessages] on an array, a [clearMessages], and the
    timers of the load, the list again holds the records of the array. *)
Theorem clearMessages_keeps_pending_timers
    (now now' : Z) (items : list (option object)) (nows : list Z) (w : world) :
  timers w = [] →
  timers (after clearMessages w) = timers w ∧
  message_list
    (exec ((now, LoadMessages (Some items)) :: (now', ClearMessages) :: fire_in_order nows) w)
  = loaded (allocated w) nows items.
Proof.
  intros Hnone. split; [done|].
  rewrite !exec_cons. simpl fst. simpl snd. unfold call.
  set (cleared := after clearMessages (after (loadMessages (Some items)) w)).
  assert (timers cleared =
          imap (λ index message, (index * 100, AddMessageLater message)) items) as Htimers.
  { unfold cleared. change (timers (after clearMessages ?v)) with (timers v).
    rewrite (loadMessages_after (Some items) w). simpl. by rewrite Hnone. }
  assert (allocated cleared = allocated w) as Hnext.
  { unfold cleared. change (allocated (after clearMessages ?v)) with (allocated v).
    by rewrite (loadMessages_after (Some items) w). }
  assert (message_list cleared = []) as Hempty by apply message_list_clearMessages.
  destruct (fire_in_order_effect nows cleared) as [-> _];
    [apply well_formed_clearMessages|].
  by rewrite Hempty, Htimers, Hnext, fired_imap.
Qed.

(** X3.  [clearMessages] takes the typing indicator out of the container
    with everything else but leaves [isTyping] as it is.  After
    [showTyping] and [clearMessages] the flag is set and no indicator is
    shown, and [showTyping] shows none until [hideTyping] has reset the
    flag. *)
Theorem clearMessages_leaves_isTyping (w : world) :
  let cleared := after clearMessages (after showTyping w) in
  isTyping (after clearMessages w) = isTyping w ∧
  isTyping cleared = true ∧ indicators cleared = 0 ∧
  after showTyping cleared = cleared ∧
  indicators (after showTyping (after hideTyping cleared)) = 1.
Proof.
  intros cleared.
  assert (isTyping (after showTyping w) = true) as Hshown.
  { unfold after. rewrite showTyping_after. simpl. by destruct (isTyping w) eqn:Hw. }
  assert (isTyping cleared = true) as Hflag.
  { unfold cleared, after at 1. by rewrite clearMessages_after. }
  assert (childNodes (container cleared) = []) as Hkids
    by apply childNodes_clearMessages.
  assert (count_matches is_typing_indicator (container cleared) = 0) as Hnone.
  { by rewrite count_matches_unfold, Hkids. }
  split_and!; [done | done | done | |].
  - unfold after at 1. by rewrite showTyping_after, Hflag.
  - unfold after at 2. rewrite hideTyping_after. cbn [snd].
    rewrite (proj2 (detach_first_None _ _) Hnone).
    unfold after, indicators. rewrite showTyping_after. simpl.
    by rewrite count_appendChild, count_set_childNodes_nil.
Qed.

(** X4.  An array returned by [getMessages] is a snapshot: whatever the
    renderer is asked to do afterwards, that array keeps the records it
    was given. *)
Theorem getMessages_snapshot_is_stable (w : world) (script : list (Z * operation)) :
  well_formed w →
  ∃ copy w',
    getMessages w = (Normal copy, w') ∧
    array_at copy (exec script w') = message_list w.
Proof.
  intros Hwf. eexists _, _. split; [apply getMessages_after|].
  assert (snapshot (fresh (dom (heap w))) (message_list w)
            (exec script
               (set_heap (<[fresh (dom (heap w)) := message_list w]> (heap w)) w)))
    as [Hcopy _].
  { apply (exec_invariant (snapshot (fresh (dom (heap w))) (message_list w))).
    - intros now op w1. apply call_snapshot.
    - split; simpl; [by rewrite lookup_insert_eq | by apply fresh_not_messages]. }
  unfold array_at. by rewrite Hcopy.
Qed.

(** X5.  In every state the renderer reaches, [updateMessage] for a stored
    id that has a string, one without double quote, backslash, NUL, line
    feed, form feed or carriage return, with a record for which
    [renderMessage] returns, takes the first message element carrying
    that id out of the container and puts the element of the updated
    record last; the other message elements keep their order. *)
Theorem updateMessage_rerenders_last
    (script : list (Z * operation)) (messageId : value) (updates : object)
    (i : nat) (old : object) :
  let w := exec script new_ChatRenderer in
  findIndex (has_id messageId) (message_list w) = Some i →
  message_list w !! i = Some old →
  converts messageId = true → selector_safe (ToString messageId) = true →
  rendering_throws (spread old updates) = false →
  ∃ item,
    messageElement (allocated w) (spread old updates) = Normal item ∧
    message_elements (after (updateMessage messageId updates) w) =
    match findIndex (has_message_id (ToString messageId)) (message_elements w) with
    | Some j => delete j (message_elements w)
    | None => message_elements w
    end ++ [item].
Proof.
  intros w Hi Hold Hconverts Hsafe Hrenders.
  destruct (messageElement_returns (allocated w) _ Hrenders) as [item Hitem].
  exists item. split; [done|].
  unfold after. rewrite (updateMessage_found_exact _ _ _ _ _ Hi Hold).
  rewrite select_message_element_safe by done. cbn zeta. rewrite Hitem, select_first_without.
  unfold message_elements. cbn [snd set_container container].
  assert (shows item (spread old updates)) as Hshows by (right; by eexists).
  rewrite childNodes_appendChild, (message_elements_snoc_item _ _ _ Hshows).
  rewrite childNodes_detached_by_id by apply exec_tidy.
  by rewrite message_elements_detached_by_id.
Qed.

(** X6.  In every state the renderer reaches, showing and hiding the
    typing indicator leave the message elements as they are; [showTyping]
    with the flag down puts the indicator after every element the
    container holds. *)
Theorem typing_indicator_spares_messages (script : list (Z * operation)) :
  let w := exec script new_ChatRenderer in
  message_elements (after showTyping w) = message_elements w ∧
  message_elements (after hideTyping w) = message_elements w ∧
  (isTyping w = false →
   childNodes (container (after showTyping w)) = childNodes (container w) ++ [typingElement]).
Proof.
  intros w. pose proof (exec_tidy script) as Hkids. fold w in Hkids.
  unfold message_elements, after. rewrite showTyping_after, hideTyping_after.
  cbn [snd]. split_and!.
  - destruct (isTyping w); [done|]. cbn [set_container container].
    rewrite childNodes_appendChild, filter_app. rewrite filter_cons_false by done.
    by rewrite filter_nil, app_nil_r.
  - pose proof (childNodes_detached_indicator (container w) Hkids) as Hd.
    destruct (detach_first is_typing_indicator (container w)) as [c|]; [|done].
    simpl in Hd. simpl. rewrite Hd.
    destruct (findIndex is_typing_indicator (childNodes (container w))) as [k|] eqn:Hk;
      [|done].
    apply (filter_delete_other _ _ _ _ Hk).
    intros e. by apply is_typing_indicator_not_message_item.
  - intros ->. cbn [set_container container]. apply childNodes_appendChild.
Qed.

(** X7.  In every state the renderer reaches by calls whose
    [updateMessage] ids have no string or have one without double quote,
    backslash, NUL, line feed, form feed or carriage return, each child of the
    container is a typing indicator as [showTyping] builds it, or shows a
    record: it is the element [renderMessage] builds for that record, or
    the message element of that record without a chip container (what
    the callback of [hideSuggestions] leaves of it), and it carries the
    id of the record as [data-message-id]. *)
Theorem container_holds_rendered_elements (script : list (Z * operation)) :
  forallb (λ step, selects_by_id step.2) script = true →
  Forall (λ e, (e = typingElement ∧ is_message_item e = false) ∨
               ∃ record,
                 (e = messageItem record ∨ ∃ key, messageElement key record = Normal e) ∧
                 is_message_item e = true ∧ is_typing_indicator e = false ∧
                 getAttribute "data-message-id" e = Some (ToString (get "id" record)))
         (childNodes (container (exec script new_ChatRenderer))).
Proof.
  intros Hs. eapply Forall_impl; [by apply exec_rendered_children|].
  intros e [->|[record He]]; [by left | right].
  exists record. split_and!; [done | | |].
  - by eapply shows_is_message_item.
  - by eapply shows_plain.
  - by apply shows_data_message_id.
Qed.
End further.

Section further_records.
Context `{Host}.

(** X8.  [addMessage] stores the record before it renders it.  For a
    message with a truthy text for whose record [renderMessage] throws,
    the record is in the list and the container is as it was.  That is
    the case when one of the values [renderMessage] converts to a string
    has none; and, when they all have one, exactly when the sender is
    ["ai"] and the suggestions are truthy, have a [length] above [0], and
    are not an array (a non-empty string, an object with a [length]) or
    are an array with an element that is [null] or [undefined] or an
    object with a falsy text and no string.  For every other message with
    a truthy text [addMessage] returns and the element of the record is
    the last child of the container. *)
Theorem addMessage_stores_before_rendering (now : Z) (m : object) (w : world) :
  truthy (get "text" m) = true →
  let record := new_record now (allocated w) m in
  let w' := after (addMessage now (Some m)) w in
  message_list w' = message_list w ++ [record] ∧
  (item_converts record = false → rendering_throws record = true) ∧
  (item_converts record = true →
   rendering_throws record =
     (is_ai m && truthy (get "suggestions" m) && length_exceeds_zero (get "suggestions" m) &&
      match get "suggestions" m with
      | VArray _ items => existsb unlabelled items
      | _ => true
      end)) ∧
  (rendering_throws record = true →
   (∃ e, fst (addMessage now (Some m) w) = Throw e) ∧ container w' = container w) ∧
  (rendering_throws record = false →
   fst (addMessage now (Some m) w) = Normal tt ∧
   ∃ item, messageElement (S (allocated w)) record = Normal item ∧
           childNodes (container w') = childNodes (container w) ++ [item]).
Proof.
  intros Htext record w'. unfold w', after. rewrite addMessage_valid by done.
  fold record. split_and!.
  - destruct (messageElement _ record); apply message_list_pushed.
  - unfold rendering_throws. by intros ->.
  - unfold rendering_throws, wants_chips. intros ->. unfold record.
    by rewrite is_ai_new_record, get_new_record_suggestions.
  - intros [e ->]%(messageElement_throws (S (allocated w))). split; [by exists e | done].
  - intros [item ->]%(messageElement_returns (S (allocated w))). split; [done|].
    exists item. split; [done|]. cbn [snd set_container container].
    apply childNodes_appendChild.
Qed.

(** X9.  The record [addMessage] stores keeps every own property of the
    message as it was given, falsy values included; the defaults (the
    clock reading as id, ["user"] as sender, a new date as timestamp) are
    stored only for properties the message does not have, and no other
    property is added. *)
Theorem new_record_keeps_own_properties (now : Z) (date : nat) (m : object) :
  (∀ k v, m !! k = Some v → new_record now date m !! k = Some v) ∧
  (m !! "id" = None → new_record now date m !! "id" = Some (VString (pretty now))) ∧
  (m !! "sender" = None → new_record now date m !! "sender" = Some (VString "user")) ∧
  (m !! "timestamp" = None →
   new_record now date m !! "timestamp" = Some (VDate (Created date) now)) ∧
  (∀ k, k ≠ "id" → k ≠ "text" → k ≠ "sender" → k ≠ "timestamp" →
        new_record now date m !! k = m !! k).
Proof.
  unfold new_record, spread. split_and!.
  - intros k v Hk. by apply lookup_union_Some_l.
  - intros Hk. rewrite lookup_union_r by done. unfold get. rewrite Hk. by simplify_map_eq.
  - intros Hk. rewrite lookup_union_r by done. unfold get. rewrite Hk. by simplify_map_eq.
  - intros Hk. rewrite lookup_union_r by done. unfold get. rewrite Hk. by simplify_map_eq.
  - intros k H1 H2 H3 H4. destruct (m !! k) as [v|] eqn:Hk.
    + by apply lookup_union_Some_l.
    + rewrite lookup_union_r by done. by simplify_map_eq.
Qed.

(** X10.  The default id is the clock reading in milliseconds: two
    messages without an id stored at the same reading get the same id. *)
Theorem default_ids_collide_within_a_millisecond (now : Z) (m1 m2 : object) (w : world) :
  m1 !! "id" = None → m2 !! "id" = None →
  truthy (get "text" m1) = true → truthy (get "text" m2) = true →
  let w' := after (addMessage now (Some m2)) (after (addMessage now (Some m1)) w) in
  ids w' = ids w ++ [VString (pretty now); VString (pretty now)] ∧ ¬ NoDup (ids w').
Proof.
  intros Hid1 Hid2 Ht1 Ht2 w'.
  assert (ids w' = ids w ++ [VString (pretty now); VString (pretty now)]) as Hids.
  { unfold w', ids. rewrite !message_list_addMessage. simpl. rewrite Ht1, Ht2.
    rewrite !fmap_app. simpl. rewrite !get_new_record_id, Hid1, Hid2.
    by rewrite <- app_assoc. }
  split; [done|]. rewrite Hids.
  intros (_ & _ & Hdup)%NoDup_app. apply NoDup_cons in Hdup as [Hnotin _].
  apply Hnotin. left.
Qed.

(** X11.  [updateMessage] for an id that no stored record has (the empty
    list included) changes neither the list nor the container.  When the
    id has a string it reports [Message with ID ... not found] on the
    console and returns; when it has none, building that text throws.
    The ids are compared with [===]: when every stored id is a number, no
    string is the id of a stored record, not even the decimal form of one
    of the numbers; and an object is the id of a stored record only when
    that very object was stored, so a [Date] that no stored id is
    identical with is not found, whatever time it holds. *)
Theorem updateMessage_unknown_id_reports (messageId : value) (updates : object) (w : world) :
  ((∀ record, record ∈ message_list w → has_id messageId record = false) →
   (converts messageId = true →
    updateMessage messageId updates w =
    (Normal tt,
     set_console (console w ++ ["Message with ID " +:+ ToString messageId +:+ " not found"])
       w)) ∧
   (converts messageId = false →
    ∃ e, updateMessage messageId updates w = (Throw e, w))) ∧
  ((∀ record, record ∈ message_list w → ∃ n, get "id" record = VNumber n) →
   ∀ s, updateMessage (VString s) updates w =
        (Normal tt, set_console (console w ++ ["Message with ID " +:+ s +:+ " not found"]) w)) ∧
  (∀ ref ms,
     (∀ record, record ∈ message_list w → identity_of (get "id" record) ≠ Some ref) →
     updateMessage (VDate ref ms) updates w =
     (Normal tt,
      set_console (console w ++ ["Message with ID " +:+ Date_toString ms +:+ " not found"]) w)).
Proof.
  split_and!.
  - intros Hnone%findIndex_None. rewrite (updateMessage_missing _ updates _ Hnone).
    split; intros ->; [done | by eexists].
  - intros Hnumbers s. apply (updateMessage_missing (VString s)), findIndex_None.
    intros record Hin. destruct (Hnumbers record Hin) as [n Hn].
    unfold has_id. by rewrite Hn.
  - intros ref ms Hother. apply (updateMessage_missing (VDate ref ms)), findIndex_None.
    intros record Hin. specialize (Hother record Hin). unfold has_id, strict_eq.
    destruct (get "id" record); [done|..]; simpl in *;
      apply bool_decide_eq_false; congruence.
Qed.

(** X12.  No method other than [handleSuggestionClick] dispatches an
    event. *)
Theorem only_suggestion_clicks_dispatch (now : Z) (op : operation) (w : world) :
  (∀ s messageId, op ≠ HandleSuggestionClick s messageId) →
  dispatched (after (call now op) w) = dispatched w.
Proof.
  intros Hop.
  destruct op as [message|messageId updates|[items|]|s messageId| | | | |k]; unfold call.
  - by apply addMessage_frame.
  - destruct (findIndex (has_id messageId) (message_list w)) as [i|] eqn:Hi.
    + destruct (findIndex_Some _ _ _ Hi) as (old & Hold & _).
      by apply (updateMessage_found messageId updates w i old).
    + unfold after. rewrite updateMessage_missing by done. by destruct (converts messageId).
  - by rewrite (loadMessages_after (Some items) w).
  - by rewrite (loadMessages_after None w).
  - by destruct (Hop s messageId).
  - done.
  - unfold after. rewrite showTyping_after. simpl. by destruct (isTyping w).
  - unfold after. rewrite hideTyping_after. simpl. by destruct (detach_first _ _).
  - done.
  - rewrite runTimer_after. destruct (timers w !! k) as [[delay [message|node]]|]; [| |done].
    + by apply (addMessage_frame now message (set_timers (delete k (timers w)) w)).
    + rewrite detach_node_after. by destruct node.
Qed.

(** X13.  Along every sequence of calls without [updateMessage], with
    messages for whose records [renderMessage] returns, the DOM mirrors
    the list: the message elements under the container show the stored
    records, one for one and in order, each being the element
    [renderMessage] builds for its record or the message element of that
    record without a chip container (what the callback of a click leaves
    of it), and they carry the ids of the records. *)
Theorem dom_mirrors_list_without_updateMessage (script : list (Z * operation)) :
  forallb (λ step, renders_in_order step.2) script = true →
  let w := exec script new_ChatRenderer in
  Forall2 (λ e record, e = messageItem record ∨ ∃ key, messageElement key record = Normal e)
          (message_elements w) (message_list w) ∧
  length (message_elements w) = length (message_list w) ∧
  rendered_ids w = (λ record, Some (ToString (get "id" record))) <$> message_list w.
Proof.
  intros Hs w. pose proof (mirrors_without_updateMessage script Hs) as Hm. fold w in Hm.
  split_and!; [done | | by apply mirrors_rendered_ids].
  by eapply Forall2_length.
Qed.
End further_records.

Section chips.
Context `{Host}.

Lemma count_among_buttons (button : nat → suggestion → element) suggestions :
  (∀ index s, is_button (button index s) = true ∧ count_matches is_button (button index s) = 0) →
  count_among (count_matches is_button) is_button (imap button suggestions)
  = length suggestions.
Proof.
  revert button. induction suggestions as [|s rest IH]; intros button Hbutton; simpl; [done|].
  destruct (Hbutton 0 s) as [-> ->]. rewrite IH; [done|]. intros; apply Hbutton.
Qed.

Lemma messageItem_no_chips message :
  chips (messageItem message) = 0 ∧ length (childNodes (messageItem message)) = 1.
Proof.
  split; [|done]. unfold chips, messageItem, messageContent, avatar.
  destruct (is_user message); [destruct (truthy _)|]; done.
Qed.

Lemma suggestionsContainer_chips key items messageId :
  is_button (suggestionsContainer key items messageId) = false ∧
  chips (suggestionsContainer key items messageId) = length items.
Proof.
  split; [done|]. unfold chips, suggestionsContainer. rewrite count_set_childNodes.
  by apply count_among_buttons.
Qed.

(** X14.  [renderSuggestions], for a message id that has a string, on an
    array without [null], [undefined] and objects that have a falsy text
    and no string, builds one button per suggestion, in order, in a
    container that carries the id of the message.  A primitive is its own
    label, as a string; an object is labelled with its text when that is
    truthy and with [[object Object]] otherwise; [data-suggestion] repeats
    the label; the [data-suggestion-id] is the id of the suggestion when
    that is truthy and its position in the array otherwise.  On an array
    that holds one of the elements named above, on anything that is not
    an array, and for a message id that has no string,
    [renderSuggestions] throws. *)
Theorem renderSuggestions_buttons
    (key : nat) (ref : identity) (items : list suggestion) (messageId : value) :
  (converts messageId = true → existsb unlabelled items = false →
   ∃ box,
     renderSuggestions key (VArray ref items) messageId = Normal box ∧
     length (childNodes box) = length items ∧
     getAttribute "data-message-id" box = Some (ToString messageId) ∧
     ∀ index s, items !! index = Some s →
       ∃ button,
         childNodes box !! index = Some button ∧
         tagName button = "button" ∧
         getAttribute "data-suggestion" button = Some (textContent button) ∧
         textContent button =
           match s with
           | SuggPrim p => prim_to_string p
           | SuggObject o =>
             if prim_truthy (prim_get "text" o) then prim_to_string (prim_get "text" o)
             else "[object Object]"
           end ∧
         getAttribute "data-suggestion-id" button =
           Some match s with
                | SuggPrim _ => pretty index
                | SuggObject o =>
                  if prim_truthy (prim_get "id" o) then prim_to_string (prim_get "id" o)
                  else pretty index
                end) ∧
  (existsb unlabelled items = true →
   ∃ e, renderSuggestions key (VArray ref items) messageId = Throw e) ∧
  (∀ suggestions,
     (∀ ref' items', suggestions ≠ VArray ref' items') →
     ∃ e, renderSuggestions key suggestions messageId = Throw e) ∧
  (converts messageId = false →
   ∀ suggestions, ∃ e, renderSuggestions key suggestions messageId = Throw e).
Proof.
  split_and!.
  - intros Hid Hitems%forEach_returns. exists (suggestionsContainer key items messageId).
    unfold renderSuggestions. rewrite Hid, Hitems. unfold suggestionsContainer. simpl.
    split_and!; [done | by rewrite length_imap | done |].
    intros index s Hs. exists (suggestionButton index s).
    split; [by rewrite list_lookup_imap, Hs|].
    destruct s as [p|o]; [done|].
    unfold suggestionButton, suggestion_label, suggestion_id_label. simpl.
    by destruct (prim_truthy (prim_get "text" o)), (prim_truthy (prim_get "id" o)).
  - intros Hitems. unfold renderSuggestions. destruct (converts messageId); [|by eexists].
    destruct (head (omap chip_error items)) as [e|] eqn:Hh; [by eexists|].
    apply forEach_returns in Hh. congruence.
  - intros suggestions Hnot. unfold renderSuggestions.
    destruct (converts messageId); [|by eexists].
    destruct suggestions as [p|?|ref' items'|?]; try by eexists.
    by destruct (Hnot ref' items').
  - intros Hid suggestions. unfold renderSuggestions. rewrite Hid. by eexists.
Qed.

(** X15.  The element [renderMessage] builds shows chips only for a record
    with sender ["ai"] whose suggestions are an array, one chip per
    suggestion; a record with any other sender gets none, whatever its
    suggestions. *)
Theorem messageElement_chips (key : nat) (record : object) (item : element) :
  messageElement key record = Normal item →
  chips item = length (shown_suggestions record) ∧
  length (childNodes item) = (if bool_decide (shown_suggestions record = []) then 1 else 2).
Proof.
  unfold messageElement, shown_suggestions, wants_chips, renderSuggestions.
  destruct (messageItem_no_chips record) as [Hbase Hone]. unfold chips in *.
  assert (∀ l, count_matches is_button
                 (appendChild (suggestionsContainer key l (get "id" record))
                    (messageItem record)) = length l ∧
               length (childNodes (appendChild (suggestionsContainer key l (get "id" record))
                                     (messageItem record))) = 2) as Hchips.
  { intros l. destruct (suggestionsContainer_chips key l (get "id" record)) as [Hr Hn].
    unfold chips in Hn. rewrite count_appendChild, Hbase, Hr, Hn.
    by rewrite childNodes_appendChild, length_app, Hone. }
  destruct (item_converts record) eqn:Hc; [|done]. rewrite (item_converts_id _ Hc).
  destruct (is_ai record); simpl; [|intros [= <-]; by rewrite Hbase, Hone].
  destruct (get "suggestions" record) as [p|?|ref l|?]; simpl.
  - destruct (prim_truthy p && _); [by destruct p|]. intros [= <-]. by rewrite Hbase, Hone.
  - intros [= <-]. by rewrite Hbase, Hone.
  - case_bool_decide as Hlen.
    + destruct (head (omap chip_error l)); [done|]. intros [= <-].
      destruct (Hchips l) as [-> ->]. destruct l; [simpl in Hlen; lia | done].
    + intros [= <-]. rewrite Hbase, Hone. destruct l; [done | simpl in Hlen; lia].
  - destruct (exceeds_zero _); [done|]. intros [= <-]. by rewrite Hbase, Hone.
Qed.
End chips.

(** ** What is never found under the container *)

Lemma unnamed_chips_shallow : shallow unnamed_chips.
Proof. by intros [] ?. Qed.

(** What [querySelector] finds lies below the root: a test that finds
    nothing below the root fails on it and finds nothing below it. *)
Lemma querySelector_Some p q root e :
  querySelector p root = Some e →
  p e = true ∧ (count_matches q root = 0 → misses q e).
Proof.
  revert e. induction root as [t i c a x kids n IH] using element_tree_ind. intros e.
  rewrite (count_matches_unfold q). unfold querySelector. fold (querySelector p). simpl.
  induction IH as [|k kids Hk _ IHkids]; simpl; [done|].
  destruct (p k) eqn:Pk.
  - intros [= <-]. split; [done|]. intros Hz. split; [destruct (q k); [lia | done] | lia].
  - destruct (querySelector p k) as [found|] eqn:Hfound.
    + intros [= <-]. destruct (Hk _ eq_refl) as [Hp Hq]. split; [done|].
      intros Hz. apply Hq. lia.
    + intros He. destruct (IHkids He) as [Hp Hq]. split; [done|].
      intros Hz. apply Hq. lia.
Qed.

Lemma node_at_misses q path root e :
  node_at path root = Some e → count_matches q root = 0 → misses q e.
Proof.
  assert (∀ i kids k, kids !! i = Some k →
            count_among (count_matches q) q kids = 0 → misses q k) as Hkid.
  { intros i kids. revert i. induction kids as [|a kids IH]; intros [|i] k; simpl; try done.
    - intros [= ->] Hz. split; [destruct (q k); [lia | done] | lia].
    - intros Hi Hz. eapply IH; [done | lia]. }
  revert root. induction path as [|i rest IH]; intros root; [done|].
  rewrite (count_matches_unfold q root). destruct rest as [|j rest].
  - apply Hkid.
  - change (node_at (i :: j :: rest) root) with (childNodes root !! i ≫= node_at (j :: rest)).
    intros (kid & Hi & Hrest)%bind_Some Hz. apply (IH _ Hrest).
    by apply (Hkid _ _ _ Hi).
Qed.

Section never_found.
Context `{Host}.

(** What a look-up by id finds lies below the root. *)
Lemma select_message_element_misses q messageId root found without :
  select_message_element messageId root = Normal (Some (found, without)) →
  count_matches q root = 0 → misses q found.
Proof.
  unfold select_message_element. destruct (converts _); [|done].
  destruct (selector_safe _).
  - intros [= Hs] Hz. apply select_first_Some in Hs as [Hfound _].
    apply (querySelector_Some _ q) in Hfound as [_ Hq]. by apply Hq.
  - destruct (querySelector_unescaped _ root) as [[path|]|]; [| done..].
    intros [= Hs] Hz. unfold select_at in Hs.
    destruct (node_at path root) as [e|] eqn:He; [|done].
    destruct (remove_at path root); [|done]. injection Hs as <- <-.
    by eapply node_at_misses.
Qed.

(** A test that nothing the renderer builds passes finds nothing under the
    container, whatever is called.  The numbers of the chip containers a
    call builds are those the call takes. *)
Lemma call_count_zero (q : element → bool) now op w :
  shallow q → misses q typingElement →
  (∀ key record item,
     allocated w ≤ key < allocated (after (call now op) w) →
     messageElement key record = Normal item → misses q item) →
  count_matches q (container w) = 0 →
  count_matches q (container (after (call now op) w)) = 0.
Proof.
  intros Hq [Ht Htz] Hitem Hz.
  assert (∀ now message w0,
            count_matches q (container w0) = 0 →
            (∀ key record item,
               allocated w0 ≤ key < allocated (after (addMessage now message) w0) →
               messageElement key record = Normal item → misses q item) →
            count_matches q (container (after (addMessage now message) w0)) = 0) as Hadd.
  { intros now' message w0 Hz0 Hitem0. revert Hitem0. rewrite allocated_addMessage.
    unfold after, taken. destruct (valid_message message) eqn:Hv.
    - destruct message as [m|]; [|done]. simpl in Hv. rewrite addMessage_valid by done.
      destruct (messageElement _ _) as [item|e] eqn:Hm; [|done]. intros Hitem0.
      cbn [snd set_container container]. rewrite count_appendChild, Hz0.
      destruct (Hitem0 (S (allocated w0)) _ item ltac:(lia) Hm) as [-> ->]. done.
    - by rewrite addMessage_invalid. }
  destruct op as [message|messageId updates|[items|]|s messageId| | | | |k]; unfold call in *.
  - by apply Hadd.
  - destruct (findIndex (has_id messageId) (message_list w)) as [i|] eqn:Hi.
    + destruct (findIndex_Some _ _ _ Hi) as (old & Hold & _). revert Hitem.
      unfold after. rewrite (updateMessage_found_exact _ _ _ _ _ Hi Hold).
      destruct (select_message_element messageId (container w)) as [found|e] eqn:Hfound;
        [|done].
      apply select_message_element_pruned in Hfound as [_ Hcount].
      specialize (Hcount q Hq).
      destruct (messageElement _ _) as [item|e] eqn:Hm;
        cbn [snd set_container container allocated set_allocated]; intros Hitem; [|lia].
      rewrite count_appendChild.
      destruct (Hitem (allocated w) _ item ltac:(lia) Hm) as [-> ->]. lia.
    + unfold after. rewrite updateMessage_missing by done. by destruct (converts messageId).
  - rewrite (loadMessages_after (Some items) w). cbn [container set_timers].
    by rewrite count_matches_unfold, childNodes_clearMessages.
  - by rewrite (loadMessages_after None w).
  - destruct (nullish s) eqn:Hs.
    + destruct (handleSuggestionClick_nullish now s messageId w Hs) as [e He].
      unfold after. by rewrite He.
    + revert Hitem.
      destruct (handleSuggestionClick_after now s messageId w Hs)
        as (extra & events & -> & _).
      cbn [container set_dispatched set_timers allocated]. intros Hitem.
      apply (Hadd now _ (set_allocated (S (allocated w)) w)); [done|].
      intros key record item Hkey. apply Hitem. unfold clicked. simpl in Hkey. lia.
  - by rewrite count_matches_unfold, childNodes_clearMessages.
  - unfold after. rewrite showTyping_after. cbn [snd].
    destruct (isTyping w); [done|]. cbn [set_container container].
    by rewrite count_appendChild, Hz, Ht, Htz.
  - unfold after. rewrite hideTyping_after. simpl.
    destruct (detach_first is_typing_indicator (container w)) as [c|] eqn:Hd; simpl; [|done].
    apply (detach_first_count_le _ q) in Hd; [lia | done].
  - unfold after, mbind, M_bind. by rewrite getMessages_after.
  - revert Hitem. rewrite runTimer_after.
    destruct (timers w !! k) as [[delay [message|node]]|]; [| |done].
    + intros Hitem. by apply (Hadd now message (set_timers (delete k (timers w)) w)).
    + intros _. rewrite detach_node_after. destruct node as [n|]; [|done]. simpl.
      destruct (detach_first (has_serial n) (container w)) as [c|] eqn:Hd; simpl; [|done].
      apply (detach_first_count_le _ q) in Hd; [lia | done].
Qed.

Lemma messageElement_named key record item :
  messageElement key record = Normal item → misses unnamed_chips item.
Proof.
  assert (misses unnamed_chips (messageItem record)) as Hbase.
  { unfold messageItem, messageContent, avatar, bubble.
    destruct (is_user record); [destruct (truthy _)|]; split; reflexivity. }
  intros [->|(ref & items & _ & ->)]%messageElement_cases; [done|].
  apply misses_appendChild; [apply unnamed_chips_shallow | done |].
  split; [reflexivity|]. unfold suggestionsContainer. rewrite count_set_childNodes.
  apply count_among_none, Forall_imap. intros index s. split; reflexivity.
Qed.

Lemma exec_no_unnamed_chips script :
  count_matches unnamed_chips (container (exec script new_ChatRenderer)) = 0.
Proof.
  apply (exec_invariant (λ w, count_matches unnamed_chips (container w) = 0)); [|done].
  intros now op w.
  apply call_count_zero; [apply unnamed_chips_shallow | split; reflexivity |].
  intros key record item _. apply messageElement_named.
Qed.

(** The callback that [hideSuggestions] leaves holds a chip container
    found under the container, which has a serial. *)
Lemma hideSuggestions_names messageId w :
  count_matches unnamed_chips (container w) = 0 →
  Forall names_its_node (timers w) →
  Forall names_its_node (timers (after (hideSuggestions messageId) w)).
Proof.
  intros Hz Hw. unfold hideSuggestions, query_message_element. run.
  destruct (select_message_element messageId (container w)) as [[[found c]|]|e] eqn:Hfound;
    simpl; [|done..].
  destruct (querySelector is_suggestions_container found) as [box|] eqn:Hbox; simpl; [|done].
  apply Forall_app. split; [done|]. apply Forall_singleton. intros node [= <-].
  apply (select_message_element_misses unnamed_chips) in Hfound as [_ Hinside]; [|done].
  apply (querySelector_Some _ unnamed_chips) in Hbox as [Hclass Hmiss].
  destruct (Hmiss Hinside) as [Hnamed _]. unfold unnamed_chips in Hnamed.
  rewrite Hclass in Hnamed. simpl in Hnamed. apply bool_decide_eq_false in Hnamed.
  by destruct (serial box).
Qed.

(** In every state the renderer reaches, a callback that detaches a chip
    container names it. *)
Lemma exec_callbacks_named script :
  Forall names_its_node (timers (exec script new_ChatRenderer)).
Proof.
  assert (∀ w, count_matches unnamed_chips (container w) = 0 ∧
               Forall names_its_node (timers w) →
          ∀ now op,
            count_matches unnamed_chips (container (after (call now op) w)) = 0 ∧
            Forall names_its_node (timers (after (call now op) w))) as Hstep.
  { intros w [Hz Hw] now op. split.
    { apply call_count_zero;
        [apply unnamed_chips_shallow | split; reflexivity | | done].
      intros key record item _. apply messageElement_named. }
    pose proof (call_timers now op w) as Ht.
    destruct op as [message|messageId updates|[items|]|s messageId| | | | |k];
      simpl in Ht |- *; try done; try (by rewrite Ht).
    - clear Ht. apply Forall_app. split; [done|]. apply Forall_forall.
      intros [delay callback] Hin.
      apply elem_of_lookup_imap in Hin as (index & message & Heq & Hm).
      injection Heq as -> ->. by intros node.
    - clear Ht. unfold handleSuggestionClick. destruct (nullish s); [done|].
      unfold after, dispatchEvent. run.
      set (w0 := set_allocated (S (allocated w)) w).
      pose proof (addMessage_frame now (Some (clicked_message now (allocated w) s)) w0)
        as (_ & _ & Htimers & _).
      assert (count_matches unnamed_chips
                (container (after (addMessage now
                                     (Some (clicked_message now (allocated w) s))) w0)) = 0)
        as Hz1.
      { apply (call_count_zero unnamed_chips now
                 (AddMessage (Some (clicked_message now (allocated w) s))) w0);
          [apply unnamed_chips_shallow | split; reflexivity | | done].
        intros key record item _. apply messageElement_named. }
      unfold after in Htimers, Hz1.
      destruct (addMessage now (Some (clicked_message now (allocated w) s)) w0)
        as [[[]|e] w1]; simpl in *; [|by rewrite Htimers].
      pose proof (hideSuggestions_names messageId w1 Hz1) as Hnames.
      rewrite Htimers in Hnames. specialize (Hnames Hw). unfold after in Hnames.
      by destruct (hideSuggestions messageId w1) as [[[]|e] w2].
    - rewrite Ht. by apply Forall_delete. }
  apply (exec_invariant (λ w, count_matches unnamed_chips (container w) = 0 ∧
                              Forall names_its_node (timers w))).
  - intros now op w Hw. by apply Hstep.
  - split; [done | constructor].
Qed.

(** The numbers on the chip containers under the container are below the
    next number to give out. *)
Lemma call_serials_given_out now op w :
  serials_given_out w → serials_given_out (after (call now op) w).
Proof.
  intros Hw n Hn. pose proof (call_allocated now op w) as Hgrows.
  apply call_count_zero; [apply has_serial_shallow | done | | apply Hw; lia].
  intros key record item Hkey [->|(ref & items & _ & ->)]%messageElement_cases.
  - apply messageItem_plain. right. by exists n.
  - apply misses_appendChild;
      [apply has_serial_shallow | apply messageItem_plain; right; by exists n |].
    split.
    + unfold has_serial. simpl. apply bool_decide_eq_false. intros [= ->]. lia.
    + unfold suggestionsContainer. rewrite count_set_childNodes.
      apply suggestion_buttons_miss. left. right. by exists n.
Qed.

Lemma exec_serials_given_out script : serials_given_out (exec script new_ChatRenderer).
Proof. apply exec_invariant; [apply call_serials_given_out | by intros n _]. Qed.
End never_found.

(** ** A click and the chips *)

Lemma find_among_app_miss p l1 l2 :
  Forall (misses p) l1 →
  find_among (querySelector p) p (l1 ++ l2) = find_among (querySelector p) p l2.
Proof.
  induction 1 as [|e l1 [Hp Hc] _ IH]; simpl; [done|].
  rewrite Hp. apply querySelector_None in Hc. by rewrite Hc.
Qed.

Lemma querySelector_unfold p root :
  querySelector p root = find_among (querySelector p) p (childNodes root).
Proof. by destruct root. Qed.

Lemma count_among_zero_misses q kids :
  count_among (count_matches q) q kids = 0 → Forall (misses q) kids.
Proof.
  induction kids as [|k kids IH]; simpl; [constructor|].
  intros Hz. constructor; [|apply IH; lia].
  split; [destruct (q k); [lia | done] | lia].
Qed.

Lemma tidy_misses_id s e :
  tidy e → has_message_id s e = false → misses (has_message_id s) e.
Proof.
  intros He Hs. split; [done|].
  destruct He as [_ [(_ & _ & Hnone)|(_ & id & Hid & Hother)]].
  - eapply count_matches_implied; [|exact Hnone]. apply has_message_id_is_message_item.
  - apply Hother. intros ->. unfold has_message_id in Hs. rewrite Hid in Hs.
    by rewrite bool_decide_eq_false in Hs.
Qed.

Section click_and_chips.
Context `{Host}.

Lemma messageContent_no_chip_class record :
  misses is_suggestions_container (messageContent record).
Proof.
  unfold messageContent, avatar, bubble.
  destruct (is_user record); [destruct (truthy _)|]; split; reflexivity.
Qed.

(** Inside the element of an answer, [.mt-3.flex.flex-wrap.gap-2] finds
    the chip container. *)
Lemma querySelector_chips key items messageId record :
  querySelector is_suggestions_container
    (appendChild (suggestionsContainer key items messageId) (messageItem record)) =
  Some (suggestionsContainer key items messageId).
Proof.
  rewrite querySelector_unfold, childNodes_appendChild.
  rewrite find_among_app_miss; [done|].
  unfold messageItem. rewrite childNodes_appendChild. simpl.
  apply Forall_singleton, messageContent_no_chip_class.
Qed.

(** [hideSuggestions] for the id of an answer whose element, chips
    included, is the first under the container to carry the id: it leaves
    the callback that detaches the chips of that element. *)
Lemma hideSuggestions_finds_chips messageId key items record kids rest w :
  converts messageId = true → selector_safe (ToString messageId) = true →
  ToString (get "id" record) = ToString messageId →
  childNodes (container w) =
    kids ++ appendChild (suggestionsContainer key items (get "id" record))
                        (messageItem record) :: rest →
  Forall (misses (has_message_id (ToString messageId))) kids →
  hideSuggestions messageId w =
  (Normal tt,
   set_timers (timers w ++ [(length items * 50 + 300, DetachLater (Some key))]) w).
Proof.
  intros Hconverts Hsafe Hid Hkids Hmiss. unfold hideSuggestions, query_message_element. run.
  rewrite select_message_element_safe by done.
  set (item := appendChild _ (messageItem record)) in *.
  assert (querySelector (has_message_id (ToString messageId)) (container w) = Some item)
    as Hfound.
  { rewrite querySelector_unfold, Hkids, find_among_app_miss by done. simpl.
    assert (has_message_id (ToString messageId) item = true) as ->; [|done].
    unfold has_message_id, item. apply bool_decide_eq_true.
    rewrite <- Hid. apply messageItem_data_message_id. }
  destruct (select_first _ (container w)) as [[found c]|] eqn:Hs.
  - apply select_first_Some in Hs as [Hq _]. rewrite Hfound in Hq. injection Hq as <-.
    simpl. unfold item. rewrite querySelector_chips. simpl.
    destruct (suggestionsContainer_chips key items (get "id" record)) as [_ Hn].
    unfold chips in Hn. by rewrite Hn.
  - apply select_first_None, detach_first_querySelector in Hs. congruence.
Qed.

(** The callback takes the chips out of that element and leaves the rest
    of the container as it is. *)
Lemma detach_chips_of key items record kids rest c :
  childNodes c =
    kids ++ appendChild (suggestionsContainer key items (get "id" record))
                        (messageItem record) :: rest →
  Forall (misses (has_serial key)) kids →
  detach_first (has_serial key) c =
  Some (set_childNodes (kids ++ messageItem record :: rest) c).
Proof.
  intros Hkids Hmiss. rewrite detach_first_unfold, Hkids, detach_among_app_miss by done.
  simpl. rewrite detach_serial_chips, bool_decide_eq_true_2 by done. done.
Qed.
End click_and_chips.

Section chips_after_a_click.
Context `{Host}.

Lemma messageElement_with_chips key record ref items :
  is_ai record = true → get "suggestions" record = VArray ref items → items ≠ [] →
  rendering_throws record = false →
  existsb unlabelled items = false ∧
  messageElement key record =
  Normal (appendChild (suggestionsContainer key items (get "id" record))
                      (messageItem record)).
Proof.
  intros Hai Hs Hne. unfold rendering_throws, messageElement, wants_chips.
  rewrite Hai, Hs. simpl.
  rewrite bool_decide_eq_true_2 by (destruct items; [done | simpl; lia]).
  destruct (item_converts record) eqn:Hc; [|done]. simpl. intros Hu. split; [done|].
  unfold renderSuggestions. rewrite (item_converts_id _ Hc).
  by rewrite (proj2 (forEach_returns items) Hu).
Qed.

(** X16.  A click on a chip takes the chips of the answer away, later.
    After any sequence of calls, let an answer (sender ["ai"]) with a
    truthy text and an array of suggestions be added, one for whose
    record [renderMessage] returns, with an id whose string has no double
    quote, backslash, NUL, line feed, form feed or carriage return and
    that no element under the container carries yet.  Its element is
    appended with a chip container after the bubble.  A click on one of
    the chips appends the element of the message of the user (when the
    text of the suggestion is truthy) and leaves, next to the timers that
    only animate, one timer, of [300 + 50 * n] ms for [n] chips; until it
    runs the chips are still there.  When it runs, the chip container is
    taken out of the element of the answer, and nothing else under the
    container changes. *)
Theorem click_takes_chips_away
    (script : list (Z * operation)) (now now' now'' : Z) (m : object)
    (ref : identity) (items : list suggestion) (s : suggestion) :
  let w := exec script new_ChatRenderer in
  let record := new_record now (allocated w) m in
  let key := S (allocated w) in
  let item := appendChild (suggestionsContainer key items (get "id" record))
                          (messageItem record) in
  truthy (get "text" m) = true → is_ai m = true →
  get "suggestions" m = VArray ref items → s ∈ items →
  rendering_throws record = false →
  selector_safe (ToString (get "id" record)) = true →
  Forall (λ e, has_message_id (ToString (get "id" record)) e = false)
         (childNodes (container w)) →
  let w1 := after (addMessage now (Some m)) w in
  let w2 := after (handleSuggestionClick now' s (get "id" record)) w1 in
  let w3 := after (runTimer now'' (length (timers w))) w2 in
  let answer := messageItem <$> appended now' (S (allocated w1))
                                  (Some (clicked_message now' (allocated w1) s)) in
  childNodes (container w1) = childNodes (container w) ++ [item] ∧
  timers w2 = timers w ++ [(length items * 50 + 300, DetachLater (Some key))] ∧
  childNodes (container w2) = childNodes (container w) ++ item :: answer ∧
  childNodes (container w3) = childNodes (container w) ++ messageItem record :: answer ∧
  timers w3 = timers w.
Proof.
  intros w record key item Htext Hai Hs Hin Hrenders Hsafe Hfresh w1 w2 w3 answer.
  assert (items ≠ []) as Hne by (intros ->; by apply elem_of_nil in Hin).
  assert (existsb unlabelled items = false ∧ messageElement key record = Normal item)
    as [Hnone Hitem].
  { apply messageElement_with_chips with ref; [| |done..].
    - unfold record. by rewrite is_ai_new_record.
    - unfold record. by rewrite get_new_record_suggestions. }
  assert (converts (get "id" record) = true) as Hconverts.
  { apply item_converts_id. unfold rendering_throws in Hrenders.
    by destruct (item_converts record). }
  assert (nullish s = false) as Hnot.
  { destruct (nullish s) eqn:Hn; [|done]. rewrite <- Hnone. symmetry.
    apply existsb_exists. exists s. split; [by apply list_elem_of_In|].
    unfold unlabelled. by rewrite Hn. }
  assert (w1 = set_container (appendChild item (container w)) (stored now m w)) as Hw1.
  { unfold w1, after. rewrite addMessage_valid by done. fold record key. by rewrite Hitem. }
  assert (childNodes (container w1) = childNodes (container w) ++ [item]) as Hkids1.
  { rewrite Hw1. apply childNodes_appendChild. }
  assert (timers w1 = timers w) as Htimers1 by by rewrite Hw1.
  set (v := set_allocated (S (allocated w1)) w1).
  set (cm := clicked_message now' (allocated w1) s) in *.
  assert (∃ v', addMessage now' (Some cm) v = (Normal tt, v') ∧
                childNodes (container v') = childNodes (container w1) ++ answer ∧
                timers v' = timers w) as (v' & Hadd & Hkids' & Htimers').
  { unfold answer, appended. destruct (truthy (get "text" cm)) eqn:Ht.
    - rewrite addMessage_valid by done.
      assert (messageElement (S (allocated v)) (new_record now' (allocated v) cm) =
              Normal (messageItem (new_record now' (allocated v) cm))) as ->.
      { unfold messageElement, wants_chips, is_ai, cm.
        by rewrite item_converts_clicked, get_new_record_sender. }
      eexists. split; [done|]. split; [apply childNodes_appendChild | done].
    - rewrite addMessage_invalid by (simpl; by rewrite Ht).
      eexists. split; [done|]. simpl. split; [by rewrite app_nil_r | done]. }
  assert (Forall (misses (has_message_id (ToString (get "id" record))))
            (childNodes (container w))) as Hmiss.
  { pose proof (exec_tidy script) as Htidy. fold w in Htidy.
    apply Forall_forall. intros e He. apply tidy_misses_id.
    - by eapply Forall_forall in Htidy.
    - by eapply Forall_forall in Hfresh. }
  assert (Forall (misses (has_serial key)) (childNodes (container w))) as Hserial.
  { apply count_among_zero_misses.
    pose proof (exec_serials_given_out script key) as Hout. fold w in Hout.
    rewrite count_matches_unfold in Hout. apply Hout. unfold key. lia. }
  assert (childNodes (container v') = childNodes (container w) ++ item :: answer) as Hkids2.
  { by rewrite Hkids', Hkids1, <- app_assoc. }
  assert (w2 = set_dispatched
                 (dispatched v' ++ [CustomEvent "suggestionClick" s (get "id" record)
                                      (suggestionText s)])
                 (set_timers (timers w ++ [(length items * 50 + 300,
                                            DetachLater (Some key))]) v')) as Hw2.
  { unfold w2, after, handleSuggestionClick, dispatchEvent. rewrite Hnot.
    unfold mbind, M_bind, allocate, write. fold cm v. rewrite Hadd.
    rewrite (hideSuggestions_finds_chips (get "id" record) key items record
               (childNodes (container w)) answer v') by done.
    by rewrite Htimers'. }
  split; [done|]. split; [by rewrite Hw2|]. split; [by rewrite Hw2|].
  unfold w3. rewrite runTimer_after. rewrite Hw2.
  cbn [timers set_dispatched set_timers].
  rewrite list_lookup_middle by done. rewrite detach_node_after.
  cbn [container set_dispatched set_timers timers].
  rewrite (detach_chips_of key items record (childNodes (container w)) answer) by done.
  cbn [default container set_container timers].
  split; [apply childNodes_set_childNodes|].
  by rewrite delete_middle, app_nil_r.
Qed.
End chips_after_a_click.

(** ** Ids that are objects *)

Lemma findIndex_snoc {A} (p : A → bool) l x :
  (∀ y, y ∈ l → p y = false) → p x = true → findIndex p (l ++ [x]) = Some (length l).
Proof.
  induction l as [|a l IH]; simpl; intros Hl Hx; [by rewrite Hx|].
  rewrite (Hl a) by left. rewrite IH; [done | | done].
  intros y Hy. apply Hl. by right.
Qed.

Lemma has_id_other_object messageId ref record :
  identity_of messageId = Some ref → identity_of (get "id" record) ≠ Some ref →
  has_id messageId record = false.
Proof.
  intros Hid Hother. unfold has_id.
  destruct messageId as [p| | |]; [done|..]; (destruct (get "id" record) as [q| | |];
    [done|..]); simpl in *; apply bool_decide_eq_false; congruence.
Qed.

Section object_ids.
Context `{Host}.

(** X17.  An id that is an object is found by identity.  A message whose
    id is a [Date] is stored with that very object for id: [updateMessage]
    with the same object finds the record and merges the updates into it,
    and [updateMessage] with another [Date], even one that shows the same
    time, finds nothing and leaves the list as it is. *)
Theorem updateMessage_finds_the_same_object
    (now : Z) (m : object) (ref : identity) (ms : Z) (updates : object) (w : world) :
  truthy (get "text" m) = true → m !! "id" = Some (VDate ref ms) →
  (∀ record, record ∈ message_list w → identity_of (get "id" record) ≠ Some ref) →
  let record := new_record now (allocated w) m in
  let w1 := after (addMessage now (Some m)) w in
  message_list (after (updateMessage (VDate ref ms) updates) w1) =
    message_list w ++ [spread record updates] ∧
  ∀ other, other ≠ ref →
    (∀ record, record ∈ message_list w → identity_of (get "id" record) ≠ Some other) →
    message_list (after (updateMessage (VDate other ms) updates) w1) =
      message_list w ++ [record].
Proof.
  intros Htext Hid Hnew record w1.
  assert (message_list w1 = message_list w ++ [record]) as Hlist.
  { unfold w1. rewrite message_list_addMessage. simpl. by rewrite Htext. }
  assert (get "id" record = VDate ref ms) as Hrecord.
  { unfold record. by rewrite get_new_record_id, Hid. }
  split.
  - assert (findIndex (has_id (VDate ref ms)) (message_list w1) =
            Some (length (message_list w))) as Hi.
    { rewrite Hlist. apply findIndex_snoc.
      - intros r Hr. apply has_id_other_object with ref; [done | by apply Hnew].
      - unfold has_id. rewrite Hrecord. simpl. by apply bool_decide_eq_true. }
    assert (message_list w1 !! length (message_list w) = Some record) as Hold.
    { rewrite Hlist. by apply list_lookup_middle. }
    destruct (updateMessage_found _ updates _ _ _ Hi Hold) as (-> & _).
    rewrite Hlist, insert_app_r_alt by done.
    by rewrite Nat.sub_diag.
  - intros other Hother Hnone. unfold after.
    rewrite (updateMessage_missing (VDate other ms)); [done|].
    apply findIndex_None. rewrite Hlist. intros r [Hr| ->%list_elem_of_singleton]%elem_of_app.
    + apply has_id_other_object with other; [done | by apply Hnone].
    + apply has_id_other_object with other; [done|]. rewrite Hrecord. simpl. congruence.
Qed.
End object_ids.

(** ** Concrete runs *)

Lemma message_list_two_messages :
  message_list two_messages =
  [new_record 1000 0 first_message; new_record 2000 2 second_message].
Proof. by vm_compute. Qed.

Lemma well_formed_two_messages : well_formed two_messages.
Proof. apply (bool_decide_unpack _). by vm_compute. Qed.

Lemma timers_two_messages : timers two_messages = [].
Proof. by vm_compute. Qed.

(** C1 at a concrete input: a second message for a renderer that holds
    one. *)
Lemma addMessage_appends_at_end_witness :
  truthy (get "text" second_message) = true ∧
  message_list (after (addMessage (H:=sample_host) 2000 (Some second_message)) one_message)
  = message_list one_message ++ [new_record 2000 (allocated one_message) second_message].
Proof.
  split; [reflexivity|].
  exact (proj1 (addMessage_appends_at_end (H:=sample_host) 2000 second_message one_message
                  eq_refl)).
Defined.

(** C9 at a concrete input: the empty string for text. *)
Lemma addMessage_invalid_leaves_state_witness :
  (Some empty_text_message = None ∨
   ∃ m, Some empty_text_message = Some m ∧ truthy (get "text" m) = false) ∧
  message_list (after (addMessage (H:=sample_host) 3000 (Some empty_text_message)) two_messages)
  = message_list two_messages ∧
  container (after (addMessage (H:=sample_host) 3000 (Some empty_text_message)) two_messages)
  = container two_messages.
Proof.
  assert (Some empty_text_message = None ∨
          ∃ m, Some empty_text_message = Some m ∧ truthy (get "text" m) = false) as Hbad.
  { right. exists empty_text_message. split; reflexivity. }
  split; [exact Hbad|].
  destruct (addMessage_invalid_leaves_state (H:=sample_host) 3000 (Some empty_text_message)
              two_messages Hbad) as (_ & _ & Hlist & _ & Hdom & _).
  split; [exact Hlist | exact Hdom].
Defined.

(** C5 at a concrete input: an edit of the first of two messages. *)
Lemma updateMessage_in_place_witness :
  (∃ record, record ∈ message_list two_messages ∧ has_id (VString "1") record = true) ∧
  ∃ i old,
    message_list two_messages !! i = Some old ∧
    message_list (after (updateMessage (H:=sample_host) (VString "1")
                           {[ "text" := VString "edited" ]}) two_messages)
    = <[i := spread old {[ "text" := VString "edited" ]}]> (message_list two_messages).
Proof.
  assert (∃ record, record ∈ message_list two_messages ∧ has_id (VString "1") record = true)
    as Hsome.
  { exists (new_record 1000 0 first_message). split; [|reflexivity].
    rewrite message_list_two_messages. left. }
  split; [exact Hsome|].
  destruct (proj1 (updateMessage_in_place (H:=sample_host) (VString "1")
                     {[ "text" := VString "edited" ]} two_messages) Hsome)
    as (i & old & Hold & _ & _ & Hlist & _).
  exists i, old. split; [exact Hold | exact Hlist].
Defined.

(** C10 at a concrete input: the copy of a list of two. *)
Lemma getMessages_fresh_copy_witness :
  well_formed two_messages ∧
  ∃ copy w',
    getMessages two_messages = (Normal copy, w') ∧
    copy ≠ messages two_messages ∧
    array_at copy w' = message_list two_messages ∧
    ∀ x, message_list (after (array_push copy x) w') = message_list two_messages.
Proof.
  split; [exact well_formed_two_messages|].
  destruct (getMessages_fresh_copy two_messages well_formed_two_messages)
    as (copy & w' & Hget & _ & Hne & Hcopy & _ & _ & _ & _ & _ & _ & _ & _ & _ & Hpush & _).
  exists copy, w'. split_and!; [exact Hget | exact Hne | exact Hcopy | exact Hpush].
Defined.

(** C2 as stated fails: the same id given twice is stored twice. *)
Lemma same_id_stored_twice :
  ¬ NoDup (ids (exec (H:=sample_host) same_id_script new_ChatRenderer)).
Proof.
  assert (ids (exec (H:=sample_host) same_id_script new_ChatRenderer)
          = [VString "1"; VString "1"]) as -> by by vm_compute.
  intros [Hnotin _]%NoDup_cons. apply Hnotin. left.
Qed.

(** C2 as amended, at a script that takes every method. *)
Lemma ids_distinct_when_kept_apart_witness :
  id_discipline (H:=sample_host) tour_script new_ChatRenderer = true ∧
  NoDup (ids (exec (H:=sample_host) tour_script new_ChatRenderer)).
Proof.
  split; [by vm_compute|].
  apply (ids_distinct_when_kept_apart (H:=sample_host) tour_script). by vm_compute.
Defined.

(** C3 as stated fails: a sender that is neither of the two is stored as
    given. *)
Lemma unknown_sender_stored :
  ¬ Forall sender_is_user_or_ai
      (message_list (exec (H:=sample_host) [(1000%Z, AddMessage (Some bot_message))]
                       new_ChatRenderer)).
Proof.
  intros Hall.
  assert (Forall (λ v, v = VString "user" ∨ v = VString "ai")
            (get "sender" <$>
               message_list (exec (H:=sample_host) [(1000%Z, AddMessage (Some bot_message))]
                               new_ChatRenderer))) as Hsenders
    by by apply Forall_fmap.
  assert (get "sender" <$>
            message_list (exec (H:=sample_host) [(1000%Z, AddMessage (Some bot_message))]
                            new_ChatRenderer) = [VString "bot"]) as Hbot by by vm_compute.
  rewrite Hbot in Hsenders. apply Forall_cons in Hsenders as [[Hu|Ha] _]; discriminate.
Qed.

(** C3 as amended, at a script that takes every method. *)
Lemma senders_user_or_ai_when_supplied_so_witness :
  forallb (λ step, supplies_known_sender step.2) tour_script = true ∧
  Forall sender_is_user_or_ai (message_list (exec (H:=sample_host) tour_script new_ChatRenderer)).
Proof.
  split; [by vm_compute|].
  apply (senders_user_or_ai_when_supplied_so (H:=sample_host) tour_script). by vm_compute.
Defined.

(** C4 as stated fails: an update that passes an [id] leaves the record in
    place under another id, so the old id is gone from the list. *)
Lemma update_renames_id :
  VString "1" ∈ ids two_messages ∧
  VString "1" ∉ ids (after (call (H:=sample_host) 3000 rename_update) two_messages).
Proof.
  assert (ids two_messages = [VString "1"; VString "2"]) as -> by by vm_compute.
  assert (ids (after (call (H:=sample_host) 3000 rename_update) two_messages)
          = [VString "9"; VString "2"]) as -> by by vm_compute.
  split; [left|].
  intros [Heq|[Heq|Hnil]%elem_of_cons]%elem_of_cons; [discriminate..|].
  by apply elem_of_nil in Hnil.
Qed.

(** C4 as amended, at an edit of the first of two messages. *)
Lemma no_single_removal_witness :
  well_formed two_messages ∧
  length (message_list two_messages)
  ≤ length (message_list
              (after (call (H:=sample_host) 3000
                        (UpdateMessage (VString "1") {[ "text" := VString "edited" ]}))
                 two_messages)).
Proof.
  split; [exact well_formed_two_messages|].
  destruct (no_single_removal (H:=sample_host) 3000
              (UpdateMessage (VString "1") {[ "text" := VString "edited" ]})
              two_messages well_formed_two_messages) as [Hkeep _].
  destruct Hkeep as [Hlen _]; [discriminate | discriminate | exact Hlen].
Defined.

(** C6 as stated fails: a click on the empty-string suggestion appends
    nothing, since [addMessage] turns its empty text down. *)
Lemma click_on_empty_suggestion_appends_nothing :
  ¬ ∃ record,
      message_list (after (handleSuggestionClick (H:=sample_host) 3000 (SuggString "")
                             (VString "2")) two_messages)
      = message_list two_messages ++ [record].
Proof.
  intros [record Hrecord].
  apply (f_equal length) in Hrecord. rewrite length_app in Hrecord.
  assert (length (message_list
                    (after (handleSuggestionClick (H:=sample_host) 3000 (SuggString "")
                              (VString "2")) two_messages)) = 2) as Hlen by by vm_compute.
  assert (length (message_list two_messages) = 2) as Hlen' by by vm_compute.
  rewrite Hlen, Hlen' in Hrecord. simpl in Hrecord. lia.
Qed.

(** C6 as amended, at a click on the suggestion ["yes"]. *)
Lemma suggestion_click_creates_message_witness :
  string_or_object (SuggString "yes") = true ∧
  converts (VString "2") = true ∧
  selector_safe (ToString (H:=sample_host) (VString "2")) = true ∧
  truthy (suggestionText (SuggString "yes")) = true ∧
  message_list (after (handleSuggestionClick (H:=sample_host) 3000 (SuggString "yes")
                         (VString "2")) two_messages)
  = message_list two_messages ++
    [new_record 3000 (S (allocated two_messages))
       (clicked_message 3000 (allocated two_messages) (SuggString "yes"))] ∧
  dispatched (after (handleSuggestionClick (H:=sample_host) 3000 (SuggString "yes")
                       (VString "2")) two_messages)
  = dispatched two_messages ++
    [CustomEvent "suggestionClick" (SuggString "yes") (VString "2") (VString "yes")].
Proof.
  split; [reflexivity|]. split; [reflexivity|]. split; [reflexivity|]. split; [reflexivity|].
  destruct (suggestion_click_creates_message (H:=sample_host) 3000 (SuggString "yes")
              (VString "2") two_messages eq_refl eq_refl eq_refl)
    as (_ & Hevent & Htruthy & _).
  destruct (Htruthy eq_refl) as (Hlist & _).
  split; [exact Hlist | exact Hevent].
Defined.

(** C8 at a concrete input: [showTyping] on a renderer that shows the
    indicator. *)
Lemma typing_indicator_toggle_witness :
  isTyping (after showTyping two_messages) = true ∧
  showTyping (after showTyping two_messages) = (Normal tt, after showTyping two_messages).
Proof.
  split; [reflexivity|].
  exact (proj1 (@typing_indicator_toggle sample_host) (after showTyping two_messages)
           eq_refl).
Defined.

(** ** Further concrete runs *)

(** X1 at a concrete input: an array of three, one of them not a
    message. *)
Lemma loadMessages_then_timers_witness :
  timers two_messages = [] ∧
  length [5000; 5100; 5200]%Z = length three_items ∧
  message_list
    (exec (H:=sample_host)
       ((4500%Z, LoadMessages (Some three_items)) :: fire_in_order [5000; 5100; 5200]%Z)
       two_messages)
  = loaded (allocated two_messages) [5000; 5100; 5200]%Z three_items.
Proof.
  split; [exact timers_two_messages|]. split; [reflexivity|].
  destruct (loadMessages_then_timers (H:=sample_host) 4500 three_items
              [5000; 5100; 5200]%Z two_messages timers_two_messages eq_refl)
    as (_ & _ & _ & _ & Hlist & _).
  exact Hlist.
Defined.

(** X2 at a concrete input. *)
Lemma clearMessages_keeps_pending_timers_witness :
  timers two_messages = [] ∧
  message_list
    (exec (H:=sample_host)
       ((4500%Z, LoadMessages (Some three_items)) :: (4600%Z, ClearMessages)
          :: fire_in_order [5000; 5100; 5200]%Z)
       two_messages)
  = loaded (allocated two_messages) [5000; 5100; 5200]%Z three_items.
Proof.
  split; [exact timers_two_messages|].
  exact (proj2 (clearMessages_keeps_pending_timers (H:=sample_host) 4500 4600 three_items
                  [5000; 5100; 5200]%Z two_messages timers_two_messages)).
Defined.

(** X4 at a concrete input: a snapshot of two messages, then an edit, a
    clear and more. *)
Lemma getMessages_snapshot_is_stable_witness :
  well_formed two_messages ∧
  ∃ copy w',
    getMessages two_messages = (Normal copy, w') ∧
    array_at copy (exec (H:=sample_host) tour_script w') = message_list two_messages.
Proof.
  split; [exact well_formed_two_messages|].
  exact (getMessages_snapshot_is_stable (H:=sample_host) two_messages tour_script
           well_formed_two_messages).
Defined.

(** X5 at a concrete input: the edit of the first of two messages. *)
Lemma updateMessage_rerenders_last_witness :
  findIndex (has_id (VString "1"))
    (message_list (exec (H:=sample_host) (take 2 edit_first_script) new_ChatRenderer))
  = Some 0 ∧
  message_list (exec (H:=sample_host) (take 2 edit_first_script) new_ChatRenderer) !! 0
  = Some (new_record 1000 0 first_message) ∧
  converts (VString "1") = true ∧
  selector_safe (ToString (H:=sample_host) (VString "1")) = true ∧
  rendering_throws (H:=sample_host)
    (spread (new_record 1000 0 first_message) {[ "text" := VString "edited" ]}) = false ∧
  ∃ item,
    message_elements
      (after (updateMessage (H:=sample_host) (VString "1") {[ "text" := VString "edited" ]})
         (exec (H:=sample_host) (take 2 edit_first_script) new_ChatRenderer))
    = match findIndex (has_message_id "1")
              (message_elements
                 (exec (H:=sample_host) (take 2 edit_first_script) new_ChatRenderer)) with
      | Some j =>
        delete j (message_elements
                    (exec (H:=sample_host) (take 2 edit_first_script) new_ChatRenderer))
      | None =>
        message_elements (exec (H:=sample_host) (take 2 edit_first_script) new_ChatRenderer)
      end ++ [item].
Proof.
  assert (findIndex (has_id (VString "1"))
            (message_list (exec (H:=sample_host) (take 2 edit_first_script) new_ChatRenderer))
          = Some 0) as Hi by by vm_compute.
  assert (message_list (exec (H:=sample_host) (take 2 edit_first_script) new_ChatRenderer) !! 0
          = Some (new_record 1000 0 first_message)) as Hold by by vm_compute.
  assert (rendering_throws (H:=sample_host)
            (spread (new_record 1000 0 first_message) {[ "text" := VString "edited" ]})
          = false) as Hrenders by by vm_compute.
  split; [exact Hi|]. split; [exact Hold|]. split; [reflexivity|]. split; [reflexivity|].
  split; [exact Hrenders|].
  destruct (updateMessage_rerenders_last (H:=sample_host) (take 2 edit_first_script)
              (VString "1") {[ "text" := VString "edited" ]} 0
              (new_record 1000 0 first_message) Hi Hold eq_refl eq_refl Hrenders)
    as (item & _ & Helements).
  exists item. exact Helements.
Defined.

(** X6 at a concrete input: the indicator goes after two messages. *)
Lemma typing_indicator_spares_messages_witness :
  isTyping (exec (H:=sample_host) (take 2 edit_first_script) new_ChatRenderer) = false ∧
  childNodes (container (after showTyping
                (exec (H:=sample_host) (take 2 edit_first_script) new_ChatRenderer)))
  = childNodes (container
                  (exec (H:=sample_host) (take 2 edit_first_script) new_ChatRenderer))
    ++ [typingElement].
Proof.
  split; [reflexivity|].
  destruct (typing_indicator_spares_messages (H:=sample_host) (take 2 edit_first_script))
    as (_ & _ & Hshow).
  exact (Hshow eq_refl).
Defined.

(** X7 at a concrete input: a script that takes every method. *)
Lemma container_holds_rendered_elements_witness :
  forallb (λ step, selects_by_id (H:=sample_host) step.2) tour_script = true ∧
  Forall (λ e, is_typing_indicator e = true ∨ is_message_item e = true)
         (childNodes (container (exec (H:=sample_host) tour_script new_ChatRenderer))).
Proof.
  split; [reflexivity|].
  eapply Forall_impl;
    [exact (container_holds_rendered_elements (H:=sample_host) tour_script eq_refl)|].
  intros e [[-> _]|(record & _ & Hitem & _)]; [left; reflexivity | right; exact Hitem].
Defined.

(** X8 at a concrete input: an answer whose array of suggestions holds a
    [null]. *)
Lemma addMessage_stores_before_rendering_witness :
  truthy (get "text" null_suggestion_message) = true ∧
  message_list (after (addMessage (H:=sample_host) 3000 (Some null_suggestion_message))
                  two_messages)
  = message_list two_messages ++
    [new_record 3000 (allocated two_messages) null_suggestion_message] ∧
  container (after (addMessage (H:=sample_host) 3000 (Some null_suggestion_message))
               two_messages)
  = container two_messages.
Proof.
  split; [reflexivity|].
  destruct (addMessage_stores_before_rendering (H:=sample_host) 3000
              null_suggestion_message two_messages eq_refl)
    as (Hlist & _ & _ & Hthrows & _).
  split; [exact Hlist|]. exact (proj2 (Hthrows eq_refl)).
Defined.

(** X9 at a concrete input: an empty string for sender is kept. *)
Lemma new_record_keeps_own_properties_witness :
  no_id_message !! "sender" = Some (VString "") ∧
  no_id_message !! "id" = None ∧
  new_record 1000 0 no_id_message !! "sender" = Some (VString "") ∧
  new_record 1000 0 no_id_message !! "id" = Some (VString "1000").
Proof.
  split; [reflexivity|]. split; [reflexivity|].
  destruct (new_record_keeps_own_properties 1000 0 no_id_message) as (Hown & Hid & _).
  split; [exact (Hown "sender" (VString "") eq_refl) | exact (Hid eq_refl)].
Defined.

(** X10 at a concrete input: twice the message without an id, at one
    clock reading. *)
Lemma default_ids_collide_within_a_millisecond_witness :
  no_id_message !! "id" = None ∧
  truthy (get "text" no_id_message) = true ∧
  ¬ NoDup (ids (after (addMessage (H:=sample_host) 1000 (Some no_id_message))
                  (after (addMessage (H:=sample_host) 1000 (Some no_id_message))
                     new_ChatRenderer))).
Proof.
  split; [reflexivity|]. split; [reflexivity|].
  exact (proj2 (default_ids_collide_within_a_millisecond (H:=sample_host) 1000
                  no_id_message no_id_message new_ChatRenderer
                  eq_refl eq_refl eq_refl eq_refl)).
Defined.

Lemma no_record_with_id_5 :
  ∀ record, record ∈ message_list two_messages → has_id (VString "5") record = false.
Proof.
  rewrite message_list_two_messages.
  intros record [->|[->|Hnil]%elem_of_cons]%elem_of_cons; [reflexivity..|].
  by apply elem_of_nil in Hnil.
Qed.

(** X11 at a concrete input: an id that neither of two messages has. *)
Lemma updateMessage_unknown_id_reports_witness :
  (∀ record, record ∈ message_list two_messages → has_id (VString "5") record = false) ∧
  updateMessage (H:=sample_host) (VString "5") {[ "text" := VString "edited" ]} two_messages
  = (Normal tt, set_console (console two_messages ++ ["Message with ID 5 not found"])
                  two_messages).
Proof.
  split; [exact no_record_with_id_5|].
  exact (proj1 (proj1 (updateMessage_unknown_id_reports (H:=sample_host) (VString "5")
                         {[ "text" := VString "edited" ]} two_messages)
                  no_record_with_id_5) eq_refl).
Defined.

(** X12 at a concrete input: an edit dispatches nothing. *)
Lemma only_suggestion_clicks_dispatch_witness :
  (∀ s messageId,
     UpdateMessage (VString "1") {[ "text" := VString "edited" ]}
     ≠ HandleSuggestionClick s messageId) ∧
  dispatched (after (call (H:=sample_host) 3000
                       (UpdateMessage (VString "1") {[ "text" := VString "edited" ]}))
                two_messages)
  = dispatched two_messages.
Proof.
  assert (∀ s messageId,
            UpdateMessage (VString "1") {[ "text" := VString "edited" ]}
            ≠ HandleSuggestionClick s messageId) as Hop by (intros s messageId; discriminate).
  split; [exact Hop|].
  exact (only_suggestion_clicks_dispatch (H:=sample_host) 3000 _ two_messages Hop).
Defined.

(** X13 at a concrete input: a script with every method but
    [updateMessage], in which a click takes the chips of an answer
    away. *)
Lemma dom_mirrors_list_without_updateMessage_witness :
  forallb (λ step, renders_in_order (H:=sample_host) step.2) script_without_update = true ∧
  length (message_elements (exec (H:=sample_host) script_without_update new_ChatRenderer))
  = length (message_list (exec (H:=sample_host) script_without_update new_ChatRenderer)).
Proof.
  split; [reflexivity|].
  destruct (dom_mirrors_list_without_updateMessage (H:=sample_host)
              script_without_update eq_refl) as (_ & Hlength & _).
  exact Hlength.
Defined.

(** X14 at a concrete input: a string and an object. *)
Lemma renderSuggestions_buttons_witness :
  converts (VString "7") = true ∧
  existsb unlabelled [SuggString "yes"; SuggObject {[ "text" := PString "no" ]}] = false ∧
  ∃ box button,
    renderSuggestions (H:=sample_host) 0
      (VArray (Supplied 1) [SuggString "yes"; SuggObject {[ "text" := PString "no" ]}])
      (VString "7") = Normal box ∧
    childNodes box !! 1 = Some button ∧
    textContent button = "no" ∧
    getAttribute "data-suggestion-id" button = Some "1".
Proof.
  assert (existsb unlabelled [SuggString "yes"; SuggObject {[ "text" := PString "no" ]}]
          = false) as Hnone by reflexivity.
  split; [reflexivity|]. split; [exact Hnone|].
  destruct (proj1 (renderSuggestions_buttons (H:=sample_host) 0 (Supplied 1)
                     [SuggString "yes"; SuggObject {[ "text" := PString "no" ]}]
                     (VString "7")) eq_refl Hnone)
    as (box & Hbox & _ & _ & Hbuttons).
  destruct (Hbuttons 1 (SuggObject {[ "text" := PString "no" ]}) eq_refl)
    as (button & Hbutton & _ & _ & Htext & Hid).
  exists box, button. split; [exact Hbox|]. split; [exact Hbutton|].
  split; [exact Htext | exact Hid].
Defined.

(** X15 at a concrete input: an answer with two suggestions. *)
Lemma messageElement_chips_witness :
  messageElement (H:=sample_host) 1 (new_record 2000 0 ai_message) = Normal ai_item ∧
  chips ai_item = 2.
Proof.
  assert (messageElement (H:=sample_host) 1 (new_record 2000 0 ai_message) = Normal ai_item)
    as Hitem by by vm_compute.
  split; [exact Hitem|].
  exact (proj1 (messageElement_chips (H:=sample_host) 1 _ ai_item Hitem)).
Defined.

(** X16 at a concrete input: after two messages, an answer with two chips
    and a click on the first of them. *)
Lemma click_takes_chips_away_witness :
  truthy (get "text" ai_message) = true ∧ is_ai ai_message = true ∧
  SuggString "yes" ∈ [SuggString "yes"; SuggObject {[ "id" := PString "n";
                                                      "text" := PString "no" ]}] ∧
  let w := exec (H:=sample_host) (take 2 edit_first_script) new_ChatRenderer in
  let record := new_record 2000 (allocated w) ai_message in
  let w1 := after (addMessage (H:=sample_host) 2000 (Some ai_message)) w in
  let w2 := after (handleSuggestionClick (H:=sample_host) 3000 (SuggString "yes")
                     (get "id" record)) w1 in
  let w3 := after (runTimer (H:=sample_host) 3400 (length (timers w))) w2 in
  timers w2 = timers w ++ [(2 * 50 + 300, DetachLater (Some (S (allocated w))))] ∧
  timers w3 = timers w.
Proof.
  split; [reflexivity|]. split; [reflexivity|]. split; [left|].
  destruct (click_takes_chips_away (H:=sample_host) (take 2 edit_first_script)
              2000 3000 3400 ai_message (Supplied 2)
              [SuggString "yes"; SuggObject {[ "id" := PString "n"; "text" := PString "no" ]}]
              (SuggString "yes") eq_refl eq_refl eq_refl ltac:(left) eq_refl
              eq_refl ltac:(repeat constructor))
    as (_ & Htimer & _ & _ & Hleft).
  split; [exact Htimer | exact Hleft].
Defined.

Lemma no_record_with_date_4 :
  ∀ record, record ∈ message_list two_messages →
            identity_of (get "id" record) ≠ Some (Supplied 4).
Proof.
  rewrite message_list_two_messages.
  intros record [->|[->|Hnil]%elem_of_cons]%elem_of_cons; [discriminate..|].
  by apply elem_of_nil in Hnil.
Qed.

(** X17 at a concrete input: a message whose id is a [Date], after two
    messages with strings for ids. *)
Lemma updateMessage_finds_the_same_object_witness :
  truthy (get "text" dated_message) = true ∧
  dated_message !! "id" = Some (VDate (Supplied 4) 86400000) ∧
  message_list
    (after (updateMessage (H:=sample_host) (VDate (Supplied 4) 86400000)
              {[ "text" := VString "edited" ]})
       (after (addMessage (H:=sample_host) 3000 (Some dated_message)) two_messages))
  = message_list two_messages
    ++ [spread (new_record 3000 (allocated two_messages) dated_message)
          {[ "text" := VString "edited" ]}].
Proof.
  split; [reflexivity|]. split; [reflexivity|].
  exact (proj1 (updateMessage_finds_the_same_object (H:=sample_host) 3000 dated_message
                  (Supplied 4) 86400000 {[ "text" := VString "edited" ]} two_messages
                  eq_refl eq_refl no_record_with_date_4)).
Defined.
